(** * Country comparator: cache, resilient fetcher, providers and
    comparison engine of [server/countryHelpers.ts]

    The development embeds the TypeScript helpers as Rocq functions over an
    explicit world (the in-memory cache, the clock behind [Date.now()] and
    the trace of outward effects) and proves the properties the
    specification states about them.  The network and the runtime's
    [Intl.DateTimeFormat] are oracles of the environment. *)

From Stdlib Require Import ZArith String Ascii List Lia Bool.
From stdpp Require Import base option list strings gmap pretty.

Set Warnings "-register-all".
Local Open Scope Z_scope.

(** ** JavaScript values decoded from a JSON body *)

(** What [response.json()] can produce, plus [undefined] (the value of a
    missing property).  Numbers are restricted to integers. *)
Inductive JsVal : Type :=
| JUndefined
| JNull
| JBool (b : bool)
| JNum (n : Z)
| JStr (s : string)
| JArr (items : list JsVal)
| JObj (props : list (string * JsVal)).

(** Structural equality.  On primitive values (strings in particular, the
    declared type of every key used below) this is the SameValueZero
    comparison of [Map]. *)
Fixpoint JsVal_eqb (a b : JsVal) {struct a} : bool :=
  match a, b with
  | JUndefined, JUndefined => true
  | JNull, JNull => true
  | JBool x, JBool y => Bool.eqb x y
  | JNum x, JNum y => Z.eqb x y
  | JStr x, JStr y => String.eqb x y
  | JArr l1, JArr l2 =>
      (fix go (l1 l2 : list JsVal) {struct l1} : bool :=
         match l1, l2 with
         | [], [] => true
         | x :: l1', y :: l2' => JsVal_eqb x y && go l1' l2'
         | _, _ => false
         end) l1 l2
  | JObj p1, JObj p2 =>
      (fix go (p1 p2 : list (string * JsVal)) {struct p1} : bool :=
         match p1, p2 with
         | [], [] => true
         | (k1, x) :: p1', (k2, y) :: p2' =>
             String.eqb k1 k2 && JsVal_eqb x y && go p1' p2'
         | _, _ => false
         end) p1 p2
  | _, _ => false
  end.

(** JavaScript truthiness, as used by [||] and [if]. *)
Definition truthy (v : JsVal) : bool :=
  match v with
  | JUndefined | JNull => false
  | JBool b => b
  | JNum n => negb (n =? 0)
  | JStr s => negb (String.eqb s "")
  | JArr _ | JObj _ => true
  end.

(** [a || b] *)
Definition js_or (a b : JsVal) : JsVal := if truthy a then a else b.

(** ** Thrown values and results *)

Inductive Error : Type :=
| HttpError (status : Z) (statusText : string)
    (* new Error(`HTTP ${response.status}: ${response.statusText}`) *)
| NetworkError (reason : string)      (* fetch(url) rejected *)
| BodyError (reason : string)         (* response.json() rejected *)
| TypeError (reason : string)
| RangeError (reason : string).

(** [lastError] has type [Error | null]; [throw lastError] throws either. *)
Definition Thrown : Type := option Error.

Inductive Res (A : Type) : Type :=
| Ok (a : A)
| Throw (t : Thrown).
Arguments Ok {A} a.
Arguments Throw {A} t.

(** Property read [v.k] for the property names this module reads
    ([date], [name], [localName], [countryCode], [timezone], [utc_offset],
    [dst]); none of them is inherited by a JSON value. *)
Fixpoint lookup_prop (k : string) (props : list (string * JsVal)) : JsVal :=
  match props with
  | [] => JUndefined
  | (k', v) :: rest => if String.eqb k k' then v else lookup_prop k rest
  end.

Definition getProp (v : JsVal) (k : string) : Res JsVal :=
  match v with
  | JUndefined => Throw (Some (TypeError "Cannot read properties of undefined"))
  | JNull => Throw (Some (TypeError "Cannot read properties of null"))
  | JObj props => Ok (lookup_prop k props)
  | _ => Ok JUndefined
  end.

(** ** Data model *)

(** [interface Holiday].  The fields are declared [string] ([localName] and
    [countryCode] optional), but the records are built from an untyped
    payload ([(h: any) => ...]): at run time each field holds whatever the
    payload holds, [undefined] when the property is missing. *)
Record Holiday : Type := mkHoliday {
  date : JsVal;
  name : JsVal;
  localName : JsVal;
  countryCode : JsVal;
}.

(** [interface ZoneStatus], built from an untyped payload as well. *)
Record ZoneStatus : Type := mkZoneStatus {
  zone : JsVal;
  utc_offset : JsVal;
  dst : JsVal;
}.

(** An entry of [holidays.common]. *)
Record CommonHoliday : Type := mkCommon {
  common_date : JsVal;
  nameA : JsVal;
  nameB : JsVal;
}.

(** An entry of [commonOffsetNow.overlaps]. *)
Record OffsetOverlap : Type := mkOverlap {
  offset : JsVal;
  zonesA : list JsVal;
  zonesB : list JsVal;
}.

Record HolidayReport : Type := mkHolidayReport {
  common : list CommonHoliday;
  onlyA : list Holiday;
  onlyB : list Holiday;
}.

Record CommonOffsetNow : Type := mkCommonOffsetNow {
  hasOverlap : bool;
  overlaps : list OffsetOverlap;
}.

Record TimezoneReport : Type := mkTimezoneReport {
  tzA : list ZoneStatus;
  tzB : list ZoneStatus;
  commonOffsetNow : CommonOffsetNow;
}.

Record Inputs : Type := mkInputs {
  in_countryA : string;
  in_countryB : string;
  in_year : Z;
}.

Record ComparisonResult : Type := mkComparisonResult {
  inputs : Inputs;
  holidays : HolidayReport;
  timezones : TimezoneReport;
}.

(** ** The world: cache, clock, trace *)

(** The values the module stores in its cache ([CacheEntry<any>]). *)
Inductive CacheData : Type :=
| CachedHolidays (hs : list Holiday)
| CachedZone (zs : ZoneStatus).

Record CacheEntry : Type := mkCacheEntry {
  data : CacheData;
  timestamp : Z;
}.

(** Outward effects, in the order they happen. *)
Inductive Event : Type :=
| Fetch (url : string)
| Sleep (ms : Z)
| LogError (what : string).

Record World : Type := mkWorld {
  cache : gmap string CacheEntry;   (* const cache = new Map() *)
  now : Z;                          (* Date.now(), milliseconds *)
  trace : list Event;
}.

(** What the network answers to one request. *)
Inductive Body : Type :=
| Malformed (reason : string)       (* response.json() rejects *)
| Json (v : JsVal).

Inductive Reply : Type :=
| Unreachable (reason : string)     (* fetch rejects *)
| Response (status : Z) (statusText : string) (body : Body).

Record Exchange : Type := mkExchange {
  elapsed : Z;                      (* time the request takes *)
  reply : Reply;
}.

(** [response.ok] *)
Definition response_ok (status : Z) : bool := (200 <=? status) && (status <=? 299).

(** One part of [Intl.DateTimeFormat.prototype.formatToParts]. *)
Record Part : Type := mkPart {
  part_type : string;
  part_value : string;
}.

(** ** The monad of the helpers: state plus exceptions *)

Definition M (A : Type) : Type := World -> Res A * World.

Definition ret {A} (a : A) : M A := fun w => (Ok a, w).
Definition throw {A} (t : Thrown) : M A := fun w => (Throw t, w).
Definition bind {A B} (m : M A) (k : A -> M B) : M B :=
  fun w => match m w with
           | (Ok a, w') => k a w'
           | (Throw t, w') => (Throw t, w')
           end.
(** [try { m } catch (error) { h error }] *)
Definition try_catch {A} (m : M A) (h : Thrown -> M A) : M A :=
  fun w => match m w with
           | (Ok a, w') => (Ok a, w')
           | (Throw t, w') => h t w'
           end.
Definition lift {A} (r : Res A) : M A := fun w => (r, w).

Notation "'do' x <- m ; k" := (bind m (fun x => k))
  (at level 10, x binder, m at level 100, k at level 200, only parsing).
Notation "'exec' m ; k" := (bind m (fun _ => k))
  (at level 10, m at level 100, k at level 200, only parsing).

Definition emit (e : Event) : M unit :=
  fun w => (Ok tt, mkWorld (cache w) (now w) (trace w ++ [e])).
Definition Date_now : M Z := fun w => (Ok (now w), w).
Definition pass (ms : Z) : M unit :=
  fun w => (Ok tt, mkWorld (cache w) (now w + ms) (trace w)).
(** [await new Promise(resolve => setTimeout(resolve, ms))] *)
Definition sleep (ms : Z) : M unit := exec emit (Sleep ms); pass ms.
(** [console.error(...)] *)
Definition console_error (what : string) : M unit := emit (LogError what).

(** ** TTL cache *)

Definition HOLIDAYS_TTL : Z := 24 * 60 * 60 * 1000.
Definition TIMEZONES_TTL : Z := 60 * 60 * 1000.

Fixpoint join (sep : string) (args : list string) : string :=
  match args with
  | [] => ""
  | [a] => a
  | a :: rest => a +:+ sep +:+ join sep rest
  end.

Definition getCacheKey (prefix : string) (args : list string) : string :=
  prefix +:+ ":" +:+ join ":" args.

Definition getFromCache (key : string) (ttl : Z) : M (option CacheData) :=
  fun w =>
    match cache w !! key with
    | None => (Ok None, w)
    | Some entry =>
        if now w - timestamp entry >? ttl
        then (Ok None, mkWorld (delete key (cache w)) (now w) (trace w))
        else (Ok (Some (data entry)), w)
    end.

Definition setCache (key : string) (d : CacheData) : M unit :=
  fun w => (Ok tt, mkWorld (<[key := mkCacheEntry d (now w)]> (cache w)) (now w) (trace w)).

(** ** Pure helpers of the providers *)

Definition res_bind {A B} (r : Res A) (k : A -> Res B) : Res B :=
  match r with
  | Ok a => k a
  | Throw t => Throw t
  end.

Fixpoint res_map {A B} (f : A -> Res B) (l : list A) : Res (list B) :=
  match l with
  | [] => Ok []
  | x :: rest =>
      res_bind (f x) (fun y =>
      res_bind (res_map f rest) (fun ys => Ok (y :: ys)))
  end.

(** [data.map(f)] on a decoded body: only an array has a callable [map]. *)
Definition js_array_map {B} (f : JsVal -> Res B) (data : JsVal) : Res (list B) :=
  match data with
  | JArr items => res_map f items
  | JUndefined => Throw (Some (TypeError "Cannot read properties of undefined"))
  | JNull => Throw (Some (TypeError "Cannot read properties of null"))
  | _ => Throw (Some (TypeError "data.map is not a function"))
  end.

(** [(h: any) => ({date: h.date, name: h.name, localName: h.localName,
                   countryCode: h.countryCode})] *)
Definition toHoliday (h : JsVal) : Res Holiday :=
  res_bind (getProp h "date") (fun d =>
  res_bind (getProp h "name") (fun n =>
  res_bind (getProp h "localName") (fun l =>
  res_bind (getProp h "countryCode") (fun c =>
  Ok (mkHoliday d n l c))))).

(** [{zone: data.timezone, utc_offset: data.utc_offset,
      dst: data.dst || false}] *)
Definition toZoneStatus (data : JsVal) : Res ZoneStatus :=
  res_bind (getProp data "timezone") (fun z =>
  res_bind (getProp data "utc_offset") (fun o =>
  res_bind (getProp data "dst") (fun d =>
  Ok (mkZoneStatus z o (js_or d (JBool false)))))).

Fixpoint drop_chars (n : nat) (s : string) : string :=
  match n, s with
  | O, _ => s
  | S n', String _ s' => drop_chars n' s'
  | S _, EmptyString => EmptyString
  end.

(** [s.replace(pat, rep)] with a string pattern: the first occurrence only. *)
Fixpoint replace_first (pat rep s : string) : string :=
  if String.prefix pat s
  then rep +:+ drop_chars (String.length pat) s
  else match s with
       | EmptyString => EmptyString
       | String c s' => String c (replace_first pat rep s')
       end.

(** [year.toString()] for an integral year (of magnitude below 1e21, where
    JavaScript still prints every digit). *)
Definition year_toString (year : Z) : string := pretty year.

Definition holidays_url (countryCode : string) (year : Z) : string :=
  "https://date.nager.at/api/v3/PublicHolidays/" +:+ year_toString year
    +:+ "/" +:+ countryCode.

Definition zone_url (zone : string) : string :=
  "http://worldtimeapi.org/api/timezone/" +:+ zone.

(** A call of an [async] function runs synchronously up to its first
    [await]: it has either returned already or is suspended. *)
Inductive Promise (A : Type) : Type :=
| Resolved (a : A)
| Pending (k : M A).
Arguments Resolved {A} a.
Arguments Pending {A} k.

Definition await {A} (p : Promise A) : M A :=
  match p with
  | Resolved a => ret a
  | Pending k => k
  end.

(** [await Promise.all(ps)]: the calls have all run their synchronous
    prefix when the promises exist; their remainders are run to completion
    one after the other in issue order (one schedule of the event loop: the
    remainders share nothing but the cache, where a later write wins), and
    the first rejection, if any, is the result. *)
Fixpoint Promise_all {A} (ps : list (Promise A)) : M (list A) :=
  match ps with
  | [] => ret []
  | p :: rest =>
      fun w =>
        match await p w with
        | (Ok a, w1) =>
            match Promise_all rest w1 with
            | (Ok l, w2) => (Ok (a :: l), w2)
            | (Throw t, w2) => (Throw t, w2)
            end
        | (Throw t, w1) =>
            (Throw t, snd (Promise_all rest w1))
        end
  end.

(** [await Promise.all([pa, pb])] *)
Definition Promise_all2 {A B} (pa : Promise A) (pb : Promise B) : M (A * B) :=
  fun w =>
    match await pa w with
    | (Ok a, w1) =>
        match await pb w1 with
        | (Ok b, w2) => (Ok (a, b), w2)
        | (Throw t, w2) => (Throw t, w2)
        end
    | (Throw t, w1) => (Throw t, snd (await pb w1))
    end.

(** [xs.map(x => call(x))] for an async [call]: the synchronous prefixes,
    left to right. *)
Fixpoint start_all {X A} (call : X -> World -> Promise A * World)
    (xs : list X) (w : World) : list (Promise A) * World :=
  match xs with
  | [] => ([], w)
  | x :: rest =>
      let '(p, w1) := call x w in
      let '(ps, w2) := start_all call rest w1 in
      (p :: ps, w2)
  end.

(** ** JavaScript [Map], in insertion order *)

Section JsMap.
Context {V : Type}.

(** [m.set(k, v)]: a present key keeps its position and takes the new
    value, a new key goes last. *)
Fixpoint Map_set (k : JsVal) (v : V) (m : list (JsVal * V)) : list (JsVal * V) :=
  match m with
  | [] => [(k, v)]
  | (k', v') :: rest =>
      if JsVal_eqb k k' then (k, v) :: rest else (k', v') :: Map_set k v rest
  end.

(** [m.get(k)], [None] for [undefined]. *)
Fixpoint Map_get (k : JsVal) (m : list (JsVal * V)) : option V :=
  match m with
  | [] => None
  | (k', v') :: rest => if JsVal_eqb k k' then Some v' else Map_get k rest
  end.

(** [m.has(k)] *)
Definition Map_has (k : JsVal) (m : list (JsVal * V)) : bool :=
  match Map_get k m with
  | Some _ => true
  | None => false
  end.

(** [new Map(entries)] *)
Definition Map_of (entries : list (JsVal * V)) : list (JsVal * V) :=
  fold_left (fun m e => Map_set (fst e) (snd e) m) entries [].

End JsMap.

(** ** Comparison engine: the synchronous parts of [compareCountries] *)

(** Lines "Calcular feriados en comun": the two date maps and the three
    [forEach]/[push] loops.  [holidaysBMap.get(date)!] is read under
    [holidaysBMap.has(date)], so both are one lookup here. *)
Definition compareHolidays (holidaysA holidaysB : list Holiday) : HolidayReport :=
  let holidaysAMap := Map_of (map (fun h => (date h, h)) holidaysA) in
  let holidaysBMap := Map_of (map (fun h => (date h, h)) holidaysB) in
  let '(common, onlyA) :=
    fold_left
      (fun '(common, onlyA) '(date, holiday) =>
         match Map_get date holidaysBMap with
         | Some holidayB =>
             (common ++ [mkCommon date (name holiday) (name holidayB)], onlyA)
         | None => (common, onlyA ++ [holiday])
         end)
      holidaysAMap ([], []) in
  let onlyB :=
    fold_left
      (fun onlyB '(date, holiday) =>
         if negb (Map_has date holidaysAMap) then onlyB ++ [holiday] else onlyB)
      holidaysBMap [] in
  mkHolidayReport common onlyA onlyB.

(** [statuses.filter((s): s is ZoneStatus => s !== null)] *)
Definition validStatuses (statuses : list (option ZoneStatus)) : list ZoneStatus :=
  omap id statuses.

(** The loop filling [offsetMapA] / [offsetMapB]:
    [zones = map.get(status.utc_offset) || []; zones.push(status.zone);
     map.set(status.utc_offset, zones)]. *)
Definition offsetMap (statuses : list ZoneStatus) : list (JsVal * list JsVal) :=
  fold_left
    (fun m status =>
       let zones := default [] (Map_get (utc_offset status) m) in
       Map_set (utc_offset status) (zones ++ [zone status]) m)
    statuses [].

(** The [forEach] over [offsetMapA.entries()] that fills [overlaps]. *)
Definition offsetOverlaps (offsetMapA offsetMapB : list (JsVal * list JsVal))
    : list OffsetOverlap :=
  fold_left
    (fun overlaps '(offset, zonesA) =>
       match Map_get offset offsetMapB with
       | Some zonesB => overlaps ++ [mkOverlap offset zonesA zonesB]
       | None => overlaps
       end)
    offsetMapA [].

Definition compareTimezones (statusesA statusesB : list (option ZoneStatus))
    : TimezoneReport :=
  let validStatusesA := validStatuses statusesA in
  let validStatusesB := validStatuses statusesB in
  let overlaps := offsetOverlaps (offsetMap validStatusesA) (offsetMap validStatusesB) in
  mkTimezoneReport validStatusesA validStatusesB
    (mkCommonOffsetNow (0 <? length overlaps)%nat overlaps).

(** ** Static country to timezone table *)

Definition COUNTRY_TIMEZONES : list (string * list string) := [
  ("AF", ["Asia/Kabul"]);
  ("AL", ["Europe/Tirane"]);
  ("DE", ["Europe/Berlin"; "Europe/Busingen"]);
  ("AD", ["Europe/Andorra"]);
  ("AO", ["Africa/Luanda"]);
  ("AG", ["America/Antigua"]);
  ("SA", ["Asia/Riyadh"]);
  ("DZ", ["Africa/Algiers"]);
  ("AR", ["America/Argentina/Buenos_Aires"; "America/Argentina/Cordoba"; "America/Argentina/Salta"; "America/Argentina/Jujuy"; "America/Argentina/Tucuman"; "America/Argentina/Catamarca"; "America/Argentina/La_Rioja"; "America/Argentina/San_Juan"; "America/Argentina/Mendoza"; "America/Argentina/San_Luis"; "America/Argentina/Rio_Gallegos"; "America/Argentina/Ushuaia"]);
  ("AM", ["Asia/Yerevan"]);
  ("AU", ["Australia/Sydney"; "Australia/Melbourne"; "Australia/Brisbane"; "Australia/Perth"; "Australia/Adelaide"; "Australia/Hobart"; "Australia/Darwin"; "Australia/Lindeman"; "Australia/Lord_Howe"; "Australia/Eucla"; "Australia/Broken_Hill"]);
  ("AT", ["Europe/Vienna"]);
  ("AZ", ["Asia/Baku"]);
  ("BS", ["America/Nassau"]);
  ("BH", ["Asia/Bahrain"]);
  ("BD", ["Asia/Dhaka"]);
  ("BB", ["America/Barbados"]);
  ("BE", ["Europe/Brussels"]);
  ("BZ", ["America/Belize"]);
  ("BJ", ["Africa/Porto-Novo"]);
  ("BY", ["Europe/Minsk"]);
  ("MM", ["Asia/Yangon"]);
  ("BO", ["America/La_Paz"]);
  ("BA", ["Europe/Sarajevo"]);
  ("BW", ["Africa/Gaborone"]);
  ("BR", ["America/Sao_Paulo"; "America/Manaus"; "America/Fortaleza"; "America/Belem"; "America/Recife"; "America/Araguaina"; "America/Maceio"; "America/Bahia"; "America/Campo_Grande"; "America/Cuiaba"; "America/Santarem"; "America/Porto_Velho"; "America/Boa_Vista"; "America/Rio_Branco"; "America/Noronha"]);
  ("BN", ["Asia/Brunei"]);
  ("BG", ["Europe/Sofia"]);
  ("BF", ["Africa/Ouagadougou"]);
  ("BI", ["Africa/Bujumbura"]);
  ("BT", ["Asia/Thimphu"]);
  ("CV", ["Atlantic/Cape_Verde"]);
  ("KH", ["Asia/Phnom_Penh"]);
  ("CM", ["Africa/Douala"]);
  ("CA", ["America/Toronto"; "America/Vancouver"; "America/Halifax"; "America/Winnipeg"; "America/Edmonton"; "America/St_Johns"; "America/Regina"; "America/Whitehorse"; "America/Yellowknife"; "America/Inuvik"; "America/Dawson_Creek"; "America/Fort_Nelson"; "America/Creston"; "America/Atikokan"; "America/Blanc-Sablon"; "America/Iqaluit"; "America/Rankin_Inlet"; "America/Resolute"; "America/Cambridge_Bay"; "America/Dawson"; "America/Swift_Current"]);
  ("QA", ["Asia/Qatar"]);
  ("TD", ["Africa/Ndjamena"]);
  ("CL", ["America/Santiago"; "Pacific/Easter"]);
  ("CN", ["Asia/Shanghai"; "Asia/Urumqi"]);
  ("CY", ["Asia/Nicosia"; "Asia/Famagusta"]);
  ("CO", ["America/Bogota"]);
  ("KM", ["Indian/Comoro"]);
  ("CG", ["Africa/Brazzaville"]);
  ("KP", ["Asia/Pyongyang"]);
  ("KR", ["Asia/Seoul"]);
  ("CI", ["Africa/Abidjan"]);
  ("CR", ["America/Costa_Rica"]);
  ("HR", ["Europe/Zagreb"]);
  ("CU", ["America/Havana"]);
  ("DK", ["Europe/Copenhagen"]);
  ("DM", ["America/Dominica"]);
  ("EC", ["America/Guayaquil"; "Pacific/Galapagos"]);
  ("EG", ["Africa/Cairo"]);
  ("SV", ["America/El_Salvador"]);
  ("AE", ["Asia/Dubai"]);
  ("ER", ["Africa/Asmara"]);
  ("SK", ["Europe/Bratislava"]);
  ("SI", ["Europe/Ljubljana"]);
  ("ES", ["Europe/Madrid"; "Africa/Ceuta"; "Atlantic/Canary"]);
  ("US", ["America/New_York"; "America/Detroit"; "America/Kentucky/Louisville"; "America/Kentucky/Monticello"; "America/Indiana/Indianapolis"; "America/Indiana/Vincennes"; "America/Indiana/Winamac"; "America/Indiana/Marengo"; "America/Indiana/Petersburg"; "America/Indiana/Vevay"; "America/Chicago"; "America/Indiana/Tell_City"; "America/Indiana/Knox"; "America/Menominee"; "America/North_Dakota/Center"; "America/North_Dakota/New_Salem"; "America/North_Dakota/Beulah"; "America/Denver"; "America/Boise"; "America/Phoenix"; "America/Los_Angeles"; "America/Anchorage"; "America/Juneau"; "America/Sitka"; "America/Metlakatla"; "America/Yakutat"; "America/Nome"; "America/Adak"; "Pacific/Honolulu"]);
  ("EE", ["Europe/Tallinn"]);
  ("SZ", ["Africa/Mbabane"]);
  ("ET", ["Africa/Addis_Ababa"]);
  ("PH", ["Asia/Manila"]);
  ("FI", ["Europe/Helsinki"]);
  ("FJ", ["Pacific/Fiji"]);
  ("FR", ["Europe/Paris"]);
  ("GA", ["Africa/Libreville"]);
  ("GM", ["Africa/Banjul"]);
  ("GE", ["Asia/Tbilisi"]);
  ("GH", ["Africa/Accra"]);
  ("GD", ["America/Grenada"]);
  ("GR", ["Europe/Athens"]);
  ("GT", ["America/Guatemala"]);
  ("GN", ["Africa/Conakry"]);
  ("GW", ["Africa/Bissau"]);
  ("GQ", ["Africa/Malabo"]);
  ("GY", ["America/Guyana"]);
  ("HT", ["America/Port-au-Prince"]);
  ("HN", ["America/Tegucigalpa"]);
  ("HU", ["Europe/Budapest"]);
  ("IN", ["Asia/Kolkata"]);
  ("ID", ["Asia/Jakarta"; "Asia/Pontianak"; "Asia/Makassar"; "Asia/Jayapura"]);
  ("IQ", ["Asia/Baghdad"]);
  ("IR", ["Asia/Tehran"]);
  ("IE", ["Europe/Dublin"]);
  ("IS", ["Atlantic/Reykjavik"]);
  ("MH", ["Pacific/Majuro"; "Pacific/Kwajalein"]);
  ("SB", ["Pacific/Guadalcanal"]);
  ("IL", ["Asia/Jerusalem"]);
  ("IT", ["Europe/Rome"]);
  ("JM", ["America/Jamaica"]);
  ("JP", ["Asia/Tokyo"]);
  ("JO", ["Asia/Amman"]);
  ("KZ", ["Asia/Almaty"; "Asia/Qyzylorda"; "Asia/Qostanay"; "Asia/Aqtobe"; "Asia/Aqtau"; "Asia/Atyrau"; "Asia/Oral"]);
  ("KE", ["Africa/Nairobi"]);
  ("KG", ["Asia/Bishkek"]);
  ("KI", ["Pacific/Tarawa"; "Pacific/Enderbury"; "Pacific/Kiritimati"]);
  ("KW", ["Asia/Kuwait"]);
  ("LA", ["Asia/Vientiane"]);
  ("LS", ["Africa/Maseru"]);
  ("LV", ["Europe/Riga"]);
  ("LB", ["Asia/Beirut"]);
  ("LR", ["Africa/Monrovia"]);
  ("LY", ["Africa/Tripoli"]);
  ("LI", ["Europe/Vaduz"]);
  ("LT", ["Europe/Vilnius"]);
  ("LU", ["Europe/Luxembourg"]);
  ("MK", ["Europe/Skopje"]);
  ("MG", ["Indian/Antananarivo"]);
  ("MY", ["Asia/Kuala_Lumpur"; "Asia/Kuching"]);
  ("MW", ["Africa/Blantyre"]);
  ("MV", ["Indian/Maldives"]);
  ("ML", ["Africa/Bamako"]);
  ("MT", ["Europe/Malta"]);
  ("MA", ["Africa/Casablanca"]);
  ("MU", ["Indian/Mauritius"]);
  ("MR", ["Africa/Nouakchott"]);
  ("MX", ["America/Mexico_City"; "America/Cancun"; "America/Merida"; "America/Monterrey"; "America/Matamoros"; "America/Mazatlan"; "America/Chihuahua"; "America/Ojinaga"; "America/Hermosillo"; "America/Tijuana"; "America/Bahia_Banderas"]);
  ("FM", ["Pacific/Chuuk"; "Pacific/Pohnpei"; "Pacific/Kosrae"]);
  ("MD", ["Europe/Chisinau"]);
  ("MC", ["Europe/Monaco"]);
  ("MN", ["Asia/Ulaanbaatar"; "Asia/Hovd"; "Asia/Choibalsan"]);
  ("ME", ["Europe/Podgorica"]);
  ("MZ", ["Africa/Maputo"]);
  ("NA", ["Africa/Windhoek"]);
  ("NR", ["Pacific/Nauru"]);
  ("NP", ["Asia/Kathmandu"]);
  ("NI", ["America/Managua"]);
  ("NE", ["Africa/Niamey"]);
  ("NG", ["Africa/Lagos"]);
  ("NO", ["Europe/Oslo"]);
  ("NZ", ["Pacific/Auckland"; "Pacific/Chatham"]);
  ("OM", ["Asia/Muscat"]);
  ("NL", ["Europe/Amsterdam"]);
  ("PK", ["Asia/Karachi"]);
  ("PW", ["Pacific/Palau"]);
  ("PA", ["America/Panama"]);
  ("PG", ["Pacific/Port_Moresby"; "Pacific/Bougainville"]);
  ("PY", ["America/Asuncion"]);
  ("PE", ["America/Lima"]);
  ("PL", ["Europe/Warsaw"]);
  ("PT", ["Europe/Lisbon"; "Atlantic/Madeira"; "Atlantic/Azores"]);
  ("GB", ["Europe/London"]);
  ("CF", ["Africa/Bangui"]);
  ("CZ", ["Europe/Prague"]);
  ("CD", ["Africa/Kinshasa"; "Africa/Lubumbashi"]);
  ("DO", ["America/Santo_Domingo"]);
  ("RW", ["Africa/Kigali"]);
  ("RO", ["Europe/Bucharest"]);
  ("RU", ["Europe/Moscow"; "Europe/Kaliningrad"; "Europe/Simferopol"; "Europe/Volgograd"; "Europe/Kirov"; "Europe/Astrakhan"; "Europe/Samara"; "Europe/Ulyanovsk"; "Asia/Yekaterinburg"; "Asia/Omsk"; "Asia/Novosibirsk"; "Asia/Barnaul"; "Asia/Tomsk"; "Asia/Novokuznetsk"; "Asia/Krasnoyarsk"; "Asia/Irkutsk"; "Asia/Chita"; "Asia/Yakutsk"; "Asia/Khandyga"; "Asia/Vladivostok"; "Asia/Ust-Nera"; "Asia/Magadan"; "Asia/Sakhalin"; "Asia/Srednekolymsk"; "Asia/Kamchatka"; "Asia/Anadyr"]);
  ("WS", ["Pacific/Apia"]);
  ("KN", ["America/St_Kitts"]);
  ("SM", ["Europe/San_Marino"]);
  ("VC", ["America/St_Vincent"]);
  ("LC", ["America/St_Lucia"]);
  ("ST", ["Africa/Sao_Tome"]);
  ("SN", ["Africa/Dakar"]);
  ("RS", ["Europe/Belgrade"]);
  ("SC", ["Indian/Mahe"]);
  ("SL", ["Africa/Freetown"]);
  ("SG", ["Asia/Singapore"]);
  ("SY", ["Asia/Damascus"]);
  ("SO", ["Africa/Mogadishu"]);
  ("LK", ["Asia/Colombo"]);
  ("ZA", ["Africa/Johannesburg"]);
  ("SD", ["Africa/Khartoum"]);
  ("SS", ["Africa/Juba"]);
  ("SE", ["Europe/Stockholm"]);
  ("CH", ["Europe/Zurich"]);
  ("SR", ["America/Paramaribo"]);
  ("TH", ["Asia/Bangkok"]);
  ("TZ", ["Africa/Dar_es_Salaam"]);
  ("TJ", ["Asia/Dushanbe"]);
  ("TL", ["Asia/Dili"]);
  ("TG", ["Africa/Lome"]);
  ("TO", ["Pacific/Tongatapu"]);
  ("TT", ["America/Port_of_Spain"]);
  ("TN", ["Africa/Tunis"]);
  ("TM", ["Asia/Ashgabat"]);
  ("TR", ["Europe/Istanbul"]);
  ("TV", ["Pacific/Funafuti"]);
  ("UA", ["Europe/Kiev"; "Europe/Uzhgorod"; "Europe/Zaporozhye"]);
  ("UG", ["Africa/Kampala"]);
  ("UY", ["America/Montevideo"]);
  ("UZ", ["Asia/Samarkand"; "Asia/Tashkent"]);
  ("VU", ["Pacific/Efate"]);
  ("VA", ["Europe/Vatican"]);
  ("VE", ["America/Caracas"]);
  ("VN", ["Asia/Ho_Chi_Minh"]);
  ("YE", ["Asia/Aden"]);
  ("DJ", ["Africa/Djibouti"]);
  ("ZM", ["Africa/Lusaka"]);
  ("ZW", ["Africa/Harare"])
].

(** The string-keyed members every object literal inherits from
    [Object.prototype]; each is a function or an object, hence truthy. *)
Definition Object_prototype_members : list string :=
  ["constructor"; "__defineGetter__"; "__defineSetter__"; "hasOwnProperty";
   "__lookupGetter__"; "__lookupSetter__"; "isPrototypeOf";
   "propertyIsEnumerable"; "toString"; "valueOf"; "__proto__";
   "toLocaleString"].

Fixpoint own_property {V} (k : string) (table : list (string * V)) : option V :=
  match table with
  | [] => None
  | (k', v) :: rest => if String.eqb k k' then Some v else own_property k rest
  end.

(** What [getTimezones] returns at run time: declared [string[]], it is the
    value of the property read [COUNTRY_TIMEZONES[countryCode]] when that
    is truthy. *)
Inductive TimezonesValue : Type :=
| ZoneList (zones : list string)
| PrototypeMember (member : string).

(** [COUNTRY_TIMEZONES[countryCode] || []]: an own property of the table, or
    else a member inherited from [Object.prototype], or else [undefined],
    replaced by the empty array. *)
Definition getTimezones (countryCode : string) : TimezonesValue :=
  match own_property countryCode COUNTRY_TIMEZONES with
  | Some zones => ZoneList zones
  | None =>
      if existsb (String.eqb countryCode) Object_prototype_members
      then PrototypeMember countryCode
      else ZoneList []
  end.

(** The receiver of [zones.map(...)]: only an array has a callable [map]. *)
Definition zones_array (zones : TimezonesValue) : Res (list string) :=
  match zones with
  | ZoneList l => Ok l
  | PrototypeMember _ => Throw (Some (TypeError "zones.map is not a function"))
  end.

(** ** Resilient fetcher *)

Definition is_fetch_of (url : string) (e : Event) : bool :=
  match e with
  | Fetch u => String.eqb u url
  | _ => false
  end.

(** Number of requests already sent to [url]. *)
Definition requests_to (url : string) (tr : list Event) : nat :=
  length (List.filter (is_fetch_of url) tr).

Section Helpers.

(** The network: the answer to the [n]-th request (counting from 0) sent
    to a URL. *)
Variable net : string -> nat -> Exchange.

(** The runtime's timezone database:
    [new Intl.DateTimeFormat("en-US", {timeZone, timeZoneName: "longOffset"})
       .formatToParts(now)],
    which throws a [RangeError] on a zone it does not know. *)
Variable Intl_formatToParts : string -> Z -> Res (list Part).

(** [await fetch(url)] *)
Definition fetch (url : string) : M (Z * string * Body) :=
  fun w =>
    let x := net url (requests_to url (trace w)) in
    let w' := mkWorld (cache w) (now w + elapsed x) (trace w ++ [Fetch url]) in
    match reply x with
    | Unreachable reason => (Throw (Some (NetworkError reason)), w')
    | Response status statusText body => (Ok (status, statusText, body), w')
    end.

(** [await response.json()] *)
Definition response_json (body : Body) : M JsVal :=
  match body with
  | Malformed reason => throw (Some (BodyError reason))
  | Json v => ret v
  end.

(** The body of the [try] block of [fetchWithRetry]. *)
Definition attempt (url : string) : M JsVal :=
  do response <- fetch url;
  let '(status, statusText, body) := response in
  if negb (response_ok status)
  then throw (Some (HttpError status statusText))
  else response_json body.

(** [for (let i = 0; i <= maxRetries; i++) { try ... catch ... }]
    followed by [throw lastError].  [remaining] counts the iterations left,
    [maxRetries + 1 - i]. *)
Fixpoint fetchWithRetry_loop (url : string) (maxRetries remaining i : nat)
    (lastError : Thrown) : M JsVal :=
  match remaining with
  | O => throw lastError
  | S remaining' =>
      try_catch (attempt url)
        (fun error =>
           exec (if (i <? maxRetries)%nat
                 then sleep (1000 * (Z.of_nat i + 1))
                 else ret tt);
           fetchWithRetry_loop url maxRetries remaining' (S i) error)
  end.

Definition fetchWithRetry (url : string) (maxRetries : nat) : M JsVal :=
  fetchWithRetry_loop url maxRetries (S maxRetries) 0%nat None.

(** The default [maxRetries = 2], which every caller uses. *)
Definition default_maxRetries : nat := 2.

(** ** Holiday provider *)

(** [getHolidays] after a cache miss: the [try]/[catch] around the fetch. *)
Definition getHolidays_fetch (cacheKey countryCode : string) (year : Z)
    : M (list Holiday) :=
  try_catch
    (do data <- fetchWithRetry (holidays_url countryCode year) default_maxRetries;
     do holidays <- lift (js_array_map toHoliday data);
     exec setCache cacheKey (CachedHolidays holidays);
     ret holidays)
    (fun error =>
       exec console_error ("Error fetching holidays for " +:+ countryCode +:+ ":");
       ret []).

(** The call [getHolidays(countryCode, year)] up to its first [await]: the
    cache lookup.  A cached array is truthy even when empty.  The cache
    holds holiday lists under the keys of the [holidays] namespace, so the
    cast [getFromCache<Holiday[]>] meets no other value there; the model
    reads one as a miss. *)
Definition getHolidays_call (countryCode : string) (year : Z)
    : World -> Promise (list Holiday) * World :=
  fun w =>
    let cacheKey := getCacheKey "holidays" [countryCode; year_toString year] in
    match getFromCache cacheKey HOLIDAYS_TTL w with
    | (Ok (Some (CachedHolidays cached)), w1) => (Resolved cached, w1)
    | (_, w1) => (Pending (getHolidays_fetch cacheKey countryCode year), w1)
    end.

(** [await getHolidays(countryCode, year)] *)
Definition getHolidays (countryCode : string) (year : Z) : M (list Holiday) :=
  fun w => let '(p, w1) := getHolidays_call countryCode year w in await p w1.

(** ** Timezone status provider *)

(** The local fallback of [getZoneStatus]: the inner [try]/[catch] and the
    final [return null]. *)
Definition getZoneStatus_local (cacheKey zone : string) : M (option ZoneStatus) :=
  try_catch
    (do now <- Date_now;
     do parts <- lift (Intl_formatToParts zone now);
     match List.find (fun p => String.eqb (part_type p) "timeZoneName") parts with
     | Some offsetPart =>
         let offset := replace_first "GMT" "" (part_value offsetPart) in
         let zoneStatus := mkZoneStatus (JStr zone) (JStr offset) (JBool false) in
         exec setCache cacheKey (CachedZone zoneStatus);
         ret (Some zoneStatus)
     | None => ret None
     end)
    (fun fallbackError =>
       exec console_error ("Error getting zone status for " +:+ zone +:+ ":");
       ret None).

(** [getZoneStatus] after a cache miss. *)
Definition getZoneStatus_fetch (cacheKey zone : string) : M (option ZoneStatus) :=
  try_catch
    (do data <- fetchWithRetry (zone_url zone) default_maxRetries;
     do zoneStatus <- lift (toZoneStatus data);
     exec setCache cacheKey (CachedZone zoneStatus);
     ret (Some zoneStatus))
    (fun error => getZoneStatus_local cacheKey zone).

(** The call [getZoneStatus(zone)] up to its first [await]. *)
Definition getZoneStatus_call (zone : string)
    : World -> Promise (option ZoneStatus) * World :=
  fun w =>
    let cacheKey := getCacheKey "zone" [zone] in
    match getFromCache cacheKey TIMEZONES_TTL w with
    | (Ok (Some (CachedZone cached)), w1) => (Resolved (Some cached), w1)
    | (_, w1) => (Pending (getZoneStatus_fetch cacheKey zone), w1)
    end.

(** [await getZoneStatus(zone)] *)
Definition getZoneStatus (zone : string) : M (option ZoneStatus) :=
  fun w => let '(p, w1) := getZoneStatus_call zone w in await p w1.

(** ** [compareCountries] *)

(** Both [getHolidays] calls, and then all [getZoneStatus] calls of both
    countries, are started before any of them is awaited.  If [zonesB.map]
    throws, the calls started for country A stay pending: the world
    returned is the one at the rejection. *)

Definition compareCountries (countryA countryB : string) (year : Z)
    : M ComparisonResult :=
  fun w =>
    let '(pA, w1) := getHolidays_call countryA year w in
    let '(pB, w2) := getHolidays_call countryB year w1 in
    (do '(holidaysA, holidaysB) <- Promise_all2 pA pB;
     let holidays := compareHolidays holidaysA holidaysB in
     do zonesA <- lift (zones_array (getTimezones countryA));
     fun w3 =>
       let '(psA, w4) := start_all getZoneStatus_call zonesA w3 in
       (do zonesB <- lift (zones_array (getTimezones countryB));
        fun w5 =>
          let '(psB, w6) := start_all getZoneStatus_call zonesB w5 in
          (do '(statusesA, statusesB) <-
             Promise_all2 (Pending (Promise_all psA)) (Pending (Promise_all psB));
           ret (mkComparisonResult
                  (mkInputs countryA countryB year)
                  holidays
                  (compareTimezones statusesA statusesB))) w6) w4) w2.

End Helpers.

(** * Vocabulary of the statements *)

(** The keys of a [Map], in iteration order. *)
Definition keys {V} (m : list (JsVal * V)) : list JsVal := map fst m.

(** [new Map(entries)], started from any map. *)
Definition Map_fill {V} (entries m : list (JsVal * V)) : list (JsVal * V) :=
  fold_left (fun m e => Map_set (fst e) (snd e) m) entries m.

(** [holidaysAMap] / [holidaysBMap] *)
Definition holidayMap (hs : list Holiday) : list (JsVal * Holiday) :=
  Map_of (map (fun h => (date h, h)) hs).

(** The dates of the three lists of a report, as filters of the keys of the
    two date maps. *)
Record partition_facts (holidaysA holidaysB : list Holiday) (r : HolidayReport) : Prop := {
  pf_common : map common_date (common r)
              = List.filter (fun d => Map_has d (holidayMap holidaysB))
                  (keys (holidayMap holidaysA));
  pf_onlyA : map date (onlyA r)
             = List.filter (fun d => negb (Map_has d (holidayMap holidaysB)))
                 (keys (holidayMap holidaysA));
  pf_onlyB : map date (onlyB r)
             = List.filter (fun d => negb (Map_has d (holidayMap holidaysA)))
                 (keys (holidayMap holidaysB));
}.

(** The zones of the statuses whose offset is [o], in order. *)
Definition zones_at (o : JsVal) (statuses : list ZoneStatus) : list JsVal :=
  map zone (List.filter (fun s => JsVal_eqb (utc_offset s) o) statuses).

(** The grouping loop, started from any map. *)
Definition offsetMap_from (statuses : list ZoneStatus) (m : list (JsVal * list JsVal))
    : list (JsVal * list JsVal) :=
  fold_left
    (fun m status =>
       let zones := default [] (Map_get (utc_offset status) m) in
       Map_set (utc_offset status) (zones ++ [zone status]) m)
    statuses m.

(** An attempt on this exchange fails with this error: the transport
    fails, or the status is not ok, or the body does not decode. *)
Inductive fails : Exchange -> Error -> Prop :=
| fails_transport el reason :
    fails (mkExchange el (Unreachable reason)) (NetworkError reason)
| fails_status el status statusText body :
    response_ok status = false ->
    fails (mkExchange el (Response status statusText body)) (HttpError status statusText)
| fails_body el status statusText reason :
    response_ok status = true ->
    fails (mkExchange el (Response status statusText (Malformed reason))) (BodyError reason).

(** An attempt on this exchange succeeds with this decoded body. *)
Inductive succeeds : Exchange -> JsVal -> Prop :=
| succeeds_json el status statusText v :
    response_ok status = true ->
    succeeds (mkExchange el (Response status statusText (Json v))) v.

(** The world [dt] milliseconds and the events [evs] later, the cache
    untouched. *)
Definition after (w : World) (dt : Z) (evs : list Event) : World :=
  mkWorld (cache w) (now w + dt) (trace w ++ evs).

(** The world once [key] has been dropped from the cache. *)
Definition evicted (key : string) (w : World) : World :=
  mkWorld (delete key (cache w)) (now w) (trace w).

(** The number of [Fetch] events of a trace. *)
Definition fetches (tr : list Event) : nat :=
  length (List.filter (fun e => match e with Fetch _ => true | _ => false end) tr).

Definition holidays_key (countryCode : string) (year : Z) : string :=
  getCacheKey "holidays" [countryCode; year_toString year].

Definition zone_key (zone : string) : string := getCacheKey "zone" [zone].

(** [parts.find(p => p.type === "timeZoneName")] *)
Definition timeZoneName_part (parts : list Part) : option Part :=
  List.find (fun p => String.eqb (part_type p) "timeZoneName") parts.

(** A promise that cannot reject. *)
Definition safe {A} (p : Promise A) : Prop :=
  forall w, exists a, fst (await p w) = Ok a.

(** The first statement of [compareCountries]:
    [await Promise.all([getHolidays(countryA, year), getHolidays(countryB, year)])],
    the two lists the calls of this run resolve to, that of [countryA]
    first. *)
Definition awaitHolidays (net : string -> nat -> Exchange)
    (countryA countryB : string) (year : Z) : M (list Holiday * list Holiday) :=
  fun w =>
    let '(pA, w1) := getHolidays_call net countryA year w in
    let '(pB, w2) := getHolidays_call net countryB year w1 in
    Promise_all2 pA pB w2.

(** The statements "Obtener zonas horarias" and "Obtener estados de zonas"
    of [compareCountries]: the two zone lists, one [getZoneStatus] call per
    zone, and the statuses these calls of the run resolve to, one per zone
    in the order of the zones, [null] as [None]. *)
Definition awaitStatuses (net : string -> nat -> Exchange)
    (Intl_formatToParts : string -> Z -> Res (list Part))
    (countryA countryB : string)
    : M (list (option ZoneStatus) * list (option ZoneStatus)) :=
  do zonesA <- lift (zones_array (getTimezones countryA));
  fun w3 =>
    let '(psA, w4) :=
      start_all (getZoneStatus_call net Intl_formatToParts) zonesA w3 in
    (do zonesB <- lift (zones_array (getTimezones countryB));
     fun w5 =>
       let '(psB, w6) :=
         start_all (getZoneStatus_call net Intl_formatToParts) zonesB w5 in
       Promise_all2 (Pending (Promise_all psA)) (Pending (Promise_all psB)) w6) w4.

(** Each kind of cached value lives under the keys of its own namespace. *)
Definition cache_well_typed (c : gmap string CacheEntry) : Prop :=
  forall key entry, c !! key = Some entry ->
    match data entry with
    | CachedHolidays _ => String.prefix "holidays:" key = true
    | CachedZone _ => String.prefix "zone:" key = true
    end.

(** ** The format of a UTC offset: sign, two digits, colon, two digits *)

Definition is_digit (c : ascii) : bool :=
  (48 <=? nat_of_ascii c)%nat && (nat_of_ascii c <=? 57)%nat.

Definition is_sign (c : ascii) : bool :=
  Ascii.eqb c "+"%char || Ascii.eqb c "-"%char.

Definition offset_string (s : string) : bool :=
  match s with
  | String sg (String h1 (String h2 (String colon (String m1 (String m2 EmptyString))))) =>
      is_sign sg && is_digit h1 && is_digit h2 && Ascii.eqb colon ":"%char
      && is_digit m1 && is_digit m2
  | _ => false
  end.

Definition offset_format (v : JsVal) : bool :=
  match v with
  | JStr s => offset_string s
  | _ => false
  end.

(** ** Sample environments *)

Definition sample_record (d localName name cc : string) : JsVal :=
  JObj [("date", JStr d); ("localName", JStr localName); ("name", JStr name);
        ("countryCode", JStr cc)].

Definition sample_payload_CO : JsVal :=
  JArr [sample_record "2025-01-01" "Ano Nuevo" "New Year's Day" "CO";
        sample_record "2025-07-20" "Dia de la Independencia" "Independence Day" "CO"].

Definition sample_payload_PE : JsVal :=
  JArr [sample_record "2025-01-01" "Ano Nuevo" "New Year's Day" "PE";
        sample_record "2025-07-28" "Fiestas Patrias" "Independence Day" "PE"].

Definition sample_zone (z o : string) : JsVal :=
  JObj [("timezone", JStr z); ("utc_offset", JStr o); ("dst", JBool false)].

Definition ok_json (v : JsVal) : Exchange := mkExchange 40 (Response 200 "OK" (Json v)).

Definition unavailable : Exchange :=
  mkExchange 40 (Response 503 "Service Unavailable" (Malformed "Unexpected token")).

(** Both services up. *)
Definition net_sample (url : string) (n : nat) : Exchange :=
  if String.eqb url (holidays_url "CO" 2025) then ok_json sample_payload_CO
  else if String.eqb url (holidays_url "PE" 2025) then ok_json sample_payload_PE
  else if String.eqb url (zone_url "America/Bogota")
       then ok_json (sample_zone "America/Bogota" "-05:00")
  else if String.eqb url (zone_url "America/Lima")
       then ok_json (sample_zone "America/Lima" "-05:00")
  else mkExchange 40 (Response 404 "Not Found" (Json JNull)).

(** HTTP 503 on the first two requests to a URL, then as [net_sample]. *)
Definition net_flaky (url : string) (n : nat) : Exchange :=
  if (n <? 2)%nat then unavailable else net_sample url n.

(** No network at all. *)
Definition net_down (url : string) (n : nat) : Exchange :=
  mkExchange 30 (Unreachable "fetch failed").

(** The primary holiday source is out of service; every other host answers. *)
Definition net_primary_down (url : string) (n : nat) : Exchange :=
  if String.prefix "https://date.nager.at/" url then unavailable
  else ok_json sample_payload_CO.

Definition sample_parts (name : string) : list Part :=
  [mkPart "month" "11"; mkPart "literal" "/"; mkPart "day" "2"; mkPart "literal" "/";
   mkPart "year" "2026"; mkPart "literal" ", "; mkPart "timeZoneName" name].

(** A runtime that knows four zones; a zone at offset zero is named plain
    [GMT] in the [longOffset] style. *)
Definition Intl_sample (zone : string) (t : Z) : Res (list Part) :=
  if String.eqb zone "Africa/Abidjan" then Ok (sample_parts "GMT")
  else if String.eqb zone "America/Bogota" then Ok (sample_parts "GMT-05:00")
  else if String.eqb zone "America/Lima" then Ok (sample_parts "GMT-05:00")
  else if String.eqb zone "America/Denver" then Ok (sample_parts "GMT-07:00")
  else Throw (Some (RangeError "Invalid time zone specified")).

Definition world0 : World := mkWorld ∅ 1762070400000 [].

Definition sample_holidays_CO : list Holiday :=
  [mkHoliday (JStr "2025-01-01") (JStr "New Year's Day") (JStr "Ano Nuevo") (JStr "CO");
   mkHoliday (JStr "2025-07-20") (JStr "Independence Day")
     (JStr "Dia de la Independencia") (JStr "CO")].


(** * The router, the client page and further vocabulary *)

(** ** The comparison engine *)

(** The last holiday of a list that falls on date [d]. *)
Definition last_with_date (d : JsVal) (hs : list Holiday) : option Holiday :=
  last (List.filter (fun h => JsVal_eqb (date h) d) hs).

(** An entry of [common] with the two sides exchanged. *)
Definition swap_common (c : CommonHoliday) : CommonHoliday :=
  mkCommon (common_date c) (nameB c) (nameA c).

(** An entry of [overlaps] with the two sides exchanged. *)
Definition swap_overlap (e : OffsetOverlap) : OffsetOverlap :=
  mkOverlap (offset e) (zonesB e) (zonesA e).

(** ** The resilient fetcher *)

(** The events of [k] failed attempts followed by their waits, the first of
    them being attempt number [i]. *)
Fixpoint retries (url : string) (i k : nat) : list Event :=
  match k with
  | O => []
  | S k' => Fetch url :: Sleep (1000 * (Z.of_nat i + 1)) :: retries url (S i) k'
  end.

(** The time [k] consecutive requests take, from the [n]-th on. *)
Fixpoint elapsed_sum (net : string -> nat -> Exchange) (url : string) (n k : nat) : Z :=
  match k with
  | O => 0
  | S k' => elapsed (net url n) + elapsed_sum net url (S n) k'
  end.

(** The waits after attempts [i], ..., [i + k - 1]. *)
Fixpoint backoff_sum (i k : nat) : Z :=
  match k with
  | O => 0
  | S k' => 1000 * (Z.of_nat i + 1) + backoff_sum (S i) k'
  end.

(** An event [fetchWithRetry(url)] may cause. *)
Definition fetcher_event (url : string) (e : Event) : Prop :=
  e = Fetch url \/ exists ms, e = Sleep ms.

(** ** The payloads of the providers *)

(** The value of [h.k] for an [h] that is neither [null] nor [undefined]. *)
Definition property (h : JsVal) (k : string) : JsVal :=
  match h with
  | JObj props => lookup_prop k props
  | _ => JUndefined
  end.

(** [null] or [undefined]: the values a property read throws on. *)
Definition nullish (h : JsVal) : bool :=
  match h with
  | JNull | JUndefined => true
  | _ => false
  end.

(** The record [getHolidays] makes of one element of the payload. *)
Definition normalised (h : JsVal) : Holiday :=
  mkHoliday (property h "date") (property h "name") (property h "localName")
    (property h "countryCode").

(** The status [getZoneStatus] makes of a live body. *)
Definition live_status (body : JsVal) : ZoneStatus :=
  mkZoneStatus (property body "timezone") (property body "utc_offset")
    (if truthy (property body "dst") then property body "dst" else JBool false).

(** No status is cached under [key]. *)
Definition no_status_cached (key : string) (c : gmap string CacheEntry) : Prop :=
  forall entry, c !! key = Some entry -> exists hs, data entry = CachedHolidays hs.

(** ** Cache keys *)

(** The string contains a colon. *)
Fixpoint has_colon (s : string) : bool :=
  match s with
  | EmptyString => false
  | String c s' => Ascii.eqb c ":"%char || has_colon s'
  end.

(** ** The router ([countryRouter]) *)

(** [z.string()], then [.length(2)]: a string of two characters. *)
Definition z_string (v : JsVal) : option string :=
  match v with
  | JStr s => Some s
  | _ => None
  end.

Definition z_string_length_2 (v : JsVal) : option string :=
  match z_string v with
  | Some s => if (String.length s =? 2)%nat then Some s else None
  | None => None
  end.

(** [z.number().int().min(2000).max(2100)] *)
Definition z_year (v : JsVal) : option Z :=
  match v with
  | JNum n => if (2000 <=? n) && (n <=? 2100) then Some n else None
  | _ => None
  end.

(** The shape [z.object({...})] reads: the property of an object, nothing
    of any other value. *)
Definition z_field (input : JsVal) (k : string) : option JsVal :=
  match input with
  | JObj props => Some (lookup_prop k props)
  | _ => None
  end.

(** What a procedure answers: the input does not parse, or the resolver
    ran. *)
Inductive Answer (A : Type) : Type :=
| BadRequest
| Served (r : Res A).
Arguments BadRequest {A}.
Arguments Served {A} r.

(** Modelled from the spec: [publicProcedure] of [./_core/trpc], which is
    not among the sources; it is taken as the plain tRPC procedure:
    [.input(schema).query(resolver)] parses the input with the schema and
    runs the resolver on the parsed value only when it parses. *)
Definition procedure {I A} (schema : JsVal -> option I) (resolver : I -> M A)
    (input : JsVal) : World -> Answer A * World :=
  fun w =>
    match schema input with
    | None => (BadRequest, w)
    | Some i => let '(r, w') := resolver i w in (Served r, w')
    end.

Definition holidays_input (input : JsVal) : option (string * Z) :=
  match z_field input "country", z_field input "year" with
  | Some c, Some y =>
      match z_string_length_2 c, z_year y with
      | Some country, Some year => Some (country, year)
      | _, _ => None
      end
  | _, _ => None
  end.

Definition timezones_input (input : JsVal) : option string :=
  match z_field input "country" with
  | Some c => z_string_length_2 c
  | None => None
  end.

Definition zone_status_input (input : JsVal) : option string :=
  match z_field input "zone" with
  | Some z => z_string z
  | None => None
  end.

Definition compare_input (input : JsVal) : option (string * string * Z) :=
  match z_field input "countryA", z_field input "countryB", z_field input "year" with
  | Some a, Some b, Some y =>
      match z_string_length_2 a, z_string_length_2 b, z_year y with
      | Some countryA, Some countryB, Some year => Some (countryA, countryB, year)
      | _, _, _ => None
      end
  | _, _, _ => None
  end.

Section Router.
Variable net : string -> nat -> Exchange.
Variable Intl_formatToParts : string -> Z -> Res (list Part).

(** [countryRouter.getHolidays] *)
Definition route_getHolidays : JsVal -> World -> Answer (list Holiday) * World :=
  procedure holidays_input
    (fun '(country, year) => getHolidays net country year).

(** [countryRouter.getTimezones] *)
Definition route_getTimezones : JsVal -> World -> Answer TimezonesValue * World :=
  procedure timezones_input (fun country => ret (getTimezones country)).

(** [countryRouter.getZoneStatus] *)
Definition route_getZoneStatus : JsVal -> World -> Answer (option ZoneStatus) * World :=
  procedure zone_status_input (fun zone => getZoneStatus net Intl_formatToParts zone).

(** [countryRouter.compare] *)
Definition route_compare : JsVal -> World -> Answer ComparisonResult * World :=
  procedure compare_input
    (fun '(countryA, countryB, year) =>
       compareCountries net Intl_formatToParts countryA countryB year).

End Router.

(** An answer that is not an internal error, the world being untouched when
    the input was refused. *)
Definition sound_answer {A} (w : World) (a : Answer A * World) : Prop :=
  match a with
  | (BadRequest, w') => w' = w
  | (Served (Ok _), _) => True
  | (Served (Throw _), _) => False
  end.

(** ** Results and traces of [compareCountries] *)

(** The result with nothing in it. *)
Definition empty_result (countryA countryB : string) (year : Z) : ComparisonResult :=
  mkComparisonResult (mkInputs countryA countryB year)
    (mkHolidayReport [] [] [])
    (mkTimezoneReport [] [] (mkCommonOffsetNow false [])).

(** The trace of [w'] continues the trace of [w]. *)
Definition extends (w w' : World) : Prop := exists evs, trace w' = trace w ++ evs.

(** Awaiting [p] only appends to the trace. *)
Definition appends {A} (p : Promise A) : Prop :=
  forall w, extends w (snd (await p w)).

(** ** The calendars of the client page ([Home.tsx]) *)

(** The three classes of a day cell: [bg-green-500], [bg-blue-400] and
    [bg-gray-100]. *)
Inductive CellClass : Type := Green | Blue | Gray.

(** [new Set(xs).has(x)] *)
Definition Set_has (x : JsVal) (xs : list JsVal) : bool := existsb (JsVal_eqb x) xs.

(** The class of the cell of [dateStr] in [renderCalendar(holidays, title)];
    [holidayDates] is [holidays.map(h => h.date)], and [result] is the state
    of the page. *)
Definition cellClass (result : option ComparisonResult) (holidayDates : list JsVal)
    (dateStr : string) : CellClass :=
  let commonDates :=
    match result with
    | Some r => map common_date (common (holidays r))
    | None => []
    end in
  let isHoliday := Set_has (JStr dateStr) holidayDates in
  let isCommon := Set_has (JStr dateStr) commonDates in
  if isCommon then Green else if isHoliday then Blue else Gray.

(** The dates of the first argument of the two calls of [renderCalendar]:
    [[...common.map(h => ({ ...h, date: h.date })), ...onlyA]] and the same
    with [onlyB]. *)
Definition calendarA_dates (r : ComparisonResult) : list JsVal :=
  map common_date (common (holidays r)) ++ map date (onlyA (holidays r)).

Definition calendarB_dates (r : ComparisonResult) : list JsVal :=
  map common_date (common (holidays r)) ++ map date (onlyB (holidays r)).

(** A holiday of [hs] falls on [dateStr]. *)
Definition falls_on (dateStr : string) (hs : list Holiday) : bool :=
  existsb (fun h => JsVal_eqb (date h) (JStr dateStr)) hs.

(** ** The configuration of the process *)

(** [process.env]: the variables the server process is started with, among
    them the access credential of a holiday provider when one is
    configured. *)
Definition ProcessEnv : Type := list (string * string).

(** The variable [name] is set. *)
Definition configured (name : string) (env : ProcessEnv) : bool :=
  existsb (fun kv => String.eqb (fst kv) name) env.

(** A helper run by a process started with [env].  [countryHelpers.ts]
    reads no variable of [process.env] and takes no configuration
    parameter: the run is the helper's own, whatever [env] holds. *)
Definition started_with {A} (env : ProcessEnv) (helper : M A) : M A := helper.

(** An event a [getHolidays] call whose source is [url] may cause: a
    request to [url], a wait, a line in the error log. *)
Definition holiday_event (url : string) (e : Event) : Prop :=
  fetcher_event url e \/ exists what, e = LogError what.

(** ** Further sample environments *)

(** A process started with the credential of the secondary holiday
    provider. *)
Definition env_with_credential : ProcessEnv := [("CALENDARIFIC_KEY", "0f3a9c5e77b1")].

(** A body that decodes but is no array. *)
Definition error_body : JsVal := JObj [("status", JNum 404); ("title", JStr "Not Found")].

(** Every request is answered 200 with [error_body]. *)
Definition net_malformed (url : string) (n : nat) : Exchange := ok_json error_body.

(** Every request is answered 200 with [null]. *)
Definition net_null (url : string) (n : nat) : Exchange := ok_json JNull.

(** A runtime that knows no zone. *)
Definition Intl_blind (zone : string) (t : Z) : Res (list Part) :=
  Throw (Some (RangeError "Invalid time zone specified")).

(** A holiday entry stored 27 hours before the clock of [world0]. *)
Definition stale_entry : CacheEntry :=
  mkCacheEntry (CachedHolidays sample_holidays_CO) 1761973200000.

Definition world_stale : World :=
  mkWorld (<[holidays_key "CO" 2025 := stale_entry]> ∅) 1762070400000 [].

Definition sample_status : ZoneStatus :=
  mkZoneStatus (JStr "America/Bogota") (JStr "-05:00") (JBool false).


(** * Proofs *)

(** ** Equality of values *)

Lemma JsVal_eqb_eq : forall a b : JsVal, JsVal_eqb a b = true <-> a = b.
Proof.
  fix IH 1. intros a b; destruct a; destruct b; simpl; try (split; [discriminate | discriminate]); try (split; reflexivity).
  - rewrite Bool.eqb_true_iff. split; congruence.
  - rewrite Z.eqb_eq. split; congruence.
  - rewrite String.eqb_eq. split; congruence.
  - revert items0. induction items as [|x l IHl]; intros [|y l']; try (split; [discriminate | discriminate]); try (split; reflexivity).
    rewrite andb_true_iff, (IH x y), IHl. split.
    + intros [-> E]. congruence.
    + intros E. injection E as -> ->. split; reflexivity.
  - revert props0. induction props as [|[k x] l IHl]; intros [|[k' y] l']; try (split; [discriminate | discriminate]); try (split; reflexivity).
    rewrite !andb_true_iff, String.eqb_eq, (IH x y), IHl. split.
    + intros [[-> ->] E]. congruence.
    + intros E. injection E as -> -> ->. repeat split; reflexivity.
Qed.

#[global] Instance JsVal_eq_dec : EqDecision JsVal.
Proof.
  intros a b. destruct (JsVal_eqb a b) eqn:E.
  - left. apply JsVal_eqb_eq, E.
  - right. intros H. apply JsVal_eqb_eq in H. congruence.
Defined.

Lemma JsVal_eqb_refl a : JsVal_eqb a a = true.
Proof. apply JsVal_eqb_eq. reflexivity. Qed.

Lemma JsVal_eqb_neq a b : JsVal_eqb a b = false <-> a <> b.
Proof.
  split.
  - intros E H. apply JsVal_eqb_eq in H. congruence.
  - intros H. destruct (JsVal_eqb a b) eqn:E; [|reflexivity].
    apply JsVal_eqb_eq in E. contradiction.
Qed.

(** ** Facts about the insertion-ordered [Map] *)

Section MapFacts.
Context {V : Type}.
Implicit Types (m es : list (JsVal * V)) (k : JsVal) (v : V) (e : JsVal * V).

Lemma Map_get_None k m : Map_get k m = None <-> ~ In k (keys m).
Proof.
  induction m as [|[k' v'] m IH]; simpl.
  - tauto.
  - destruct (JsVal_eqb k k') eqn:E.
    + apply JsVal_eqb_eq in E. subst. split; [discriminate | tauto].
    + apply JsVal_eqb_neq in E. rewrite IH. split; [intros H [H'|H']; congruence | tauto].
Qed.

Lemma Map_has_true k m : Map_has k m = true <-> In k (keys m).
Proof.
  unfold Map_has. destruct (Map_get k m) eqn:E.
  - split; [intros _ | reflexivity].
    destruct (in_dec JsVal_eq_dec k (keys m)) as [H|H]; [exact H|].
    apply Map_get_None in H. congruence.
  - apply Map_get_None in E. split; [discriminate | contradiction].
Qed.

Lemma Map_has_false k m : Map_has k m = false <-> ~ In k (keys m).
Proof. rewrite <- Map_has_true. destruct (Map_has k m); split; congruence. Qed.

Lemma Map_get_Some_In k v m : Map_get k m = Some v -> In (k, v) m.
Proof.
  induction m as [|[k' v'] m IH]; simpl; [discriminate|].
  destruct (JsVal_eqb k k') eqn:E.
  - apply JsVal_eqb_eq in E. intros [= ->]. subst. now left.
  - intros H. right. auto.
Qed.

Lemma Map_get_set_eq k v m : Map_get k (Map_set k v m) = Some v.
Proof.
  induction m as [|[k' v'] m IH]; simpl.
  - now rewrite JsVal_eqb_refl.
  - destruct (JsVal_eqb k k') eqn:E; simpl.
    + now rewrite JsVal_eqb_refl.
    + now rewrite E.
Qed.

Lemma Map_get_set_ne k k' v m : k <> k' -> Map_get k' (Map_set k v m) = Map_get k' m.
Proof.
  intros Hne. induction m as [|[k0 v0] m IH]; simpl.
  - assert (JsVal_eqb k' k = false) as -> by (apply JsVal_eqb_neq; congruence).
    reflexivity.
  - destruct (JsVal_eqb k k0) eqn:E; simpl.
    + apply JsVal_eqb_eq in E. subst k0.
      assert (JsVal_eqb k' k = false) as -> by (apply JsVal_eqb_neq; congruence).
      reflexivity.
    + now rewrite IH.
Qed.

Lemma keys_Map_set k v m :
  keys (Map_set k v m) = if Map_has k m then keys m else keys m ++ [k].
Proof.
  unfold Map_has. induction m as [|[k' v'] m IH]; simpl; [reflexivity|].
  destruct (JsVal_eqb k k') eqn:E; simpl.
  - apply JsVal_eqb_eq in E. now subst.
  - rewrite IH. now destruct (Map_get k m).
Qed.

Lemma In_keys_Map_set k k' v m :
  In k' (keys (Map_set k v m)) <-> k' = k \/ In k' (keys m).
Proof.
  rewrite keys_Map_set. destruct (Map_has k m) eqn:E.
  - apply Map_has_true in E. split; [tauto | intros [->|H]; assumption].
  - rewrite in_app_iff. simpl. split; [intros [H|[H|[]]]; auto | intros [->|H]; auto].
Qed.

Lemma NoDup_keys_Map_set k v m : NoDup (keys m) -> NoDup (keys (Map_set k v m)).
Proof.
  intros H. rewrite keys_Map_set. destruct (Map_has k m) eqn:E; [exact H|].
  apply Map_has_false in E. apply NoDup_app. split; [exact H|]. split.
  - intros x Hx Hx'. apply list_elem_of_In in Hx, Hx'. destruct Hx' as [->|[]]. contradiction.
  - apply NoDup_singleton.
Qed.

Lemma In_Map_set e k v m : In e (Map_set k v m) -> e = (k, v) \/ In e m.
Proof.
  induction m as [|[k' v'] m IH]; simpl.
  - intros [<-|[]]. now left.
  - destruct (JsVal_eqb k k'); simpl.
    + intros [<-|H]; auto.
    + intros [<-|H]; auto. destruct (IH H); auto.
Qed.

Lemma NoDup_keys_Map_fill es m : NoDup (keys m) -> NoDup (keys (Map_fill es m)).
Proof.
  revert m. induction es as [|e es IH]; intros m H; simpl; [exact H|].
  apply IH, NoDup_keys_Map_set, H.
Qed.

Lemma In_keys_Map_fill es m k :
  In k (keys (Map_fill es m)) <-> In k (map fst es) \/ In k (keys m).
Proof.
  revert m. induction es as [|e es IH]; intros m; simpl; [tauto|].
  rewrite IH, In_keys_Map_set. intuition congruence.
Qed.

Lemma In_Map_fill es m e : In e (Map_fill es m) -> In e es \/ In e m.
Proof.
  revert m. induction es as [|e' es IH]; intros m; simpl; [tauto|].
  intros H. apply IH in H as [H|H]; [tauto|].
  apply In_Map_set in H as [->|H]; [|tauto]. left. left. now destruct e'.
Qed.

Lemma NoDup_keys_Map_of es : NoDup (keys (Map_of es)).
Proof. apply (NoDup_keys_Map_fill es []). constructor. Qed.

Lemma In_keys_Map_of es k : In k (keys (Map_of es)) <-> In k (map fst es).
Proof. unfold Map_of. fold (Map_fill es []). rewrite In_keys_Map_fill. simpl. tauto. Qed.

Lemma In_Map_of es e : In e (Map_of es) -> In e es.
Proof. intros H. apply (In_Map_fill es []) in H as [H|[]]. exact H. Qed.

End MapFacts.

(** The number of elements of a duplicate-free list is the number of
    distinct elements of any list with the same members. *)
Lemma length_NoDup_same_members (l l' : list JsVal) :
  NoDup l -> (forall x, In x l <-> In x l') -> length l = length (remove_dups l').
Proof.
  intros Hl Hll'. apply Permutation_length, NoDup_Permutation.
  - exact Hl.
  - apply NoDup_remove_dups.
  - intros x. rewrite elem_of_remove_dups, !list_elem_of_In. apply Hll'.
Qed.

(** ** The holiday partition *)

Lemma holidayMap_keys hs d : In d (keys (holidayMap hs)) <-> In d (map date hs).
Proof. unfold holidayMap. rewrite In_keys_Map_of, map_map. simpl. tauto. Qed.

Lemma holidayMap_entry hs d h : In (d, h) (holidayMap hs) -> date h = d /\ In h hs.
Proof.
  intros H. apply In_Map_of, in_map_iff in H as (h' & [= <- <-] & Hin). tauto.
Qed.

(** The two loops over [holidaysAMap.entries()], as filters. *)
Lemma forEach_A_spec (B : list (JsVal * Holiday)) (m : list (JsVal * Holiday)) c0 a0 :
  fold_left
    (fun '(common, onlyA) '(date, holiday) =>
       match Map_get date B with
       | Some holidayB => (common ++ [mkCommon date (name holiday) (name holidayB)], onlyA)
       | None => (common, onlyA ++ [holiday])
       end) m (c0, a0)
  = (c0 ++ flat_map (fun '(d, h) => match Map_get d B with
                                    | Some hb => [mkCommon d (name h) (name hb)]
                                    | None => []
                                    end) m,
     a0 ++ flat_map (fun '(d, h) => match Map_get d B with
                                    | Some _ => []
                                    | None => [h]
                                    end) m).
Proof.
  revert c0 a0. induction m as [|[d h] m IH]; intros c0 a0; simpl.
  - now rewrite !app_nil_r.
  - destruct (Map_get d B); rewrite IH; simpl; now rewrite <- ?app_assoc.
Qed.

Lemma forEach_B_spec (A : list (JsVal * Holiday)) (m : list (JsVal * Holiday)) b0 :
  fold_left
    (fun onlyB '(date, holiday) =>
       if negb (Map_has date A) then onlyB ++ [holiday] else onlyB) m b0
  = b0 ++ flat_map (fun '(d, h) => if Map_has d A then [] else [h]) m.
Proof.
  revert b0. induction m as [|[d h] m IH]; intros b0; simpl.
  - now rewrite app_nil_r.
  - destruct (Map_has d A); simpl; rewrite IH; now rewrite <- ?app_assoc.
Qed.

Lemma common_dates (B m : list (JsVal * Holiday)) :
  map common_date
    (flat_map (fun '(d, h) => match Map_get d B with
                              | Some hb => [mkCommon d (name h) (name hb)]
                              | None => []
                              end) m)
  = List.filter (fun d => Map_has d B) (keys m).
Proof.
  induction m as [|[d h] m IH]; simpl; [reflexivity|].
  unfold Map_has at 1. destruct (Map_get d B); simpl; now rewrite IH.
Qed.

Lemma only_dates (B m : list (JsVal * Holiday)) :
  (forall d h, In (d, h) m -> date h = d) ->
  map date
    (flat_map (fun '(d, h) => match Map_get d B with
                              | Some _ => []
                              | None => [h]
                              end) m)
  = List.filter (fun d => negb (Map_has d B)) (keys m).
Proof.
  induction m as [|[d h] m IH]; intros Hm; simpl; [reflexivity|].
  unfold Map_has at 1. destruct (Map_get d B); simpl; rewrite IH.
  - reflexivity.
  - intros; apply Hm; now right.
  - f_equal. apply Hm. now left.
  - intros; apply Hm; now right.
Qed.

Lemma onlyB_dates (A m : list (JsVal * Holiday)) :
  (forall d h, In (d, h) m -> date h = d) ->
  map date (flat_map (fun '(d, h) => if Map_has d A then [] else [h]) m)
  = List.filter (fun d => negb (Map_has d A)) (keys m).
Proof.
  induction m as [|[d h] m IH]; intros Hm; simpl; [reflexivity|].
  destruct (Map_has d A); simpl; rewrite IH.
  - reflexivity.
  - intros; apply Hm; now right.
  - f_equal. apply Hm. now left.
  - intros; apply Hm; now right.
Qed.

Lemma length_filter_split {X} (f : X -> bool) (l : list X) :
  (length (List.filter f l) + length (List.filter (fun x => negb (f x)) l) = length l)%nat.
Proof. induction l as [|x l IH]; simpl; [reflexivity|]. destruct (f x); simpl; lia. Qed.

Lemma NoDup_List_filter {X} (f : X -> bool) (l : list X) :
  NoDup l -> NoDup (List.filter f l).
Proof. rewrite !NoDup_ListNoDup. apply List.NoDup_filter. Qed.

Lemma NoDup_filter_split (f : JsVal -> bool) (l : list JsVal) :
  NoDup l -> NoDup (List.filter f l ++ List.filter (fun x => negb (f x)) l).
Proof.
  intros H. apply NoDup_app. split; [|split].
  - now apply NoDup_List_filter.
  - intros x Hx Hx'. apply list_elem_of_In, filter_In in Hx, Hx'.
    destruct Hx as [_ Hx], Hx' as [_ Hx']. rewrite Hx in Hx'. discriminate.
  - now apply NoDup_List_filter.
Qed.

Lemma compareHolidays_facts holidaysA holidaysB :
  partition_facts holidaysA holidaysB (compareHolidays holidaysA holidaysB).
Proof.
  unfold compareHolidays. fold (holidayMap holidaysA) (holidayMap holidaysB).
  rewrite forEach_A_spec, forEach_B_spec. simpl. split; simpl.
  - apply common_dates.
  - apply only_dates. intros d h H. now apply holidayMap_entry in H.
  - apply onlyB_dates. intros d h H. now apply holidayMap_entry in H.
Qed.

(** The partition the loops make of any two holiday lists, with each side
    reduced to one entry per date key (as [new Map] does): the dates of
    [common] followed by those of [onlyA] hold no date twice, likewise
    [common] followed by [onlyB]; a date is in [common] exactly when both
    sides have it, in [onlyA] exactly when only side A has it, in [onlyB]
    exactly when only side B has it; and the lengths add up to the numbers
    of distinct dates.  Date keys are compared as [Map] compares primitive
    values. *)
Lemma compareHolidays_partition (holidaysA holidaysB : list Holiday) :
  let r := compareHolidays holidaysA holidaysB in
  let datesA := map date holidaysA in
  let datesB := map date holidaysB in
  let c := map common_date (common r) in
  let a := map date (onlyA r) in
  let b := map date (onlyB r) in
  NoDup (c ++ a) /\ NoDup (c ++ b) /\
  (forall d, In d c <-> In d datesA /\ In d datesB) /\
  (forall d, In d a <-> In d datesA /\ ~ In d datesB) /\
  (forall d, In d b <-> In d datesB /\ ~ In d datesA) /\
  (length (common r) + length (onlyA r) = length (remove_dups datesA))%nat /\
  (length (common r) + length (onlyB r) = length (remove_dups datesB))%nat.
Proof.
  intros r datesA datesB c a b.
  destruct (compareHolidays_facts holidaysA holidaysB) as [Hc Ha Hb].
  fold r in Hc, Ha, Hb. fold c in Hc. fold a in Ha. fold b in Hb.
  pose proof (NoDup_keys_Map_of (map (fun h => (date h, h)) holidaysA)) as NA.
  pose proof (NoDup_keys_Map_of (map (fun h => (date h, h)) holidaysB)) as NB.
  fold (holidayMap holidaysA) in NA. fold (holidayMap holidaysB) in NB.
  assert (Hc_in : forall d, In d c <-> In d datesA /\ In d datesB).
  { intros d. rewrite Hc, filter_In, Map_has_true, !holidayMap_keys. tauto. }
  assert (Ha_in : forall d, In d a <-> In d datesA /\ ~ In d datesB).
  { intros d. rewrite Ha, filter_In, negb_true_iff, Map_has_false, !holidayMap_keys. tauto. }
  assert (Hb_in : forall d, In d b <-> In d datesB /\ ~ In d datesA).
  { intros d. rewrite Hb, filter_In, negb_true_iff, Map_has_false, !holidayMap_keys. tauto. }
  assert (Nc : NoDup c) by (rewrite Hc; now apply NoDup_List_filter).
  assert (Nb : NoDup b) by (rewrite Hb; now apply NoDup_List_filter).
  assert (Ncb : NoDup (c ++ b)).
  { apply NoDup_app. split; [exact Nc|]. split; [|exact Nb].
    intros d Hd Hd'. apply list_elem_of_In in Hd, Hd'.
    apply Hc_in in Hd. apply Hb_in in Hd'. tauto. }
  split; [|split; [|split; [|split; [|split; [|split]]]]];
    [ | exact Ncb | exact Hc_in | exact Ha_in | exact Hb_in | | ].
  - rewrite Hc, Ha. now apply NoDup_filter_split.
  - rewrite <- (length_map common_date), <- (length_map date). fold c a.
    rewrite Hc, Ha, length_filter_split.
    apply length_NoDup_same_members; [exact NA|]. intros d. apply holidayMap_keys.
  - rewrite <- (length_map common_date), <- (length_map date), <- length_app. fold c b.
    apply length_NoDup_same_members; [exact Ncb|].
    intros d. rewrite in_app_iff, Hc_in, Hb_in.
    destruct (in_dec JsVal_eq_dec d datesA); tauto.
Qed.

Section MapEntries.
Context {V : Type}.
Implicit Types (m : list (JsVal * V)) (k : JsVal) (v : V).

Lemma In_Map_get k v m : NoDup (keys m) -> In (k, v) m -> Map_get k m = Some v.
Proof.
  induction m as [|[k' v'] m IH]; simpl; [tauto|].
  intros Hnd [[= -> ->]|H].
  - now rewrite JsVal_eqb_refl.
  - apply NoDup_cons in Hnd as [Hk' Hnd].
    destruct (JsVal_eqb k k') eqn:E; [|auto].
    apply JsVal_eqb_eq in E. subst k'. exfalso. apply Hk'.
    apply list_elem_of_In. unfold keys. change k with (fst (k, v)). now apply in_map.
Qed.

End MapEntries.

(** ** Offset groupings *)

Lemma offsetMap_from_keys statuses m :
  NoDup (keys m) ->
  NoDup (keys (offsetMap_from statuses m)) /\
  forall o, In o (keys (offsetMap_from statuses m))
            <-> In o (map utc_offset statuses) \/ In o (keys m).
Proof.
  revert m. induction statuses as [|s l IH]; intros m Hm; simpl.
  - split; [exact Hm | tauto].
  - destruct (IH _ (NoDup_keys_Map_set (utc_offset s)
                      (default [] (Map_get (utc_offset s) m) ++ [zone s]) m Hm)) as [N I].
    split; [exact N|]. intros o. rewrite I, In_keys_Map_set. intuition congruence.
Qed.

Lemma offsetMap_from_get statuses m o :
  Map_get o (offsetMap_from statuses m) =
  match Map_get o m with
  | Some zs0 => Some (zs0 ++ zones_at o statuses)
  | None => match zones_at o statuses with
            | [] => None
            | zs => Some zs
            end
  end.
Proof.
  revert m. induction statuses as [|s l IH]; intros m; simpl.
  - unfold zones_at; simpl. destruct (Map_get o m); [now rewrite app_nil_r | reflexivity].
  - rewrite IH. unfold zones_at; simpl.
    destruct (JsVal_eqb (utc_offset s) o) eqn:E.
    + apply JsVal_eqb_eq in E. subst o. rewrite Map_get_set_eq. simpl.
      destruct (Map_get (utc_offset s) m); simpl; [now rewrite <- app_assoc | reflexivity].
    + apply JsVal_eqb_neq in E. now rewrite Map_get_set_ne.
Qed.

Lemma offsetMap_get statuses o :
  Map_get o (offsetMap statuses) =
  match zones_at o statuses with
  | [] => None
  | zs => Some zs
  end.
Proof. apply (offsetMap_from_get statuses [] o). Qed.

Lemma offsetMap_NoDup statuses : NoDup (keys (offsetMap statuses)).
Proof. apply (offsetMap_from_keys statuses []). constructor. Qed.

Lemma offsetMap_keys statuses o :
  In o (keys (offsetMap statuses)) <-> In o (map utc_offset statuses).
Proof.
  destruct (offsetMap_from_keys statuses [] (NoDup_nil_2)) as [_ H].
  unfold offsetMap. fold (offsetMap_from statuses []). rewrite H. simpl. tauto.
Qed.

Lemma offsetMap_entry statuses o zs :
  In (o, zs) (offsetMap statuses) -> zs = zones_at o statuses.
Proof.
  intros H. apply In_Map_get in H; [|apply offsetMap_NoDup].
  rewrite offsetMap_get in H. destruct (zones_at o statuses); congruence.
Qed.

(** The loop that fills [overlaps], as a filter over the entries of
    [offsetMapA]. *)
Lemma offsetOverlaps_from (B m : list (JsVal * list JsVal)) acc :
  fold_left
    (fun overlaps '(offset, zonesA) =>
       match Map_get offset B with
       | Some zonesB => overlaps ++ [mkOverlap offset zonesA zonesB]
       | None => overlaps
       end) m acc
  = acc ++ flat_map (fun '(o, zA) => match Map_get o B with
                                     | Some zB => [mkOverlap o zA zB]
                                     | None => []
                                     end) m.
Proof.
  revert acc. induction m as [|[o zA] m IH]; intros acc; simpl.
  - now rewrite app_nil_r.
  - rewrite IH. destruct (Map_get o B); simpl; now rewrite <- ?app_assoc.
Qed.

Lemma offsetOverlaps_offsets (A B : list (JsVal * list JsVal)) :
  map offset (offsetOverlaps A B) = List.filter (fun o => Map_has o B) (keys A).
Proof.
  unfold offsetOverlaps. rewrite offsetOverlaps_from. simpl.
  induction A as [|[o zA] A IH]; simpl; [reflexivity|].
  unfold Map_has at 1. destruct (Map_get o B); simpl; now rewrite IH.
Qed.

Lemma offsetOverlaps_entry (A B : list (JsVal * list JsVal)) e :
  In e (offsetOverlaps A B) ->
  In (offset e, zonesA e) A /\ Map_get (offset e) B = Some (zonesB e).
Proof.
  unfold offsetOverlaps. rewrite offsetOverlaps_from. simpl.
  rewrite in_flat_map. intros ([o zA] & Hin & He).
  destruct (Map_get o B) eqn:E; [|destruct He].
  destruct He as [<-|[]]. simpl. now rewrite E.
Qed.

Lemma compareTimezones_overlaps (statusesA statusesB : list (option ZoneStatus)) :
  let t := compareTimezones statusesA statusesB in
  let ov := overlaps (commonOffsetNow t) in
  NoDup (map offset ov) /\
  (forall o, In o (map offset ov)
             <-> In o (keys (offsetMap (tzA t))) /\ In o (keys (offsetMap (tzB t)))) /\
  (forall o, In o (map offset ov)
             <-> In o (map utc_offset (tzA t)) /\ In o (map utc_offset (tzB t))) /\
  (forall e, In e ov ->
     zonesA e = zones_at (offset e) (tzA t) /\
     zonesB e = zones_at (offset e) (tzB t)) /\
  (hasOverlap (commonOffsetNow t) = true <-> ov <> []).
Proof.
  intros t ov. unfold t, compareTimezones in ov. simpl in ov.
  set (sA := validStatuses statusesA) in *. set (sB := validStatuses statusesB) in *.
  change (tzA t) with sA. change (tzB t) with sB.
  split; [|split; [|split; [|split]]].
  - unfold ov. rewrite offsetOverlaps_offsets. apply NoDup_List_filter, offsetMap_NoDup.
  - intros o. unfold ov. rewrite offsetOverlaps_offsets, filter_In, Map_has_true. tauto.
  - intros o. unfold ov.
    rewrite offsetOverlaps_offsets, filter_In, Map_has_true, !offsetMap_keys. tauto.
  - intros e He. apply offsetOverlaps_entry in He as [HA HB]. split.
    + now apply offsetMap_entry.
    + rewrite offsetMap_get in HB. destruct (zones_at (offset e) sB); congruence.
  - change (hasOverlap (commonOffsetNow t)) with (0 <? length ov)%nat.
    rewrite Nat.ltb_lt. destruct ov; simpl; split; (lia || congruence).
Qed.

(** ** The resilient fetcher *)

Lemma fails_or_succeeds x : (exists e, fails x e) \/ (exists v, succeeds x v).
Proof.
  destruct x as [el [reason | status statusText body]].
  - left. eexists. constructor.
  - destruct (response_ok status) eqn:E.
    + destruct body as [reason | v].
      * left. eexists. now apply fails_body.
      * right. eexists. now constructor.
    + left. eexists. now apply fails_status.
Qed.

Lemma after_after w dt evs dt' evs' :
  after (after w dt evs) dt' evs' = after w (dt + dt') (evs ++ evs').
Proof. unfold after; simpl. f_equal; [lia | now rewrite app_assoc]. Qed.

Lemma requests_to_app url tr evs :
  requests_to url (tr ++ evs) = (requests_to url tr + requests_to url evs)%nat.
Proof. unfold requests_to. now rewrite List.filter_app, length_app. Qed.

Section FetcherFacts.
Variable net : string -> nat -> Exchange.

Lemma attempt_succeeds url w v :
  succeeds (net url (requests_to url (trace w))) v ->
  attempt net url w
  = (Ok v, after w (elapsed (net url (requests_to url (trace w)))) [Fetch url]).
Proof.
  intros H. unfold attempt, bind, fetch. inversion H as [el status statusText v' Hok Hx]. 
  simpl. rewrite Hok. reflexivity.
Qed.

Lemma attempt_fails url w e :
  fails (net url (requests_to url (trace w))) e ->
  attempt net url w
  = (Throw (Some e), after w (elapsed (net url (requests_to url (trace w)))) [Fetch url]).
Proof.
  intros H. unfold attempt, bind, fetch.
  inversion H as [el reason Hx | el status statusText body Hok Hx
                 | el status statusText reason Hok Hx]; simpl; rewrite ?Hok; reflexivity.
Qed.

Lemma sleep_eq ms w : sleep ms w = (Ok tt, after w ms [Sleep ms]).
Proof. reflexivity. Qed.

Lemma requests_to_after url w dt evs :
  requests_to url (trace (after w dt evs))
  = (requests_to url (trace w) + requests_to url evs)%nat.
Proof. apply requests_to_app. Qed.

Lemma requests_to_fetch url : requests_to url [Fetch url] = 1%nat.
Proof. unfold requests_to; simpl. now rewrite String.eqb_refl. Qed.

Lemma requests_to_fetch_sleep url ms : requests_to url [Fetch url; Sleep ms] = 1%nat.
Proof. unfold requests_to; simpl. now rewrite String.eqb_refl. Qed.

Lemma loop_exhausted url maxRetries i lastError w :
  fetchWithRetry_loop net url maxRetries 0 i lastError w = (Throw lastError, w).
Proof. reflexivity. Qed.

Lemma loop_succeeds url maxRetries remaining i lastError w v :
  succeeds (net url (requests_to url (trace w))) v ->
  fetchWithRetry_loop net url maxRetries (S remaining) i lastError w
  = (Ok v, after w (elapsed (net url (requests_to url (trace w)))) [Fetch url]).
Proof. intros H. simpl. unfold try_catch. now rewrite (attempt_succeeds _ _ _ H). Qed.

Lemma loop_retries url maxRetries remaining i lastError w e :
  fails (net url (requests_to url (trace w))) e ->
  (i < maxRetries)%nat ->
  fetchWithRetry_loop net url maxRetries (S remaining) i lastError w
  = fetchWithRetry_loop net url maxRetries remaining (S i) (Some e)
      (after w (elapsed (net url (requests_to url (trace w))) + 1000 * (Z.of_nat i + 1))
         [Fetch url; Sleep (1000 * (Z.of_nat i + 1))]).
Proof.
  intros H Hi. simpl. unfold try_catch. rewrite (attempt_fails _ _ _ H).
  unfold bind. apply Nat.ltb_lt in Hi. rewrite Hi, sleep_eq, after_after. reflexivity.
Qed.

Lemma loop_gives_up url maxRetries remaining i lastError w e :
  fails (net url (requests_to url (trace w))) e ->
  (maxRetries <= i)%nat ->
  fetchWithRetry_loop net url maxRetries (S remaining) i lastError w
  = fetchWithRetry_loop net url maxRetries remaining (S i) (Some e)
      (after w (elapsed (net url (requests_to url (trace w)))) [Fetch url]).
Proof.
  intros H Hi. simpl. unfold try_catch. rewrite (attempt_fails _ _ _ H).
  unfold bind. apply Nat.ltb_ge in Hi. rewrite Hi. reflexivity.
Qed.

Lemma requests_after_retry url w dt ms :
  requests_to url (trace (after w dt [Fetch url; Sleep ms]))
  = (requests_to url (trace w) + 1)%nat.
Proof. now rewrite requests_to_after, requests_to_fetch_sleep. Qed.

Lemma fetchWithRetry_first_try url w v :
  succeeds (net url (requests_to url (trace w))) v ->
  fetchWithRetry net url default_maxRetries w
  = (Ok v, after w (elapsed (net url (requests_to url (trace w)))) [Fetch url]).
Proof. intros H. unfold fetchWithRetry. now rewrite (loop_succeeds _ _ _ _ _ _ _ H). Qed.

Lemma fetchWithRetry_second_try url w e0 v :
  let n := requests_to url (trace w) in
  fails (net url n) e0 -> succeeds (net url (n + 1)) v ->
  fetchWithRetry net url default_maxRetries w
  = (Ok v, after w (elapsed (net url n) + 1000 + elapsed (net url (n + 1)))
             [Fetch url; Sleep 1000; Fetch url]).
Proof.
  intros n H0 H1. unfold fetchWithRetry, default_maxRetries.
  rewrite (loop_retries _ _ _ _ _ _ _ H0) by lia.
  erewrite loop_succeeds by (rewrite requests_after_retry; exact H1).
  rewrite requests_after_retry, after_after. reflexivity.
Qed.

Lemma fetchWithRetry_third_try url w e0 e1 v :
  let n := requests_to url (trace w) in
  fails (net url n) e0 -> fails (net url (n + 1)) e1 -> succeeds (net url (n + 2)) v ->
  fetchWithRetry net url default_maxRetries w
  = (Ok v, after w (elapsed (net url n) + 1000 + elapsed (net url (n + 1)) + 2000
                    + elapsed (net url (n + 2)))
             [Fetch url; Sleep 1000; Fetch url; Sleep 2000; Fetch url]).
Proof.
  intros n H0 H1 H2. unfold fetchWithRetry, default_maxRetries.
  rewrite (loop_retries _ _ _ _ _ _ _ H0) by lia.
  erewrite loop_retries; [| rewrite requests_after_retry; exact H1 | lia].
  erewrite loop_succeeds
    by (rewrite !requests_after_retry, <- Nat.add_assoc; exact H2).
  rewrite !requests_after_retry, <- Nat.add_assoc, !after_after. fold n.
  f_equal. unfold after; simpl. f_equal. lia.
Qed.

Lemma fetchWithRetry_exhausted url w e0 e1 e2 :
  let n := requests_to url (trace w) in
  fails (net url n) e0 -> fails (net url (n + 1)) e1 -> fails (net url (n + 2)) e2 ->
  fetchWithRetry net url default_maxRetries w
  = (Throw (Some e2),
     after w (elapsed (net url n) + 1000 + elapsed (net url (n + 1)) + 2000
              + elapsed (net url (n + 2)))
       [Fetch url; Sleep 1000; Fetch url; Sleep 2000; Fetch url]).
Proof.
  intros n H0 H1 H2. unfold fetchWithRetry, default_maxRetries.
  rewrite (loop_retries _ _ _ _ _ _ _ H0) by lia.
  erewrite loop_retries; [| rewrite requests_after_retry; exact H1 | lia].
  erewrite loop_gives_up;
    [| rewrite !requests_after_retry, <- Nat.add_assoc; exact H2 | lia].
  rewrite loop_exhausted, !requests_after_retry, <- Nat.add_assoc, !after_after. fold n.
  f_equal. unfold after; simpl. f_equal. lia.
Qed.

Lemma fetches_after w dt evs :
  fetches (trace (after w dt evs)) = (fetches (trace w) + fetches evs)%nat.
Proof. unfold fetches, after; simpl. now rewrite List.filter_app, length_app. Qed.

Lemma fetchWithRetry_at_most_three url w :
  (fetches (trace (snd (fetchWithRetry net url default_maxRetries w)))
   <= fetches (trace w) + 3)%nat.
Proof.
  set (n := requests_to url (trace w)).
  destruct (fails_or_succeeds (net url n)) as [[e0 H0]|[v H0]].
  2:{ rewrite (fetchWithRetry_first_try _ _ _ H0). simpl snd. rewrite fetches_after.
      unfold fetches. simpl. lia. }
  destruct (fails_or_succeeds (net url (n + 1))) as [[e1 H1]|[v H1]].
  2:{ rewrite (fetchWithRetry_second_try _ _ _ _ H0 H1). simpl snd. rewrite fetches_after.
      unfold fetches. simpl. lia. }
  destruct (fails_or_succeeds (net url (n + 2))) as [[e2 H2]|[v H2]].
  2:{ rewrite (fetchWithRetry_third_try _ _ _ _ _ H0 H1 H2). simpl snd.
      rewrite fetches_after. unfold fetches. simpl. lia. }
  rewrite (fetchWithRetry_exhausted _ _ _ _ _ H0 H1 H2). simpl snd.
  rewrite fetches_after. unfold fetches. simpl. lia.
Qed.

(** C3.  [fetchWithRetry], called with its default [maxRetries = 2], sends at
    most three requests.  Whatever the kind of failure (rejected [fetch],
    status outside 200..299, body that does not decode), a failed first
    attempt is followed by a 1000 ms wait and a second attempt, a failed
    second attempt by a 2000 ms wait and a third one; the first attempt
    that succeeds ends the call with the decoded body, and when the third
    attempt fails too its error is thrown. *)
Theorem fetchWithRetry_policy (url : string) (w : World) :
  let n := requests_to url (trace w) in
  let x0 := net url n in
  let x1 := net url (n + 1) in
  let x2 := net url (n + 2) in
  (forall v, succeeds x0 v ->
     fetchWithRetry net url default_maxRetries w
     = (Ok v, after w (elapsed x0) [Fetch url])) /\
  (forall e0 v, fails x0 e0 -> succeeds x1 v ->
     fetchWithRetry net url default_maxRetries w
     = (Ok v, after w (elapsed x0 + 1000 + elapsed x1)
                [Fetch url; Sleep 1000; Fetch url])) /\
  (forall e0 e1 v, fails x0 e0 -> fails x1 e1 -> succeeds x2 v ->
     fetchWithRetry net url default_maxRetries w
     = (Ok v, after w (elapsed x0 + 1000 + elapsed x1 + 2000 + elapsed x2)
                [Fetch url; Sleep 1000; Fetch url; Sleep 2000; Fetch url])) /\
  (forall e0 e1 e2, fails x0 e0 -> fails x1 e1 -> fails x2 e2 ->
     fetchWithRetry net url default_maxRetries w
     = (Throw (Some e2),
        after w (elapsed x0 + 1000 + elapsed x1 + 2000 + elapsed x2)
          [Fetch url; Sleep 1000; Fetch url; Sleep 2000; Fetch url])) /\
  (fetches (trace (snd (fetchWithRetry net url default_maxRetries w)))
   <= fetches (trace w) + 3)%nat.
Proof.
  intros n x0 x1 x2.
  split; [|split; [|split; [|split]]].
  - intros v H. now apply fetchWithRetry_first_try.
  - intros e0 v H0 H1. now apply (fetchWithRetry_second_try url w e0).
  - intros e0 e1 v H0 H1 H2. now apply (fetchWithRetry_third_try url w e0 e1).
  - intros e0 e1 e2 H0 H1 H2. now apply (fetchWithRetry_exhausted url w e0 e1).
  - apply fetchWithRetry_at_most_three.
Qed.

End FetcherFacts.

(** ** The TTL cache *)

Lemma getFromCache_hit key ttl w entry :
  cache w !! key = Some entry -> now w - timestamp entry <= ttl ->
  getFromCache key ttl w = (Ok (Some (data entry)), w).
Proof.
  intros H Hfresh. unfold getFromCache. rewrite H.
  destruct (now w - timestamp entry >? ttl) eqn:E; [|reflexivity].
  apply Z.gtb_lt in E. lia.
Qed.

Lemma getFromCache_expired key ttl w entry :
  cache w !! key = Some entry -> now w - timestamp entry > ttl ->
  getFromCache key ttl w = (Ok None, evicted key w).
Proof.
  intros H Hold. unfold getFromCache. rewrite H.
  destruct (now w - timestamp entry >? ttl) eqn:E; [reflexivity|].
  rewrite Z.gtb_ltb in E. apply Z.ltb_ge in E. lia.
Qed.

Lemma getFromCache_absent key ttl w :
  cache w !! key = None -> getFromCache key ttl w = (Ok None, w).
Proof. intros H. unfold getFromCache. now rewrite H. Qed.

Lemma getFromCache_miss key ttl w :
  fst (getFromCache key ttl w) = Ok None ->
  getFromCache key ttl w = (Ok None, evicted key w).
Proof.
  unfold getFromCache. destruct (cache w !! key) as [entry|] eqn:H.
  - destruct (now w - timestamp entry >? ttl); [reflexivity | discriminate].
  - intros _. unfold evicted. rewrite delete_id by exact H. now destruct w.
Qed.

Lemma getFromCache_frame key ttl w :
  now (snd (getFromCache key ttl w)) = now w /\
  trace (snd (getFromCache key ttl w)) = trace w.
Proof.
  unfold getFromCache. destruct (cache w !! key) as [entry|]; [|now split].
  destruct (now w - timestamp entry >? ttl); now split.
Qed.

(** C6.  After [setCache(key, v)], a lookup of [key] made [d] milliseconds
    later returns [v] and leaves the world as it is when [d <= ttl]; when
    [d > ttl] it returns absent and the entry is gone from the cache
    afterwards. *)
Theorem cache_round_trip (key : string) (v : CacheData) (ttl d : Z)
    (w : World) (evs : list Event) :
  let w1 := snd (setCache key v w) in
  let w2 := after w1 d evs in
  (d <= ttl -> getFromCache key ttl w2 = (Ok (Some v), w2)) /\
  (d > ttl ->
     getFromCache key ttl w2 = (Ok None, evicted key w2) /\
     cache (snd (getFromCache key ttl w2)) !! key = None).
Proof.
  intros w1 w2.
  assert (H : cache w2 !! key = Some (mkCacheEntry v (now w))).
  { unfold w2, w1, after, setCache; simpl. apply lookup_insert_eq. }
  assert (Hd : now w2 - timestamp (mkCacheEntry v (now w)) = d).
  { unfold w2, w1, after, setCache; simpl. lia. }
  split.
  - intros Hle. apply (getFromCache_hit key ttl w2 _ H). lia.
  - intros Hgt. rewrite (getFromCache_expired key ttl w2 _ H) by lia.
    split; [reflexivity|]. apply lookup_delete_eq.
Qed.

(** ** The holiday provider *)

Section HolidayFacts.
Variable net : string -> nat -> Exchange.

Lemma getHolidays_fetch_never_throws cacheKey countryCode year w :
  exists hs, fst (getHolidays_fetch net cacheKey countryCode year w) = Ok hs.
Proof.
  unfold getHolidays_fetch, try_catch.
  match goal with |- context [match ?m w with _ => _ end] => destruct (m w) as [[hs|t] w'] end.
  - now exists hs.
  - now exists [].
Qed.

Lemma getHolidays_miss countryCode year w :
  fst (getFromCache (holidays_key countryCode year) HOLIDAYS_TTL w) = Ok None ->
  getHolidays net countryCode year w
  = getHolidays_fetch net (holidays_key countryCode year) countryCode year
      (evicted (holidays_key countryCode year) w).
Proof.
  intros H. unfold getHolidays, getHolidays_call. fold (holidays_key countryCode year).
  now rewrite (getFromCache_miss _ _ _ H).
Qed.

Lemma getHolidays_hit countryCode year w entry hs :
  cache w !! holidays_key countryCode year = Some entry ->
  data entry = CachedHolidays hs ->
  now w - timestamp entry <= HOLIDAYS_TTL ->
  getHolidays net countryCode year w = (Ok hs, w).
Proof.
  intros H Hd Hfresh. unfold getHolidays, getHolidays_call.
  fold (holidays_key countryCode year).
  rewrite (getFromCache_hit _ _ _ _ H Hfresh), Hd. reflexivity.
Qed.

(** C4.  [getHolidays] never throws; and when the lookup misses the cache
    and the three attempts on the holiday source all fail, it returns the
    empty list, having logged the error and cached nothing. *)
Theorem getHolidays_never_fails (countryCode : string) (year : Z) (w : World) :
  let key := holidays_key countryCode year in
  let url := holidays_url countryCode year in
  let n := requests_to url (trace w) in
  (exists hs, fst (getHolidays net countryCode year w) = Ok hs) /\
  (forall e0 e1 e2,
     fst (getFromCache key HOLIDAYS_TTL w) = Ok None ->
     fails (net url n) e0 -> fails (net url (n + 1)) e1 -> fails (net url (n + 2)) e2 ->
     getHolidays net countryCode year w
     = (Ok [],
        after (evicted key w)
          (elapsed (net url n) + 1000 + elapsed (net url (n + 1)) + 2000
           + elapsed (net url (n + 2)))
          [Fetch url; Sleep 1000; Fetch url; Sleep 2000; Fetch url;
           LogError ("Error fetching holidays for " +:+ countryCode +:+ ":")])).
Proof.
  intros key url n. split.
  - unfold getHolidays, getHolidays_call.
    destruct (getFromCache _ HOLIDAYS_TTL w) as [[[[hs|zs]|]|t] w1]; simpl;
      try apply getHolidays_fetch_never_throws.
    now exists hs.
  - intros e0 e1 e2 Hmiss H0 H1 H2. unfold key. rewrite (getHolidays_miss _ _ _ Hmiss).
    fold key. unfold getHolidays_fetch, try_catch, bind. fold url.
    rewrite (fetchWithRetry_exhausted net url (evicted key w) e0 e1 e2 H0 H1 H2).
    unfold console_error, emit, ret, after; simpl. now rewrite <- app_assoc.
Qed.

(** C7, amended.  When a first [getHolidays] call misses the cache, its
    fetch succeeds and the payload normalises, the list is stored; a second
    call for the same country and year made at most 24 hours after the
    insertion returns that list and changes nothing in the world: no
    request is sent. *)
Theorem getHolidays_cached_after_success (countryCode : string) (year : Z)
    (w w' : World) (payload : JsVal) (hs : list Holiday) :
  let key := holidays_key countryCode year in
  let url := holidays_url countryCode year in
  fst (getFromCache key HOLIDAYS_TTL w) = Ok None ->
  fetchWithRetry net url default_maxRetries (evicted key w) = (Ok payload, w') ->
  js_array_map toHoliday payload = Ok hs ->
  let w1 := snd (setCache key (CachedHolidays hs) w') in
  getHolidays net countryCode year w = (Ok hs, w1) /\
  forall d evs, d <= HOLIDAYS_TTL ->
    getHolidays net countryCode year (after w1 d evs) = (Ok hs, after w1 d evs).
Proof.
  intros key url Hmiss Hfetch Hmap w1. split.
  - unfold key. rewrite (getHolidays_miss _ _ _ Hmiss). fold key.
    unfold getHolidays_fetch, try_catch, bind. fold url.
    rewrite Hfetch. unfold lift. rewrite Hmap. reflexivity.
  - intros d evs Hd.
    apply (getHolidays_hit _ _ _ (mkCacheEntry (CachedHolidays hs) (now w'))).
    + unfold w1, after, setCache; simpl. apply lookup_insert_eq.
    + reflexivity.
    + unfold w1, after, setCache; simpl. lia.
Qed.

End HolidayFacts.

(** ** Promises that cannot reject *)

Lemma Promise_all_safe {A} (ps : list (Promise A)) :
  Forall safe ps ->
  forall w, exists l, fst (Promise_all ps w) = Ok l /\ length l = length ps.
Proof.
  induction 1 as [|p ps Hp Hps IH]; intros w; simpl.
  - now exists [].
  - destruct (Hp w) as [a Ha]. destruct (await p w) as [r w1]. simpl in Ha. subst r.
    destruct (IH w1) as (l & Hl & Hlen). destruct (Promise_all ps w1) as [r w2].
    simpl in Hl. subst r. exists (a :: l). simpl. now rewrite Hlen.
Qed.

Lemma Promise_all2_safe {A B} (pa : Promise A) (pb : Promise B) :
  safe pa -> safe pb -> forall w, exists a b, fst (Promise_all2 pa pb w) = Ok (a, b).
Proof.
  intros Ha Hb w. unfold Promise_all2.
  destruct (Ha w) as [a Ea]. destruct (await pa w) as [r w1]. simpl in Ea. subst r.
  destruct (Hb w1) as [b Eb]. destruct (await pb w1) as [r w2]. simpl in Eb. subst r.
  now exists a, b.
Qed.

Lemma Promise_all2_inv {A B} (pa : Promise A) (pb : Promise B) w a b :
  fst (Promise_all2 pa pb w) = Ok (a, b) ->
  fst (await pa w) = Ok a /\ fst (await pb (snd (await pa w))) = Ok b.
Proof.
  unfold Promise_all2. destruct (await pa w) as [[a'|t] w1]; simpl; [|discriminate].
  destruct (await pb w1) as [[b'|t] w2]; simpl; [|discriminate].
  intros [= -> ->]. now split.
Qed.

Lemma start_all_Forall {X A} (call : X -> World -> Promise A * World)
    (P : X -> Promise A -> Prop) :
  (forall x w, P x (fst (call x w))) ->
  forall xs w, Forall2 P xs (fst (start_all call xs w)).
Proof.
  intros Hcall. induction xs as [|x xs IH]; intros w; simpl.
  - constructor.
  - specialize (Hcall x w). destruct (call x w) as [p w1]. specialize (IH w1).
    destruct (start_all call xs w1) as [ps w2]. simpl in *. now constructor.
Qed.

Lemma Promise_all_Forall2 {X A} (P : X -> Promise A -> Prop) (Q : X -> A -> Prop) :
  (forall x p w a, P x p -> fst (await p w) = Ok a -> Q x a) ->
  forall xs ps, Forall2 P xs ps ->
  forall w l, fst (Promise_all ps w) = Ok l -> Forall2 Q xs l.
Proof.
  intros HPQ xs ps H. induction H as [|x p xs ps Hp Hps IH]; intros w l; simpl.
  - intros [= <-]. constructor.
  - destruct (await p w) as [[a|t] w1] eqn:E; [|discriminate].
    destruct (Promise_all ps w1) as [[l'|t] w2] eqn:E'; simpl; [|discriminate].
    intros [= <-]. constructor.
    + apply (HPQ x p w a Hp). now rewrite E.
    + apply (IH w1). now rewrite E'.
Qed.

(** ** The timezone status provider *)

Section ZoneFacts.
Variable net : string -> nat -> Exchange.
Variable Intl_formatToParts : string -> Z -> Res (list Part).

Lemma getZoneStatus_local_never_throws cacheKey zone w :
  exists s, fst (getZoneStatus_local Intl_formatToParts cacheKey zone w) = Ok s.
Proof.
  unfold getZoneStatus_local, try_catch.
  match goal with |- context [match ?m w with _ => _ end] => destruct (m w) as [[s|t] w'] end.
  - now exists s.
  - now exists None.
Qed.

Lemma getZoneStatus_fetch_never_throws cacheKey zone w :
  exists s, fst (getZoneStatus_fetch net Intl_formatToParts cacheKey zone w) = Ok s.
Proof.
  unfold getZoneStatus_fetch, try_catch.
  match goal with |- context [match ?m w with _ => _ end] => destruct (m w) as [[s|t] w'] end.
  - now exists s.
  - apply getZoneStatus_local_never_throws.
Qed.

Lemma getZoneStatus_miss zone w :
  fst (getFromCache (zone_key zone) TIMEZONES_TTL w) = Ok None ->
  getZoneStatus net Intl_formatToParts zone w
  = getZoneStatus_fetch net Intl_formatToParts (zone_key zone) zone
      (evicted (zone_key zone) w).
Proof.
  intros H. unfold getZoneStatus, getZoneStatus_call. fold (zone_key zone).
  now rewrite (getFromCache_miss _ _ _ H).
Qed.

Lemma getZoneStatus_call_safe zone w :
  safe (fst (getZoneStatus_call net Intl_formatToParts zone w)).
Proof.
  unfold getZoneStatus_call.
  destruct (getFromCache _ TIMEZONES_TTL w) as [[[[hs|zs]|]|t] w1]; simpl; intros w2;
    try apply getZoneStatus_fetch_never_throws.
  now exists (Some zs).
Qed.

Lemma getHolidays_call_safe countryCode year w :
  safe (fst (getHolidays_call net countryCode year w)).
Proof.
  unfold getHolidays_call.
  destruct (getFromCache _ HOLIDAYS_TTL w) as [[[[hs|zs]|]|t] w1]; simpl; intros w2;
    try apply getHolidays_fetch_never_throws.
  now exists hs.
Qed.

(** The local fallback, run at a world where the live service has just
    failed. *)
Lemma getZoneStatus_local_eq cacheKey zone w :
  getZoneStatus_local Intl_formatToParts cacheKey zone w =
  match Intl_formatToParts zone (now w) with
  | Ok parts =>
      match timeZoneName_part parts with
      | Some offsetPart =>
          let zoneStatus :=
            mkZoneStatus (JStr zone)
              (JStr (replace_first "GMT" "" (part_value offsetPart))) (JBool false) in
          (Ok (Some zoneStatus),
           mkWorld (<[cacheKey := mkCacheEntry (CachedZone zoneStatus) (now w)]> (cache w))
             (now w) (trace w))
      | None => (Ok None, w)
      end
  | Throw _ =>
      (Ok None, after w 0 [LogError ("Error getting zone status for " +:+ zone +:+ ":")])
  end.
Proof.
  unfold getZoneStatus_local, try_catch, bind, Date_now, lift, timeZoneName_part.
  destruct (Intl_formatToParts zone (now w)) as [parts|t].
  - destruct (List.find _ parts); reflexivity.
  - unfold console_error, emit, ret, after; simpl. now rewrite Z.add_0_r.
Qed.

End ZoneFacts.

Lemma offsetOverlaps_nil_l B : offsetOverlaps [] B = [].
Proof. reflexivity. Qed.

Lemma offsetOverlaps_nil_r A : offsetOverlaps A [] = [].
Proof.
  unfold offsetOverlaps. rewrite offsetOverlaps_from. simpl.
  induction A as [|[o zA] A IH]; simpl; auto.
Qed.

Section EngineFacts.
Variable net : string -> nat -> Exchange.
Variable Intl_formatToParts : string -> Z -> Res (list Part).

Lemma start_zone_calls zones w :
  Forall2 (fun _ p => safe p)
    zones (fst (start_all (getZoneStatus_call net Intl_formatToParts) zones w)).
Proof. apply start_all_Forall. intros z w1. apply getZoneStatus_call_safe. Qed.

Lemma Forall2_safe {X A} (xs : list X) (ps : list (Promise A)) :
  Forall2 (fun _ p => safe p) xs ps -> Forall safe ps.
Proof. induction 1; constructor; assumption. Qed.

(** [compareCountries] is its three stages: the holiday lists, the
    statuses, and the report made of them. *)
Lemma compareCountries_stages countryA countryB year w :
  compareCountries net Intl_formatToParts countryA countryB year w
  = (do '(holidaysA, holidaysB) <- awaitHolidays net countryA countryB year;
     do '(statusesA, statusesB) <- awaitStatuses net Intl_formatToParts countryA countryB;
     ret (mkComparisonResult (mkInputs countryA countryB year)
            (compareHolidays holidaysA holidaysB)
            (compareTimezones statusesA statusesB))) w.
Proof.
  unfold compareCountries, awaitHolidays, awaitStatuses, bind, lift. cbv beta.
  destruct (getHolidays_call net countryA year w) as [pA w1].
  destruct (getHolidays_call net countryB year w1) as [pB w2].
  destruct (Promise_all2 pA pB w2) as [[[hA hB]|t] w3]; [|reflexivity].
  destruct (zones_array (getTimezones countryA)) as [zonesA|t]; [|reflexivity].
  destruct (start_all _ zonesA w3) as [psA w4].
  destruct (zones_array (getTimezones countryB)) as [zonesB|t]; [|reflexivity].
  destruct (start_all _ zonesB w4) as [psB w6].
  destruct (Promise_all2 _ _ w6) as [[[sA sB]|t] w7]; reflexivity.
Qed.

Lemma awaitHolidays_ok countryA countryB year w :
  exists holidaysA holidaysB,
    fst (awaitHolidays net countryA countryB year w) = Ok (holidaysA, holidaysB).
Proof.
  unfold awaitHolidays.
  pose proof (getHolidays_call_safe net countryA year w) as SA.
  destruct (getHolidays_call net countryA year w) as [pA w1].
  pose proof (getHolidays_call_safe net countryB year w1) as SB.
  destruct (getHolidays_call net countryB year w1) as [pB w2]. simpl in SA, SB.
  apply (Promise_all2_safe pA pB SA SB).
Qed.

Lemma awaitStatuses_ok countryA countryB zonesA zonesB w :
  getTimezones countryA = ZoneList zonesA ->
  getTimezones countryB = ZoneList zonesB ->
  exists statusesA statusesB,
    fst (awaitStatuses net Intl_formatToParts countryA countryB w)
    = Ok (statusesA, statusesB) /\
    length statusesA = length zonesA /\
    length statusesB = length zonesB.
Proof.
  intros HA HB. unfold awaitStatuses, bind, lift. rewrite HA, HB. simpl.
  pose proof (start_zone_calls zonesA w) as FA.
  destruct (start_all _ zonesA w) as [psA w4].
  pose proof (start_zone_calls zonesB w4) as FB.
  destruct (start_all _ zonesB w4) as [psB w6]. simpl in FA, FB.
  assert (SpA : safe (Pending (Promise_all psA))).
  { intros w'. destruct (Promise_all_safe psA (Forall2_safe _ _ FA) w') as (l & Hl & _).
    now exists l. }
  assert (SpB : safe (Pending (Promise_all psB))).
  { intros w'. destruct (Promise_all_safe psB (Forall2_safe _ _ FB) w') as (l & Hl & _).
    now exists l. }
  destruct (Promise_all2_safe _ _ SpA SpB w6) as (sA & sB & E).
  pose proof (Promise_all2_inv _ _ _ _ _ E) as [EA EB]. simpl in EA, EB.
  exists sA, sB. split; [exact E|]. split.
  - destruct (Promise_all_safe psA (Forall2_safe _ _ FA) w6) as (l & Hl & Hlen).
    rewrite EA in Hl. injection Hl as <-. rewrite Hlen. symmetry.
    apply (Forall2_length _ _ _ FA).
  - destruct (Promise_all_safe psB (Forall2_safe _ _ FB) (snd (Promise_all psA w6)))
      as (l & Hl & Hlen).
    rewrite EB in Hl. injection Hl as <-. rewrite Hlen. symmetry.
    apply (Forall2_length _ _ _ FB).
Qed.

(** The stages of a run between two codes that have zone lists: none
    throws, and the result is the report of what they resolve to. *)
Lemma compareCountries_run countryA countryB year w zonesA zonesB :
  getTimezones countryA = ZoneList zonesA ->
  getTimezones countryB = ZoneList zonesB ->
  exists holidaysA holidaysB statusesA statusesB,
    fst (awaitHolidays net countryA countryB year w) = Ok (holidaysA, holidaysB) /\
    fst (awaitStatuses net Intl_formatToParts countryA countryB
           (snd (awaitHolidays net countryA countryB year w)))
    = Ok (statusesA, statusesB) /\
    fst (compareCountries net Intl_formatToParts countryA countryB year w)
    = Ok (mkComparisonResult (mkInputs countryA countryB year)
            (compareHolidays holidaysA holidaysB)
            (compareTimezones statusesA statusesB)) /\
    length statusesA = length zonesA /\
    length statusesB = length zonesB.
Proof.
  intros HA HB.
  destruct (awaitHolidays_ok countryA countryB year w) as (hA & hB & EH).
  destruct (awaitStatuses_ok countryA countryB zonesA zonesB
              (snd (awaitHolidays net countryA countryB year w)) HA HB)
    as (sA & sB & ES & LA & LB).
  exists hA, hB, sA, sB. split; [exact EH|]. split; [exact ES|]. split; [|now split].
  rewrite compareCountries_stages. unfold bind at 1.
  destruct (awaitHolidays net countryA countryB year w) as [rh w3].
  simpl in EH, ES. subst rh. unfold bind.
  destruct (awaitStatuses net Intl_formatToParts countryA countryB w3) as [rs w7].
  simpl in ES. subst rs. reflexivity.
Qed.

Lemma compareCountries_ok countryA countryB year w zonesA zonesB :
  getTimezones countryA = ZoneList zonesA ->
  getTimezones countryB = ZoneList zonesB ->
  exists holidaysA holidaysB statusesA statusesB,
    fst (compareCountries net Intl_formatToParts countryA countryB year w)
    = Ok (mkComparisonResult (mkInputs countryA countryB year)
            (compareHolidays holidaysA holidaysB)
            (compareTimezones statusesA statusesB)) /\
    length statusesA = length zonesA /\
    length statusesB = length zonesB.
Proof.
  intros HA HB.
  destruct (compareCountries_run countryA countryB year w zonesA zonesB HA HB)
    as (hA & hB & sA & sB & _ & _ & E & LA & LB).
  now exists hA, hB, sA, sB.
Qed.

Lemma compareCountries_inv countryA countryB year w r :
  fst (compareCountries net Intl_formatToParts countryA countryB year w) = Ok r ->
  exists zonesA zonesB,
    getTimezones countryA = ZoneList zonesA /\ getTimezones countryB = ZoneList zonesB.
Proof.
  unfold compareCountries.
  destruct (getHolidays_call net countryA year w) as [pA w1].
  destruct (getHolidays_call net countryB year w1) as [pB w2].
  unfold bind. destruct (Promise_all2 pA pB w2) as [[[hA hB]|t] w3]; [|discriminate].
  unfold lift.
  destruct (getTimezones countryA) as [zonesA|mA]; simpl; [|discriminate].
  destruct (start_all _ zonesA w3) as [psA w4].
  destruct (getTimezones countryB) as [zonesB|mB]; simpl; [|discriminate].
  intros _. now exists zonesA, zonesB.
Qed.

(** Every result of [compareCountries] is the report of the holiday lists
    and of the statuses that the calls of the run resolved to. *)
Lemma compareCountries_result countryA countryB year w r :
  fst (compareCountries net Intl_formatToParts countryA countryB year w) = Ok r ->
  exists zonesA zonesB holidaysA holidaysB statusesA statusesB,
    getTimezones countryA = ZoneList zonesA /\
    getTimezones countryB = ZoneList zonesB /\
    r = mkComparisonResult (mkInputs countryA countryB year)
          (compareHolidays holidaysA holidaysB)
          (compareTimezones statusesA statusesB) /\
    length statusesA = length zonesA /\
    length statusesB = length zonesB.
Proof.
  intros H. destruct (compareCountries_inv _ _ _ _ _ H) as (zA & zB & HA & HB).
  destruct (compareCountries_ok countryA countryB year w zA zB HA HB)
    as (hA & hB & sA & sB & E & FA & FB).
  rewrite E in H. injection H as <-.
  now exists zA, zB, hA, hB, sA, sB.
Qed.

(** The same, with the lists and statuses named as the stages of the run
    give them. *)
Lemma compareCountries_result_run countryA countryB year w r :
  fst (compareCountries net Intl_formatToParts countryA countryB year w) = Ok r ->
  exists zonesA zonesB holidaysA holidaysB statusesA statusesB,
    getTimezones countryA = ZoneList zonesA /\
    getTimezones countryB = ZoneList zonesB /\
    fst (awaitHolidays net countryA countryB year w) = Ok (holidaysA, holidaysB) /\
    fst (awaitStatuses net Intl_formatToParts countryA countryB
           (snd (awaitHolidays net countryA countryB year w)))
    = Ok (statusesA, statusesB) /\
    r = mkComparisonResult (mkInputs countryA countryB year)
          (compareHolidays holidaysA holidaysB)
          (compareTimezones statusesA statusesB) /\
    length statusesA = length zonesA /\
    length statusesB = length zonesB.
Proof.
  intros H. destruct (compareCountries_inv _ _ _ _ _ H) as (zA & zB & HA & HB).
  destruct (compareCountries_run countryA countryB year w zA zB HA HB)
    as (hA & hB & sA & sB & EH & ES & E & LA & LB).
  rewrite E in H. injection H as <-.
  now exists zA, zB, hA, hB, sA, sB.
Qed.

End EngineFacts.

(** ** The cache holds each kind of value under its own namespace *)

Lemma well_typed_delete key c : cache_well_typed c -> cache_well_typed (delete key c).
Proof.
  intros H k e Hk. apply lookup_delete_Some in Hk as [_ Hk]. now apply H.
Qed.

Lemma well_typed_insert key entry c :
  cache_well_typed c ->
  match data entry with
  | CachedHolidays _ => String.prefix "holidays:" key = true
  | CachedZone _ => String.prefix "zone:" key = true
  end ->
  cache_well_typed (<[key := entry]> c).
Proof.
  intros H He k e Hk. apply lookup_insert_Some in Hk as [[<- <-]|[_ Hk]]; [exact He|].
  now apply H.
Qed.

Lemma getFromCache_well_typed key ttl w :
  cache_well_typed (cache w) -> cache_well_typed (cache (snd (getFromCache key ttl w))).
Proof.
  intros H. unfold getFromCache. destruct (cache w !! key) as [entry|]; [|exact H].
  destruct (now w - timestamp entry >? ttl); [|exact H]. now apply well_typed_delete.
Qed.

Lemma holidays_key_namespace countryCode year :
  String.prefix "holidays:" (holidays_key countryCode year) = true.
Proof.
  unfold holidays_key, getCacheKey. simpl.
  now destruct ("" +:+ countryCode +:+ ":" +:+ year_toString year).
Qed.

Lemma zone_key_namespace zone : String.prefix "zone:" (zone_key zone) = true.
Proof. unfold zone_key, getCacheKey. simpl. now destruct ("" +:+ zone). Qed.

Lemma holidays_key_not_zone countryCode year :
  String.prefix "zone:" (holidays_key countryCode year) = false.
Proof. reflexivity. Qed.

Lemma zone_key_not_holidays zone :
  String.prefix "holidays:" (zone_key zone) = false.
Proof. reflexivity. Qed.

Section CacheFrame.
Variable net : string -> nat -> Exchange.
Variable Intl_formatToParts : string -> Z -> Res (list Part).

Lemma attempt_cache url w : cache (snd (attempt net url w)) = cache w.
Proof.
  unfold attempt, bind, fetch.
  destruct (reply (net url (requests_to url (trace w)))) as [reason|status statusText body];
    simpl; [reflexivity|].
  destruct (response_ok status); simpl; [|reflexivity]. now destruct body.
Qed.

Lemma fetchWithRetry_loop_cache url maxRetries remaining i lastError w :
  cache (snd (fetchWithRetry_loop net url maxRetries remaining i lastError w)) = cache w.
Proof.
  revert i lastError w. induction remaining as [|remaining IH]; intros i lastError w;
    simpl; [reflexivity|].
  unfold try_catch. pose proof (attempt_cache url w) as H.
  destruct (attempt net url w) as [[v|t] w1]; simpl in *; [exact H|].
  unfold bind. destruct (i <? maxRetries)%nat; simpl; rewrite IH; exact H.
Qed.

Lemma fetchWithRetry_cache url maxRetries w :
  cache (snd (fetchWithRetry net url maxRetries w)) = cache w.
Proof. apply fetchWithRetry_loop_cache. Qed.

(** Under a well-typed cache the lookup of [getHolidays] meets holiday
    lists only, and the call leaves the cache well typed. *)
Lemma getHolidays_well_typed countryCode year w :
  cache_well_typed (cache w) ->
  (forall zs, fst (getFromCache (holidays_key countryCode year) HOLIDAYS_TTL w)
              <> Ok (Some (CachedZone zs))) /\
  cache_well_typed (cache (snd (getHolidays net countryCode year w))).
Proof.
  intros H. split.
  - intros zs E. unfold getFromCache in E.
    destruct (cache w !! holidays_key countryCode year) as [entry|] eqn:Hk; [|discriminate].
    destruct (now w - timestamp entry >? HOLIDAYS_TTL); [discriminate|].
    injection E as E. apply H in Hk. rewrite E, holidays_key_not_zone in Hk. discriminate.
  - unfold getHolidays, getHolidays_call. fold (holidays_key countryCode year).
    pose proof (getFromCache_well_typed (holidays_key countryCode year) HOLIDAYS_TTL w H) as H1.
    destruct (getFromCache (holidays_key countryCode year) HOLIDAYS_TTL w) as [r w1].
    simpl in H1.
    assert (F : cache_well_typed
                  (cache (snd (getHolidays_fetch net (holidays_key countryCode year)
                                 countryCode year w1)))).
    { unfold getHolidays_fetch, try_catch, bind.
      pose proof (fetchWithRetry_cache (holidays_url countryCode year) default_maxRetries w1) as C.
      destruct (fetchWithRetry net _ default_maxRetries w1) as [[payload|t] w2]; simpl in C.
      - unfold lift. destruct (js_array_map toHoliday payload) as [hs|t]; simpl.
        + apply well_typed_insert; [now rewrite C | apply holidays_key_namespace].
        + now rewrite C.
      - simpl. now rewrite C. }
    destruct r as [[[hs|zs]|]|t]; simpl; try exact F. exact H1.
Qed.

Lemma getZoneStatus_well_typed zone w :
  cache_well_typed (cache w) ->
  (forall hs, fst (getFromCache (zone_key zone) TIMEZONES_TTL w)
              <> Ok (Some (CachedHolidays hs))) /\
  cache_well_typed (cache (snd (getZoneStatus net Intl_formatToParts zone w))).
Proof.
  intros H. split.
  - intros hs E. unfold getFromCache in E.
    destruct (cache w !! zone_key zone) as [entry|] eqn:Hk; [|discriminate].
    destruct (now w - timestamp entry >? TIMEZONES_TTL); [discriminate|].
    injection E as E. apply H in Hk. rewrite E, zone_key_not_holidays in Hk. discriminate.
  - unfold getZoneStatus, getZoneStatus_call. fold (zone_key zone).
    pose proof (getFromCache_well_typed (zone_key zone) TIMEZONES_TTL w H) as H1.
    destruct (getFromCache (zone_key zone) TIMEZONES_TTL w) as [r w1]. simpl in H1.
    assert (L : forall w2, cache_well_typed (cache w2) ->
                cache_well_typed
                  (cache (snd (getZoneStatus_local Intl_formatToParts (zone_key zone) zone w2)))).
    { intros w2 H2. rewrite getZoneStatus_local_eq.
      destruct (Intl_formatToParts zone (now w2)) as [parts|t]; [|exact H2].
      destruct (timeZoneName_part parts); [|exact H2].
      simpl. apply well_typed_insert; [exact H2 | apply zone_key_namespace]. }
    assert (F : cache_well_typed
                  (cache (snd (getZoneStatus_fetch net Intl_formatToParts (zone_key zone)
                                 zone w1)))).
    { unfold getZoneStatus_fetch, try_catch, bind.
      pose proof (fetchWithRetry_cache (zone_url zone) default_maxRetries w1) as C.
      destruct (fetchWithRetry net _ default_maxRetries w1) as [[payload|t] w2]; simpl in C.
      - unfold lift. destruct (toZoneStatus payload) as [zs|t]; simpl.
        + apply well_typed_insert; [now rewrite C | apply zone_key_namespace].
        + apply L. now rewrite C.
      - apply L. now rewrite C. }
    destruct r as [[[hs|zs]|]|t]; simpl; try exact F. exact H1.
Qed.

End CacheFrame.

Lemma length_two_not_inherited (countryCode : string) :
  String.length countryCode = 2%nat ->
  existsb (String.eqb countryCode) Object_prototype_members = false.
Proof.
  intros Hlen. destruct (existsb _ Object_prototype_members) eqn:E; [|reflexivity].
  apply existsb_exists in E as (member & Hin & Heq).
  apply String.eqb_eq in Heq. subst member. unfold Object_prototype_members in Hin.
  simpl in Hin. repeat (destruct Hin as [<-|Hin]; [discriminate Hlen|]). destruct Hin.
Qed.

Lemma In_omap_id {X} (l : list (option X)) (x : X) :
  In x (omap id l) <-> In (Some x) l.
Proof.
  induction l as [|[y|] l IH]; simpl; [tauto | |].
  - rewrite IH. split; intros [H|H]; auto; left; congruence.
  - rewrite IH. split; [auto | intros [H|H]; [discriminate | exact H]].
Qed.

Section Claims.
Variable net : string -> nat -> Exchange.
Variable Intl_formatToParts : string -> Z -> Res (list Part).

(** C1.  In every result of [compareCountries], [holidays] is the partition
    of the two lists that the [getHolidays] calls of the run resolved to,
    [holidaysA] for [countryA] and [holidaysB] for [countryB].  With each
    side reduced to one entry per date key (as [new Map] does): the dates
    of [common] followed by those of [onlyA] hold no date twice, likewise
    [common] followed by [onlyB]; a date is in [common] exactly when both
    lists have it, in [onlyA] exactly when only [holidaysA] has it, in
    [onlyB] exactly when only [holidaysB] has it; and
    [common.length + onlyA.length] is the number of distinct dates of
    [holidaysA], [common.length + onlyB.length] that of [holidaysB].  Date
    keys are compared as [Map] compares primitive values. *)
Theorem compareCountries_holidays_partition (countryA countryB : string) (year : Z)
    (w : World) (r : ComparisonResult) :
  fst (compareCountries net Intl_formatToParts countryA countryB year w) = Ok r ->
  exists holidaysA holidaysB,
    fst (awaitHolidays net countryA countryB year w) = Ok (holidaysA, holidaysB) /\
    holidays r = compareHolidays holidaysA holidaysB /\
    let datesA := map date holidaysA in
    let datesB := map date holidaysB in
    let c := map common_date (common (holidays r)) in
    let a := map date (onlyA (holidays r)) in
    let b := map date (onlyB (holidays r)) in
    NoDup (c ++ a) /\ NoDup (c ++ b) /\
    (forall d, In d c <-> In d datesA /\ In d datesB) /\
    (forall d, In d a <-> In d datesA /\ ~ In d datesB) /\
    (forall d, In d b <-> In d datesB /\ ~ In d datesA) /\
    (length (common (holidays r)) + length (onlyA (holidays r))
     = length (remove_dups datesA))%nat /\
    (length (common (holidays r)) + length (onlyB (holidays r))
     = length (remove_dups datesB))%nat.
Proof.
  intros H. apply compareCountries_result_run in H
    as (zA & zB & hA & hB & sA & sB & _ & _ & EH & _ & -> & _ & _).
  exists hA, hB. split; [exact EH|]. split; [reflexivity|].
  cbn [holidays]. exact (compareHolidays_partition hA hB).
Qed.

(** C2.  In every result of [compareCountries], [overlaps] has no offset
    twice; an offset is listed exactly when it is a key of both offset
    groupings, that is, when a status of [timezones.A] and a status of
    [timezones.B] carry it; the entry of an offset holds the
    zones of all the statuses of each side that carry it; and [hasOverlap]
    is true exactly when [overlaps] is not empty. *)
Theorem compareCountries_overlaps (countryA countryB : string) (year : Z)
    (w : World) (r : ComparisonResult) :
  fst (compareCountries net Intl_formatToParts countryA countryB year w) = Ok r ->
  let t := timezones r in
  let ov := overlaps (commonOffsetNow t) in
  NoDup (map offset ov) /\
  (forall o, In o (map offset ov)
             <-> In o (keys (offsetMap (tzA t))) /\ In o (keys (offsetMap (tzB t)))) /\
  (forall o, In o (map offset ov)
             <-> In o (map utc_offset (tzA t)) /\ In o (map utc_offset (tzB t))) /\
  (forall e, In e ov ->
     zonesA e = zones_at (offset e) (tzA t) /\
     zonesB e = zones_at (offset e) (tzB t)) /\
  (hasOverlap (commonOffsetNow t) = true <-> ov <> []).
Proof.
  intros H. apply compareCountries_result in H
    as (zA & zB & hA & hB & sA & sB & _ & _ & -> & _ & _).
  apply compareTimezones_overlaps.
Qed.

(** C8.  When the lookup misses the cache and the three attempts on the live
    time service all fail, [getZoneStatus] resolves to the status computed
    locally, whose [dst] is [false], when the runtime names the zone's
    offset; it resolves to absent, without throwing, when the runtime gives
    no [timeZoneName] part or rejects the zone.  And in every result of
    [compareCountries], [timezones.A] and [timezones.B] are the statuses
    that the [getZoneStatus] calls of the run resolved to, one call per
    zone of the country, with the absent ones left out and every other one
    kept, in order. *)
Theorem getZoneStatus_fallback :
  (forall (zone : string) (w : World) (e0 e1 e2 : Error),
     let key := zone_key zone in
     let url := zone_url zone in
     let n := requests_to url (trace w) in
     let w' := after (evicted key w)
                 (elapsed (net url n) + 1000 + elapsed (net url (n + 1)) + 2000
                  + elapsed (net url (n + 2)))
                 [Fetch url; Sleep 1000; Fetch url; Sleep 2000; Fetch url] in
     fst (getFromCache key TIMEZONES_TTL w) = Ok None ->
     fails (net url n) e0 -> fails (net url (n + 1)) e1 -> fails (net url (n + 2)) e2 ->
     (forall parts offsetPart,
        Intl_formatToParts zone (now w') = Ok parts ->
        timeZoneName_part parts = Some offsetPart ->
        fst (getZoneStatus net Intl_formatToParts zone w)
        = Ok (Some (mkZoneStatus (JStr zone)
                      (JStr (replace_first "GMT" "" (part_value offsetPart)))
                      (JBool false)))) /\
     (forall parts,
        Intl_formatToParts zone (now w') = Ok parts ->
        timeZoneName_part parts = None ->
        getZoneStatus net Intl_formatToParts zone w = (Ok None, w')) /\
     (forall t,
        Intl_formatToParts zone (now w') = Throw t ->
        getZoneStatus net Intl_formatToParts zone w
        = (Ok None,
           after w' 0 [LogError ("Error getting zone status for " +:+ zone +:+ ":")])))
  /\
  (forall (countryA countryB : string) (year : Z) (w : World) (r : ComparisonResult),
     fst (compareCountries net Intl_formatToParts countryA countryB year w) = Ok r ->
     exists zonesA zonesB statusesA statusesB,
       getTimezones countryA = ZoneList zonesA /\
       getTimezones countryB = ZoneList zonesB /\
       fst (awaitStatuses net Intl_formatToParts countryA countryB
              (snd (awaitHolidays net countryA countryB year w)))
       = Ok (statusesA, statusesB) /\
       length statusesA = length zonesA /\
       length statusesB = length zonesB /\
       tzA (timezones r) = omap id statusesA /\
       tzB (timezones r) = omap id statusesB /\
       (forall s, In s (tzA (timezones r)) <-> In (Some s) statusesA) /\
       (forall s, In s (tzB (timezones r)) <-> In (Some s) statusesB)).
Proof.
  split.
  - intros zone w e0 e1 e2 key url n w' Hmiss H0 H1 H2.
    assert (E : getZoneStatus net Intl_formatToParts zone w
                = getZoneStatus_local Intl_formatToParts key zone w').
    { unfold key. rewrite (getZoneStatus_miss _ _ _ _ Hmiss). fold key.
      unfold getZoneStatus_fetch, try_catch, bind. fold url.
      now rewrite (fetchWithRetry_exhausted net url (evicted key w) e0 e1 e2 H0 H1 H2). }
    rewrite E, getZoneStatus_local_eq. split; [|split].
    + intros parts p -> ->. reflexivity.
    + intros parts -> ->. reflexivity.
    + intros t ->. reflexivity.
  - intros countryA countryB year w r H.
    apply compareCountries_result_run in H
      as (zA & zB & hA & hB & sA & sB & HA & HB & _ & ES & -> & LA & LB).
    exists zA, zB, sA, sB. cbn [timezones compareTimezones tzA tzB].
    unfold validStatuses.
    split; [exact HA|]. split; [exact HB|]. split; [exact ES|].
    split; [exact LA|]. split; [exact LB|]. split; [reflexivity|].
    split; [reflexivity|]. split; intros s; apply In_omap_id.
Qed.

(** Where the lookup meets no inherited member, [getTimezones] returns the
    table's entry, or the empty list when the table has none; and
    [compareCountries] then returns a result, in which a code without entry
    has an empty status list and no offset overlaps. *)
Lemma getTimezones_total :
  (forall countryCode,
     existsb (String.eqb countryCode) Object_prototype_members = false ->
     exists zones,
       getTimezones countryCode = ZoneList zones /\
       zones = default [] (own_property countryCode COUNTRY_TIMEZONES) /\
       (own_property countryCode COUNTRY_TIMEZONES = None -> zones = [])) /\
  (forall countryA countryB year w,
     existsb (String.eqb countryA) Object_prototype_members = false ->
     existsb (String.eqb countryB) Object_prototype_members = false ->
     exists r,
       fst (compareCountries net Intl_formatToParts countryA countryB year w) = Ok r /\
       (own_property countryA COUNTRY_TIMEZONES = None ->
          tzA (timezones r) = [] /\
          commonOffsetNow (timezones r) = mkCommonOffsetNow false []) /\
       (own_property countryB COUNTRY_TIMEZONES = None ->
          tzB (timezones r) = [] /\
          commonOffsetNow (timezones r) = mkCommonOffsetNow false [])).
Proof.
  assert (T : forall countryCode,
     existsb (String.eqb countryCode) Object_prototype_members = false ->
     exists zones,
       getTimezones countryCode = ZoneList zones /\
       zones = default [] (own_property countryCode COUNTRY_TIMEZONES) /\
       (own_property countryCode COUNTRY_TIMEZONES = None -> zones = [])).
  { intros c Hc. unfold getTimezones.
    destruct (own_property c COUNTRY_TIMEZONES) as [zones|].
    - exists zones. split; [reflexivity|]. split; [reflexivity | discriminate].
    - rewrite Hc. now exists []. }
  split; [exact T|].
  intros a b year w Ha Hb.
  destruct (T a Ha) as (zA & HA & _ & NA). destruct (T b Hb) as (zB & HB & _ & NB).
  destruct (compareCountries_ok net Intl_formatToParts a b year w zA zB HA HB)
    as (hA & hB & sA & sB & E & FA & FB).
  eexists. split; [exact E|]. cbn [timezones]. split.
  - intros Hnone. rewrite (NA Hnone) in FA. destruct sA; [|discriminate].
    split; reflexivity.
  - intros Hnone. rewrite (NB Hnone) in FB. destruct sB; [|discriminate].
    unfold compareTimezones. cbn [tzB commonOffsetNow validStatuses omap list_omap].
    change (offsetMap []) with (@nil (JsVal * list JsVal)).
    rewrite offsetOverlaps_nil_r. split; reflexivity.
Qed.

End Claims.

(** ** The theorems at sample inputs *)

(** The table as transcribed: 194 countries, 29 zones for the United
    States, one for Colombia. *)
Lemma COUNTRY_TIMEZONES_sample :
  length COUNTRY_TIMEZONES = 194%nat /\
  (exists zones, getTimezones "US" = ZoneList zones /\ length zones = 29%nat) /\
  getTimezones "CO" = ZoneList ["America/Bogota"].
Proof.
  split; [reflexivity|]. split; [|reflexivity].
  eexists. split; reflexivity.
Qed.

Lemma compareCountries_overlaps_witness :
  exists r,
    fst (compareCountries net_sample Intl_sample "CO" "PE" 2025 world0) = Ok r /\
    overlaps (commonOffsetNow (timezones r))
    = [mkOverlap (JStr "-05:00") [JStr "America/Bogota"] [JStr "America/Lima"]] /\
    NoDup (map offset (overlaps (commonOffsetNow (timezones r)))) /\
    (hasOverlap (commonOffsetNow (timezones r)) = true
     <-> overlaps (commonOffsetNow (timezones r)) <> []).
Proof.
  eexists. split; [vm_compute; reflexivity|]. split; [reflexivity|].
  refine (let H := compareCountries_overlaps net_sample Intl_sample "CO" "PE" 2025 world0 _ _ in _).
  Unshelve. 3:{ vm_compute; reflexivity. }
  destruct H as (H1 & _ & _ & _ & H4). split; [exact H1 | exact H4].
Defined.

Lemma compareCountries_holidays_partition_witness :
  exists r,
    fst (compareCountries net_sample Intl_sample "CO" "PE" 2025 world0) = Ok r /\
    exists holidaysA holidaysB,
      fst (awaitHolidays net_sample "CO" "PE" 2025 world0) = Ok (holidaysA, holidaysB) /\
      map date holidaysA = [JStr "2025-01-01"; JStr "2025-07-20"] /\
      map date holidaysB = [JStr "2025-01-01"; JStr "2025-07-28"] /\
      holidays r = compareHolidays holidaysA holidaysB /\
      map common_date (common (holidays r)) = [JStr "2025-01-01"] /\
      map date (onlyA (holidays r)) = [JStr "2025-07-20"] /\
      map date (onlyB (holidays r)) = [JStr "2025-07-28"] /\
      (length (common (holidays r)) + length (onlyA (holidays r))
       = length (remove_dups (map date holidaysA)))%nat.
Proof.
  eexists. split; [vm_compute; reflexivity|].
  refine (let H := compareCountries_holidays_partition net_sample Intl_sample
                     "CO" "PE" 2025 world0 _ _ in _).
  Unshelve. 3:{ vm_compute; reflexivity. }
  destruct H as (hA & hB & EH & EP & _ & _ & _ & _ & _ & LA & _).
  exists hA, hB. split; [exact EH|].
  assert (EH' := EH). vm_compute in EH'. injection EH' as <- <-.
  split; [reflexivity|]. split; [reflexivity|]. split; [exact EP|].
  split; [reflexivity|]. split; [reflexivity|]. split; [reflexivity|]. exact LA.
Defined.

Lemma fetchWithRetry_policy_witness :
  let url := holidays_url "CO" 2025 in
  fails (net_flaky url 0) (HttpError 503 "Service Unavailable") /\
  fails (net_flaky url 1) (HttpError 503 "Service Unavailable") /\
  succeeds (net_flaky url 2) sample_payload_CO /\
  fetchWithRetry net_flaky url default_maxRetries world0
  = (Ok sample_payload_CO,
     after world0 3120 [Fetch url; Sleep 1000; Fetch url; Sleep 2000; Fetch url]).
Proof.
  intros url.
  assert (H0 : fails (net_flaky url 0) (HttpError 503 "Service Unavailable"))
    by (apply fails_status; reflexivity).
  assert (H1 : fails (net_flaky url 1) (HttpError 503 "Service Unavailable"))
    by (apply fails_status; reflexivity).
  assert (H2 : succeeds (net_flaky url 2) sample_payload_CO)
    by (apply succeeds_json; reflexivity).
  split; [exact H0|]. split; [exact H1|]. split; [exact H2|].
  exact (proj1 (proj2 (proj2 (fetchWithRetry_policy net_flaky url world0))) _ _ _ H0 H1 H2).
Defined.

Lemma getHolidays_never_fails_witness :
  let key := holidays_key "XX" 2025 in
  let url := holidays_url "XX" 2025 in
  fst (getFromCache key HOLIDAYS_TTL world0) = Ok None /\
  fails (net_down url 0) (NetworkError "fetch failed") /\
  getHolidays net_down "XX" 2025 world0
  = (Ok [],
     after (evicted key world0) 3090
       [Fetch url; Sleep 1000; Fetch url; Sleep 2000; Fetch url;
        LogError "Error fetching holidays for XX:"]).
Proof.
  intros key url.
  assert (Hmiss : fst (getFromCache key HOLIDAYS_TTL world0) = Ok None) by reflexivity.
  assert (H : forall n, fails (net_down url n) (NetworkError "fetch failed"))
    by (intros n; apply fails_transport).
  split; [exact Hmiss|]. split; [apply H|].
  exact (proj2 (getHolidays_never_fails net_down "XX" 2025 world0) _ _ _ Hmiss (H _) (H _) (H _)).
Defined.

(** C5, as stated, fails: in a process started with the credential of a
    secondary provider, with the primary source out of service on all
    three attempts and the secondary host ready to answer,
    [getHolidays("CO", 2025)] returns the empty list without having
    consulted the secondary provider: its three requests went to the
    primary source and none to the other host. *)
Lemma getHolidays_without_secondary_provider :
  let primary := holidays_url "CO" 2025 in
  let secondary := "https://calendarific.com/api/v2/holidays" in
  let run := started_with env_with_credential
               (getHolidays net_primary_down "CO" 2025) world0 in
  configured "CALENDARIFIC_KEY" env_with_credential = true /\
  fails (net_primary_down primary 0) (HttpError 503 "Service Unavailable") /\
  fails (net_primary_down primary 1) (HttpError 503 "Service Unavailable") /\
  fails (net_primary_down primary 2) (HttpError 503 "Service Unavailable") /\
  succeeds (net_primary_down secondary 0) sample_payload_CO /\
  fst run = Ok [] /\
  trace (snd run)
  = [Fetch primary; Sleep 1000; Fetch primary; Sleep 2000; Fetch primary;
     LogError "Error fetching holidays for CO:"] /\
  requests_to secondary (trace (snd run)) = 0%nat.
Proof.
  intros primary secondary run.
  split; [reflexivity|].
  split; [apply fails_status; reflexivity|].
  split; [apply fails_status; reflexivity|].
  split; [apply fails_status; reflexivity|].
  split; [apply succeeds_json; reflexivity|].
  split; [vm_compute; reflexivity|].
  split; vm_compute; reflexivity.
Qed.

Lemma cache_round_trip_witness :
  let key := holidays_key "CO" 2025 in
  let v := CachedHolidays sample_holidays_CO in
  let w1 := snd (setCache key v world0) in
  3600000 <= HOLIDAYS_TTL /\
  getFromCache key HOLIDAYS_TTL (after w1 3600000 [])
  = (Ok (Some v), after w1 3600000 []) /\
  86400001 > HOLIDAYS_TTL /\
  getFromCache key HOLIDAYS_TTL (after w1 86400001 [])
  = (Ok None, evicted key (after w1 86400001 [])).
Proof.
  intros key v w1.
  assert (Hle : 3600000 <= HOLIDAYS_TTL) by (vm_compute; discriminate).
  assert (Hgt : 86400001 > HOLIDAYS_TTL) by reflexivity.
  split; [exact Hle|]. split.
  - exact (proj1 (cache_round_trip key v HOLIDAYS_TTL 3600000 world0 []) Hle).
  - split; [exact Hgt|].
    exact (proj1 (proj2 (cache_round_trip key v HOLIDAYS_TTL 86400001 world0 []) Hgt)).
Defined.

(** C7, as stated, fails: after a first call whose three attempts failed
    nothing is cached, and an immediate second call sends three more
    requests. *)
Lemma getHolidays_refetches_after_failure :
  let w1 := snd (getHolidays net_down "XX" 2025 world0) in
  let w2 := snd (getHolidays net_down "XX" 2025 w1) in
  fst (getHolidays net_down "XX" 2025 world0) = Ok [] /\
  fst (getHolidays net_down "XX" 2025 w1) = Ok [] /\
  (now w1 - now world0 <=? HOLIDAYS_TTL) = true /\
  fetches (trace w1) = 3%nat /\
  fetches (trace w2) = 6%nat /\
  cache w1 !! holidays_key "XX" 2025 = None.
Proof. vm_compute. repeat split; reflexivity. Qed.

Lemma getHolidays_cached_after_success_witness :
  let key := holidays_key "CO" 2025 in
  let url := holidays_url "CO" 2025 in
  let w' := snd (fetchWithRetry net_flaky url default_maxRetries (evicted key world0)) in
  let w1 := snd (setCache key (CachedHolidays sample_holidays_CO) w') in
  getHolidays net_flaky "CO" 2025 world0 = (Ok sample_holidays_CO, w1) /\
  fetches (trace w1) = 3%nat /\
  getHolidays net_flaky "CO" 2025 (after w1 3600000 [])
  = (Ok sample_holidays_CO, after w1 3600000 []).
Proof.
  intros key url w' w1.
  assert (Hmiss : fst (getFromCache key HOLIDAYS_TTL world0) = Ok None) by reflexivity.
  assert (Hfetch : fetchWithRetry net_flaky url default_maxRetries (evicted key world0)
                   = (Ok sample_payload_CO, w')) by (vm_compute; reflexivity).
  assert (Hmap : js_array_map toHoliday sample_payload_CO = Ok sample_holidays_CO)
    by reflexivity.
  destruct (getHolidays_cached_after_success net_flaky "CO" 2025 world0 w'
              sample_payload_CO sample_holidays_CO Hmiss Hfetch Hmap) as [H1 H2].
  split; [exact H1|]. split; [vm_compute; reflexivity|].
  apply H2. vm_compute. discriminate.
Defined.

Lemma getZoneStatus_fallback_witness :
  let key := zone_key "America/Denver" in
  let url := zone_url "America/Denver" in
  fst (getFromCache key TIMEZONES_TTL world0) = Ok None /\
  fails (net_down url 0) (NetworkError "fetch failed") /\
  fst (getZoneStatus net_down Intl_sample "America/Denver" world0)
  = Ok (Some (mkZoneStatus (JStr "America/Denver") (JStr "-07:00") (JBool false))) /\
  fst (getZoneStatus net_down Intl_sample "Mars/Olympus_Mons" world0) = Ok None /\
  exists r,
    fst (compareCountries net_down Intl_sample "US" "CO" 2025 world0) = Ok r /\
    exists statusesA statusesB,
      fst (awaitStatuses net_down Intl_sample "US" "CO"
             (snd (awaitHolidays net_down "US" "CO" 2025 world0)))
      = Ok (statusesA, statusesB) /\
      length statusesA = 29%nat /\
      tzA (timezones r) = omap id statusesA /\
      tzA (timezones r)
      = [mkZoneStatus (JStr "America/Denver") (JStr "-07:00") (JBool false)] /\
      tzB (timezones r)
      = [mkZoneStatus (JStr "America/Bogota") (JStr "-05:00") (JBool false)].
Proof.
  intros key url.
  assert (H : forall u n, fails (net_down u n) (NetworkError "fetch failed"))
    by (intros u n; apply fails_transport).
  split; [reflexivity|]. split; [apply H|]. split; [|split].
  3:{ eexists. split; [vm_compute; reflexivity|].
      refine (let R := proj2 (getZoneStatus_fallback net_down Intl_sample)
                         "US" "CO" 2025 world0 _ _ in _).
      Unshelve. 3:{ vm_compute; reflexivity. }
      destruct R as (zA & zB & sA & sB & HA & _ & ES & LA & _ & TA & _).
      exists sA, sB. split; [exact ES|].
      assert (HA' := HA). vm_compute in HA'. injection HA' as <-.
      split; [exact LA|]. split; [exact TA|]. split; reflexivity. }
  - exact (proj1 (proj1 (getZoneStatus_fallback net_down Intl_sample)
                    "America/Denver" world0 _ _ _ eq_refl (H _ _) (H _ _) (H _ _))
             (sample_parts "GMT-07:00") (mkPart "timeZoneName" "GMT-07:00")
             eq_refl eq_refl).
  - rewrite (proj2 (proj2 (proj1 (getZoneStatus_fallback net_down Intl_sample)
                    "Mars/Olympus_Mons" world0 _ _ _ eq_refl (H _ _) (H _ _) (H _ _)))
             (Some (RangeError "Invalid time zone specified")) eq_refl).
    reflexivity.
Defined.

Lemma replace_first_GMT (o : string) : replace_first "GMT" "" ("GMT" +:+ o) = o.
Proof. destruct o; reflexivity. Qed.

Lemma fallback_offset_well_formed (o : string) :
  offset_string o = true ->
  offset_format (JStr (replace_first "GMT" "" ("GMT" +:+ o))) = true.
Proof. intros H. now rewrite replace_first_GMT. Qed.

(** C9 (the code at the failing input).  For a zone at offset zero the
    runtime's [longOffset] name is [GMT]; with the live service down the
    fallback then reports the empty string as [utc_offset], which is not of
    the form sign, two digits, colon, two digits.  The live path reports
    [-05:00] for a zone the service places there. *)
Theorem getZoneStatus_fallback_offset_at_GMT :
  timeZoneName_part (sample_parts "GMT") = Some (mkPart "timeZoneName" "GMT") /\
  fst (getZoneStatus net_down Intl_sample "Africa/Abidjan" world0)
  = Ok (Some (mkZoneStatus (JStr "Africa/Abidjan") (JStr "") (JBool false))) /\
  offset_format (JStr "") = false /\
  fst (getZoneStatus net_sample Intl_sample "America/Bogota" world0)
  = Ok (Some (mkZoneStatus (JStr "America/Bogota") (JStr "-05:00") (JBool false))) /\
  offset_format (JStr "-05:00") = true.
Proof. vm_compute. repeat split; reflexivity. Qed.


Lemma getTimezones_total_witness :
  existsb (String.eqb "XX") Object_prototype_members = false /\
  own_property "XX" COUNTRY_TIMEZONES = None /\
  getTimezones "XX" = ZoneList [] /\
  exists r,
    fst (compareCountries net_sample Intl_sample "XX" "CO" 2025 world0) = Ok r /\
    tzA (timezones r) = [] /\
    commonOffsetNow (timezones r) = mkCommonOffsetNow false [].
Proof.
  split; [reflexivity|]. split; [reflexivity|]. split; [reflexivity|].
  destruct (proj2 (getTimezones_total net_sample Intl_sample) "XX" "CO" 2025 world0
              eq_refl eq_refl) as (r & E & HA & _).
  exists r. split; [exact E|]. exact (HA eq_refl).
Defined.

(** * Further properties *)

(** ** The comparison engine: exchanged sides, repeated dates, one list twice *)

Lemma Map_fill_get {V} (es m : list (JsVal * V)) k :
  Map_get k (Map_fill es m)
  = match last (List.filter (fun e => JsVal_eqb (fst e) k) es) with
    | Some e => Some (snd e)
    | None => Map_get k m
    end.
Proof.
  revert m. induction es as [|e es IH]; intros m; simpl; [reflexivity|].
  change (fold_left _ es ?m0) with (Map_fill es m0). rewrite IH.
  destruct (JsVal_eqb (fst e) k) eqn:E.
  - apply JsVal_eqb_eq in E. subst k. rewrite last_cons.
    destruct (last (List.filter _ es)); [reflexivity|]. apply Map_get_set_eq.
  - apply JsVal_eqb_neq in E.
    destruct (last (List.filter _ es)); [reflexivity|]. now apply Map_get_set_ne.
Qed.

Lemma holidayMap_get hs d : Map_get d (holidayMap hs) = last_with_date d hs.
Proof.
  unfold holidayMap, Map_of. change (fold_left _ ?es []) with (Map_fill es []).
  rewrite Map_fill_get. unfold last_with_date. simpl.
  induction hs as [|h hs IH]; simpl; [reflexivity|].
  destruct (JsVal_eqb (date h) d); simpl; [|exact IH].
  rewrite !last_cons.
  destruct (last (List.filter _ (map _ hs))), (last (List.filter _ hs));
    simpl in *; congruence.
Qed.

Lemma In_common_iff (A B : list (JsVal * Holiday)) c :
  NoDup (keys A) ->
  In c (flat_map (fun '(d, h) => match Map_get d B with
                                  | Some hb => [mkCommon d (name h) (name hb)]
                                  | None => []
                                  end) A)
  <-> exists hA hB,
        Map_get (common_date c) A = Some hA /\ Map_get (common_date c) B = Some hB /\
        nameA c = name hA /\ nameB c = name hB.
Proof.
  intros HA. rewrite in_flat_map. split.
  - intros ([d h] & Hin & Hc). destruct (Map_get d B) as [hb|] eqn:E; [|destruct Hc].
    destruct Hc as [<-|[]]. simpl. exists h, hb.
    split; [now apply In_Map_get|]. now rewrite E.
  - intros (hA & hB & EA & EB & NA & NB). exists (common_date c, hA).
    split; [now apply Map_get_Some_In|]. rewrite EB. left.
    destruct c; simpl in *. now subst.
Qed.

Lemma common_of_compareHolidays holidaysA holidaysB :
  common (compareHolidays holidaysA holidaysB)
  = flat_map (fun '(d, h) => match Map_get d (holidayMap holidaysB) with
                             | Some hb => [mkCommon d (name h) (name hb)]
                             | None => []
                             end) (holidayMap holidaysA).
Proof.
  unfold compareHolidays. fold (holidayMap holidaysA) (holidayMap holidaysB).
  rewrite forEach_A_spec. reflexivity.
Qed.

Lemma onlyA_of_compareHolidays holidaysA holidaysB :
  onlyA (compareHolidays holidaysA holidaysB)
  = flat_map (fun '(d, h) => match Map_get d (holidayMap holidaysB) with
                             | Some _ => []
                             | None => [h]
                             end) (holidayMap holidaysA).
Proof.
  unfold compareHolidays. fold (holidayMap holidaysA) (holidayMap holidaysB).
  rewrite forEach_A_spec. reflexivity.
Qed.

Lemma onlyB_of_compareHolidays holidaysA holidaysB :
  onlyB (compareHolidays holidaysA holidaysB)
  = flat_map (fun '(d, h) => match Map_get d (holidayMap holidaysA) with
                             | Some _ => []
                             | None => [h]
                             end) (holidayMap holidaysB).
Proof.
  unfold compareHolidays. fold (holidayMap holidaysA) (holidayMap holidaysB).
  rewrite forEach_A_spec, forEach_B_spec. simpl.
  induction (holidayMap holidaysB) as [|[d h] m IH]; simpl; [reflexivity|].
  unfold Map_has at 1. rewrite IH. now destruct (Map_get d (holidayMap holidaysA)).
Qed.

Lemma holidayMap_NoDup hs : NoDup (keys (holidayMap hs)).
Proof. apply NoDup_keys_Map_of. Qed.

Lemma NoDup_map_inv {X Y} (f : X -> Y) (l : list X) : NoDup (map f l) -> NoDup l.
Proof.
  induction l as [|x l IH]; simpl; intros H; [constructor|].
  apply NoDup_cons in H as [Hx H]. apply NoDup_cons. split; [|auto].
  intros Hin. apply Hx. apply list_elem_of_In, in_map, list_elem_of_In, Hin.
Qed.

Lemma common_dates_NoDup holidaysA holidaysB :
  NoDup (map common_date (common (compareHolidays holidaysA holidaysB))).
Proof.
  rewrite (pf_common _ _ _ (compareHolidays_facts holidaysA holidaysB)).
  apply NoDup_List_filter, holidayMap_NoDup.
Qed.

Lemma In_common_compareHolidays holidaysA holidaysB c :
  In c (common (compareHolidays holidaysA holidaysB))
  <-> exists hA hB,
        last_with_date (common_date c) holidaysA = Some hA /\
        last_with_date (common_date c) holidaysB = Some hB /\
        nameA c = name hA /\ nameB c = name hB.
Proof.
  rewrite common_of_compareHolidays, In_common_iff by apply holidayMap_NoDup.
  now rewrite !holidayMap_get.
Qed.

(** X1.  Exchanging the two holiday lists exchanges [onlyA] and [onlyB], as
    the same lists in the same order, and gives the same [common] entries
    with [nameA] and [nameB] exchanged, possibly in another order. *)
Theorem compareHolidays_swap (holidaysA holidaysB : list Holiday) :
  onlyA (compareHolidays holidaysB holidaysA) = onlyB (compareHolidays holidaysA holidaysB) /\
  onlyB (compareHolidays holidaysB holidaysA) = onlyA (compareHolidays holidaysA holidaysB) /\
  Permutation (common (compareHolidays holidaysB holidaysA))
              (map swap_common (common (compareHolidays holidaysA holidaysB))).
Proof.
  split; [|split].
  - now rewrite onlyA_of_compareHolidays, onlyB_of_compareHolidays.
  - now rewrite onlyA_of_compareHolidays, onlyB_of_compareHolidays.
  - apply NoDup_Permutation.
    + apply (NoDup_map_inv common_date), common_dates_NoDup.
    + apply (NoDup_map_inv common_date). rewrite map_map. apply common_dates_NoDup.
    + intros c. rewrite !list_elem_of_In, in_map_iff, In_common_compareHolidays. split.
      * intros (hB & hA & EB & EA & NB & NA). exists (swap_common c). split.
        -- now destruct c.
        -- apply In_common_compareHolidays. now exists hA, hB.
      * intros (c' & <- & Hc'). apply In_common_compareHolidays in Hc'
          as (hA & hB & EA & EB & NA & NB). now exists hB, hA.
Qed.

Lemma In_only_iff hs hs' h :
  In h (flat_map (fun '(d, h) => match Map_get d (holidayMap hs') with
                                 | Some _ => []
                                 | None => [h]
                                 end) (holidayMap hs))
  <-> last_with_date (date h) hs = Some h /\ last_with_date (date h) hs' = None.
Proof.
  rewrite in_flat_map, <- !holidayMap_get. split.
  - intros ([d h'] & Hin & Hh).
    destruct (Map_get d (holidayMap hs')) eqn:E; [destruct Hh|].
    destruct Hh as [->|[]]. pose proof (holidayMap_entry _ _ _ Hin) as [<- _].
    split; [|exact E]. apply In_Map_get; [apply holidayMap_NoDup | exact Hin].
  - intros [E E']. exists (date h, h). split; [now apply Map_get_Some_In|].
    rewrite E'. now left.
Qed.

Lemma nil_of_no_member {X} (l : list X) : (forall x, ~ In x l) -> l = [].
Proof. destruct l as [|x l]; [reflexivity|]. intros H. destruct (H x). now left. Qed.

(** X2.  When one list holds several holidays on a date, the last of them
    is the one reported: an [onlyA] entry is the last holiday of
    [holidaysA] on its date (and [holidaysB] has none on it), an [onlyB]
    entry likewise, and a [common] entry carries the names of the last
    holiday of each list on its date. *)
Theorem compareHolidays_last_write_wins (holidaysA holidaysB : list Holiday) :
  let r := compareHolidays holidaysA holidaysB in
  (forall h, In h (onlyA r) <->
     last_with_date (date h) holidaysA = Some h /\
     last_with_date (date h) holidaysB = None) /\
  (forall h, In h (onlyB r) <->
     last_with_date (date h) holidaysB = Some h /\
     last_with_date (date h) holidaysA = None) /\
  (forall c, In c (common r) <->
     exists hA hB,
       last_with_date (common_date c) holidaysA = Some hA /\
       last_with_date (common_date c) holidaysB = Some hB /\
       nameA c = name hA /\ nameB c = name hB).
Proof.
  intros r. split; [|split].
  - intros h. unfold r. rewrite onlyA_of_compareHolidays. apply In_only_iff.
  - intros h. unfold r. rewrite onlyB_of_compareHolidays. apply In_only_iff.
  - intros c. apply In_common_compareHolidays.
Qed.

(** X3.  Comparing a list with itself leaves nothing on one side only:
    [onlyA] and [onlyB] are empty, [common] has one entry per distinct date,
    and each entry has the same name on both sides. *)
Theorem compareHolidays_self (hs : list Holiday) :
  let r := compareHolidays hs hs in
  onlyA r = [] /\ onlyB r = [] /\
  length (common r) = length (remove_dups (map date hs)) /\
  Forall (fun c => nameA c = nameB c) (common r).
Proof.
  intros r.
  assert (O : flat_map (fun '(d, h) => match Map_get d (holidayMap hs) with
                                       | Some _ => []
                                       | None => [h]
                                       end) (holidayMap hs) = []).
  { apply nil_of_no_member. intros h Hh. apply In_only_iff in Hh as [E E']. congruence. }
  split; [|split; [|split]].
  - unfold r. now rewrite onlyA_of_compareHolidays.
  - unfold r. now rewrite onlyB_of_compareHolidays.
  - rewrite <- (length_map common_date). unfold r.
    rewrite (pf_common _ _ _ (compareHolidays_facts hs hs)).
    rewrite forallb_filter_id.
    + apply length_NoDup_same_members; [apply holidayMap_NoDup|].
      intros d. apply holidayMap_keys.
    + apply forallb_forall. intros d Hd. now apply Map_has_true.
  - apply Forall_forall. intros c Hc. apply list_elem_of_In in Hc.
    apply In_common_compareHolidays in Hc as (hA & hB & EA & EB & NA & NB). congruence.
Qed.

(** ** The timezone comparison: exchanged sides and the zones of the overlaps *)

Lemma In_overlaps_iff (A B : list (JsVal * list JsVal)) e :
  NoDup (keys A) ->
  In e (offsetOverlaps A B)
  <-> Map_get (offset e) A = Some (zonesA e) /\ Map_get (offset e) B = Some (zonesB e).
Proof.
  intros HA. split.
  - intros H. apply offsetOverlaps_entry in H as [H1 H2]. split; [|exact H2].
    now apply In_Map_get.
  - intros [EA EB]. unfold offsetOverlaps. rewrite offsetOverlaps_from. simpl.
    apply in_flat_map. exists (offset e, zonesA e). split; [now apply Map_get_Some_In|].
    rewrite EB. left. now destruct e.
Qed.

Lemma overlaps_NoDup (A B : list (JsVal * list JsVal)) :
  NoDup (keys A) -> NoDup (map offset (offsetOverlaps A B)).
Proof. intros H. rewrite offsetOverlaps_offsets. now apply NoDup_List_filter. Qed.

(** X4.  Exchanging the two status lists exchanges [A] and [B] in the
    timezone report, keeps [hasOverlap], and gives the same overlap entries
    with [zonesA] and [zonesB] exchanged, possibly in another order. *)
Theorem compareTimezones_swap (statusesA statusesB : list (option ZoneStatus)) :
  let t := compareTimezones statusesA statusesB in
  let t' := compareTimezones statusesB statusesA in
  tzA t' = tzB t /\ tzB t' = tzA t /\
  hasOverlap (commonOffsetNow t') = hasOverlap (commonOffsetNow t) /\
  Permutation (overlaps (commonOffsetNow t'))
              (map swap_overlap (overlaps (commonOffsetNow t))).
Proof.
  intros t t'.
  assert (P : Permutation (overlaps (commonOffsetNow t'))
                (map swap_overlap (overlaps (commonOffsetNow t)))).
  { unfold t, t', compareTimezones; simpl.
    set (mA := offsetMap (validStatuses statusesA)).
    set (mB := offsetMap (validStatuses statusesB)).
    assert (NA : NoDup (keys mA)) by apply offsetMap_NoDup.
    assert (NB : NoDup (keys mB)) by apply offsetMap_NoDup.
    apply NoDup_Permutation.
    - apply (NoDup_map_inv offset). now apply overlaps_NoDup.
    - apply (NoDup_map_inv offset). rewrite map_map. simpl. now apply overlaps_NoDup.
    - intros e. rewrite !list_elem_of_In, in_map_iff, In_overlaps_iff by exact NB. split.
      + intros [EB EA]. exists (swap_overlap e). split; [now destruct e|].
        apply In_overlaps_iff; [exact NA|]. now split.
      + intros (e' & <- & He'). apply In_overlaps_iff in He' as [EA EB]; [|exact NA].
        now split. }
  split; [reflexivity|]. split; [reflexivity|]. split; [|exact P].
  change (hasOverlap (commonOffsetNow t'))
    with (0 <? length (overlaps (commonOffsetNow t')))%nat.
  change (hasOverlap (commonOffsetNow t))
    with (0 <? length (overlaps (commonOffsetNow t)))%nat.
  now rewrite (Permutation_length P), length_map.
Qed.

Lemma filter_or_disjoint {X} (P Q : X -> bool) (l : list X) :
  (forall x, P x = true -> Q x = true -> False) ->
  Permutation (List.filter (fun x => P x || Q x) l) (List.filter P l ++ List.filter Q l).
Proof.
  intros D. induction l as [|x l IH]; simpl; [constructor|].
  destruct (P x) eqn:EP, (Q x) eqn:EQ; simpl.
  - destruct (D x EP EQ).
  - now constructor.
  - rewrite IH. apply Permutation_middle.
  - exact IH.
Qed.

Lemma group_by_keys {X} (f : X -> JsVal) (l : list X) (ks : list JsVal) :
  NoDup ks ->
  Permutation (concat (map (fun o => List.filter (fun s => JsVal_eqb (f s) o) l) ks))
              (List.filter (fun s => existsb (JsVal_eqb (f s)) ks) l).
Proof.
  induction 1 as [|k ks Hk Hks IH]; simpl.
  - induction l as [|x l IHl]; simpl; [constructor | exact IHl].
  - rewrite IH. symmetry. apply filter_or_disjoint.
    intros x E1 E2. apply JsVal_eqb_eq in E1. subst k.
    apply existsb_exists in E2 as (o & Ho & Eo). apply JsVal_eqb_eq in Eo. subst o.
    apply Hk, list_elem_of_In, Ho.
Qed.

Lemma existsb_eqb_In (o : JsVal) (l : list JsVal) :
  existsb (JsVal_eqb o) l = true <-> In o l.
Proof.
  rewrite existsb_exists. split.
  - intros (x & Hx & E). apply JsVal_eqb_eq in E. now subst.
  - intros H. exists o. split; [exact H | apply JsVal_eqb_refl].
Qed.

(** X5.  Every overlap entry lists at least one zone on each side, and the
    zones listed on side A over all entries are, each status counted once,
    the zones of the statuses of [timezones.A] whose offset also occurs in
    [timezones.B]. *)
Theorem overlaps_account_for_zones (statusesA statusesB : list (option ZoneStatus)) :
  let t := compareTimezones statusesA statusesB in
  let ov := overlaps (commonOffsetNow t) in
  Forall (fun e => zonesA e <> [] /\ zonesB e <> []) ov /\
  Permutation (concat (map zonesA ov))
    (map zone (List.filter
                 (fun s => existsb (JsVal_eqb (utc_offset s)) (map utc_offset (tzB t)))
                 (tzA t))).
Proof.
  intros t ov. unfold t, compareTimezones in ov; simpl in ov.
  set (sA := validStatuses statusesA) in *. set (sB := validStatuses statusesB) in *.
  change (tzA t) with sA. change (tzB t) with sB.
  assert (E : forall e, In e ov ->
            Map_get (offset e) (offsetMap sA) = Some (zonesA e) /\
            Map_get (offset e) (offsetMap sB) = Some (zonesB e)).
  { intros e He. apply In_overlaps_iff in He; [exact He | apply offsetMap_NoDup]. }
  split.
  - apply Forall_forall. intros e He. apply list_elem_of_In in He.
    destruct (E e He) as [EA EB]. rewrite offsetMap_get in EA, EB. split.
    + destruct (zones_at (offset e) sA); congruence.
    + destruct (zones_at (offset e) sB); congruence.
  - assert (Z : map zonesA ov = map (fun o => zones_at o sA) (map offset ov)).
    { rewrite map_map. apply map_ext_in. intros e He. destruct (E e He) as [EA _].
      rewrite offsetMap_get in EA. destruct (zones_at (offset e) sA); congruence. }
    rewrite Z. unfold zones_at.
    rewrite <- (map_map (fun o => List.filter (fun s => JsVal_eqb (utc_offset s) o) sA)
                        (map zone)), <- concat_map.
    apply Permutation_map.
    rewrite group_by_keys by (apply overlaps_NoDup, offsetMap_NoDup).
    replace (List.filter (fun s => existsb (JsVal_eqb (utc_offset s)) (map offset ov)) sA)
      with (List.filter (fun s => existsb (JsVal_eqb (utc_offset s)) (map utc_offset sB)) sA);
      [reflexivity|].
    apply filter_ext_in. intros s Hs.
    apply eq_true_iff_eq. rewrite !existsb_eqb_In. unfold ov.
    rewrite offsetOverlaps_offsets, filter_In, Map_has_true, !offsetMap_keys.
    split; [|tauto]. intros H. split; [|exact H]. now apply in_map.
Qed.

(** ** The resilient fetcher for every [maxRetries] *)

Lemma backoff_sum_closed i k :
  backoff_sum i k = 500 * Z.of_nat k * (2 * Z.of_nat i + Z.of_nat k + 1).
Proof. revert i. induction k as [|k IH]; intros i; simpl backoff_sum; [lia|]. rewrite IH. lia. Qed.

Lemma requests_to_retries url i k : requests_to url (retries url i k) = k.
Proof.
  revert i. induction k as [|k IH]; intros i; [reflexivity|].
  unfold requests_to in *. simpl. rewrite String.eqb_refl. simpl. now rewrite IH.
Qed.

Lemma fetches_retries url i k : fetches (retries url i k) = k.
Proof.
  revert i. induction k as [|k IH]; intros i; [reflexivity|].
  unfold fetches in *. simpl. now rewrite IH.
Qed.

Section FetcherGeneral.
Variable net : string -> nat -> Exchange.

Lemma attempt_world url w :
  snd (attempt net url w)
  = after w (elapsed (net url (requests_to url (trace w)))) [Fetch url].
Proof.
  destruct (fails_or_succeeds (net url (requests_to url (trace w)))) as [[e H]|[v H]].
  - now rewrite (attempt_fails _ _ _ _ H).
  - now rewrite (attempt_succeeds _ _ _ _ H).
Qed.

Lemma loop_failed_run url maxRetries k :
  forall remaining i lastError w,
    (i + k <= maxRetries)%nat ->
    (forall j, (j < k)%nat -> exists e, fails (net url (requests_to url (trace w) + j)) e) ->
    exists lastError',
      fetchWithRetry_loop net url maxRetries (k + remaining) i lastError w
      = fetchWithRetry_loop net url maxRetries remaining (i + k) lastError'
          (after w (elapsed_sum net url (requests_to url (trace w)) k + backoff_sum i k)
             (retries url i k)).
Proof.
  induction k as [|k IH]; intros remaining i lastError w Hik Hfail.
  - exists lastError. rewrite Nat.add_0_r. simpl. unfold after. simpl.
    rewrite Z.add_0_r, app_nil_r. now destruct w.
  - destruct (Hfail 0%nat ltac:(lia)) as [e0 H0]. rewrite Nat.add_0_r in H0.
    change (S k + remaining)%nat with (S (k + remaining)).
    rewrite (loop_retries _ _ _ _ _ _ _ _ H0) by lia.
    set (w1 := after w _ _).
    assert (R : requests_to url (trace w1) = S (requests_to url (trace w))).
    { unfold w1. rewrite requests_after_retry. lia. }
    destruct (IH remaining (S i) (Some e0) w1 ltac:(lia)) as [last' E].
    { intros j Hj. rewrite R. destruct (Hfail (S j) ltac:(lia)) as [e He].
      exists e. now rewrite Nat.add_succ_r in He. }
    exists last'. rewrite E, R. unfold w1. rewrite after_after.
    replace (i + S k)%nat with (S i + k)%nat by lia.
    f_equal. unfold after. simpl. f_equal. lia.
Qed.

(** X6.  For every [maxRetries]: when the first [k <= maxRetries] attempts
    fail and the next one succeeds, [fetchWithRetry] returns its body after
    [k + 1] requests, having waited 1000, 2000, ..., [1000 * k] ms in
    between, [500 * k * (k + 1)] ms in all; when all [maxRetries + 1]
    attempts fail it throws the error of the last one, after the waits
    1000, ..., [1000 * maxRetries] and none after the last attempt. *)
Theorem fetchWithRetry_general (url : string) (maxRetries : nat) (w : World) :
  let n := requests_to url (trace w) in
  (forall k v,
     (k <= maxRetries)%nat ->
     (forall j, (j < k)%nat -> exists e, fails (net url (n + j)) e) ->
     succeeds (net url (n + k)) v ->
     fetchWithRetry net url maxRetries w
     = (Ok v,
        after w (elapsed_sum net url n (S k) + 500 * Z.of_nat k * (Z.of_nat k + 1))
          (retries url 0 k ++ [Fetch url]))) /\
  (forall e,
     (forall j, (j < maxRetries)%nat -> exists e', fails (net url (n + j)) e') ->
     fails (net url (n + maxRetries)) e ->
     fetchWithRetry net url maxRetries w
     = (Throw (Some e),
        after w (elapsed_sum net url n (S maxRetries)
                 + 500 * Z.of_nat maxRetries * (Z.of_nat maxRetries + 1))
          (retries url 0 maxRetries ++ [Fetch url]))).
Proof.
  intros n.
  assert (HS : forall k, elapsed_sum net url n (S k)
                        = elapsed_sum net url n k + elapsed (net url (n + k))).
  { intros k. generalize n. induction k as [|k IH]; intros m.
    - simpl. rewrite Nat.add_0_r. lia.
    - change (elapsed_sum net url m (S (S k)))
        with (elapsed (net url m) + elapsed_sum net url (S m) (S k)).
      rewrite IH. simpl. rewrite Nat.add_succ_r. lia. }
  split.
  - intros k v Hk Hfail Hok. unfold fetchWithRetry.
    replace (S maxRetries) with (k + S (maxRetries - k))%nat by lia.
    destruct (loop_failed_run url maxRetries k (S (maxRetries - k)) 0%nat None w
                ltac:(lia) Hfail) as [last' E].
    rewrite E. fold n.
    assert (R : requests_to url (trace (after w (elapsed_sum net url n k + backoff_sum 0 k)
                                          (retries url 0 k))) = (n + k)%nat).
    { rewrite requests_to_after, requests_to_retries. reflexivity. }
    erewrite loop_succeeds by (rewrite R; exact Hok).
    rewrite R, after_after, (HS k), backoff_sum_closed.
    f_equal. unfold after. simpl. f_equal. lia.
  - intros e Hfail He. unfold fetchWithRetry.
    replace (S maxRetries) with (maxRetries + 1)%nat by lia.
    destruct (loop_failed_run url maxRetries maxRetries 1%nat 0%nat None w
                ltac:(lia) Hfail) as [last' E].
    rewrite E. fold n.
    assert (R : requests_to url
                  (trace (after w (elapsed_sum net url n maxRetries
                                   + backoff_sum 0 maxRetries)
                            (retries url 0 maxRetries))) = (n + maxRetries)%nat).
    { rewrite requests_to_after, requests_to_retries. reflexivity. }
    erewrite loop_gives_up; [| rewrite R; exact He | lia].
    rewrite loop_exhausted, R, after_after.
    replace (maxRetries + 1)%nat with (S maxRetries) by lia.
    rewrite (HS maxRetries), backoff_sum_closed.
    f_equal. unfold after. simpl. f_equal. lia.
Qed.

Lemma loop_effects url maxRetries remaining :
  forall i lastError w,
    exists dt evs,
      snd (fetchWithRetry_loop net url maxRetries remaining i lastError w) = after w dt evs /\
      Forall (fetcher_event url) evs /\
      (fetches evs <= remaining)%nat /\
      (0 < remaining -> 1 <= fetches evs)%nat.
Proof.
  induction remaining as [|remaining IH]; intros i lastError w.
  - exists 0, []. simpl. split; [|split; [constructor | split; [reflexivity | lia]]].
    unfold after. simpl. rewrite Z.add_0_r, app_nil_r. now destruct w.
  - simpl. unfold try_catch. pose proof (attempt_world url w) as W.
    destruct (attempt net url w) as [[v|t] w1]; simpl in W; subst w1.
    + eexists _, [Fetch url]. split; [reflexivity|].
      split; [apply Forall_cons; split; [now left | constructor]|].
      unfold fetches; simpl. split; lia.
    + unfold bind.
      assert (F : fetcher_event url (Fetch url)) by now left.
      destruct (i <? maxRetries)%nat.
      * rewrite sleep_eq, after_after.
        destruct (IH (S i) t (after w (elapsed (net url (requests_to url (trace w)))
                                        + 1000 * (Z.of_nat i + 1))
                               ([Fetch url] ++ [Sleep (1000 * (Z.of_nat i + 1))])))
          as (dt & evs & E & Fa & Fle & _).
        rewrite E, after_after. eexists _, _. split; [reflexivity|].
        split; [|split].
        -- apply Forall_app. split; [|exact Fa].
           simpl. apply Forall_cons; split; [exact F|].
           apply Forall_cons; split; [right; now eexists | constructor].
        -- unfold fetches in *. rewrite List.filter_app, length_app. simpl. lia.
        -- intros _. unfold fetches in *. rewrite List.filter_app, length_app. simpl. lia.
      * simpl.
        destruct (IH (S i) t (after w (elapsed (net url (requests_to url (trace w))))
                               [Fetch url])) as (dt & evs & E & Fa & Fle & _).
        rewrite E, after_after. eexists _, _. split; [reflexivity|].
        split; [|split].
        -- apply Forall_app. split; [|exact Fa].
           apply Forall_cons; split; [exact F | constructor].
        -- unfold fetches in *. rewrite List.filter_app, length_app. simpl. lia.
        -- intros _. unfold fetches in *. rewrite List.filter_app, length_app. simpl. lia.
Qed.

(** X7.  Whatever the network does and for every [maxRetries],
    [fetchWithRetry(url)] leaves the cache as it is, causes nothing but
    requests to [url] and waits, and sends at least one and at most
    [maxRetries + 1] requests. *)
Theorem fetchWithRetry_effects (url : string) (maxRetries : nat) (w : World) :
  exists dt evs,
    snd (fetchWithRetry net url maxRetries w) = after w dt evs /\
    Forall (fetcher_event url) evs /\
    (1 <= fetches evs <= maxRetries + 1)%nat.
Proof.
  destruct (loop_effects url maxRetries (S maxRetries) 0%nat None w)
    as (dt & evs & E & Fa & Fle & Fge).
  exists dt, evs. split; [exact E|]. split; [exact Fa|]. lia.
Qed.

End FetcherGeneral.

(** ** The holiday provider: payloads, expiry and failures *)

Lemma getProp_property h k : nullish h = false -> getProp h k = Ok (property h k).
Proof. destruct h; simpl; (discriminate || reflexivity). Qed.

Lemma getProp_nullish h k : nullish h = true -> exists t, getProp h k = Throw t.
Proof. destruct h; simpl; try discriminate; intros _; eexists; reflexivity. Qed.

Lemma toHoliday_normalised h : nullish h = false -> toHoliday h = Ok (normalised h).
Proof. intros H. unfold toHoliday. rewrite !(getProp_property _ _ H). reflexivity. Qed.

Lemma toHoliday_nullish h : nullish h = true -> exists t, toHoliday h = Throw t.
Proof.
  intros H. unfold toHoliday. destruct (getProp_nullish h "date" H) as [t ->].
  now exists t.
Qed.

Lemma res_map_toHoliday items hs :
  res_map toHoliday items = Ok hs
  <-> forallb (fun h => negb (nullish h)) items = true /\ hs = map normalised items.
Proof.
  revert hs. induction items as [|h items IH]; intros hs; simpl.
  - split; [intros [= <-]; now split | intros [_ ->]; reflexivity].
  - destruct (nullish h) eqn:N; simpl.
    + destruct (toHoliday_nullish h N) as [t ->]. simpl. split; [discriminate | intros [? _]; discriminate].
    + rewrite (toHoliday_normalised h N). simpl.
      destruct (res_map toHoliday items) as [hs'|t]; simpl.
      * destruct (proj1 (IH hs') eq_refl) as [Hall ->]. rewrite Hall. split.
        -- intros [= <-]. now split.
        -- intros [_ ->]. reflexivity.
      * split; [discriminate|]. intros [Hall ->].
        pose proof (proj2 (IH (map normalised items)) (conj Hall eq_refl)). discriminate.
Qed.

(** X8.  The normalisation of a payload succeeds exactly when the payload is
    an array none of whose elements is [null] or [undefined]; the list then
    has one record per element, in order, made of the element's [date],
    [name], [localName] and [countryCode] properties, [undefined] where the
    element has none. *)
Theorem holiday_normalisation (payload : JsVal) (hs : list Holiday) :
  js_array_map toHoliday payload = Ok hs
  <-> exists items,
        payload = JArr items /\
        forallb (fun h => negb (nullish h)) items = true /\
        hs = map normalised items.
Proof.
  split.
  - destruct payload; simpl; try discriminate. intros H.
    apply res_map_toHoliday in H. now exists items.
  - intros (items & -> & H). simpl. now apply res_map_toHoliday.
Qed.

Lemma fetcher_requests url evs :
  Forall (fetcher_event url) evs -> requests_to url evs = fetches evs.
Proof.
  unfold requests_to, fetches. induction 1 as [|e evs He _ IH]; [reflexivity|].
  simpl. destruct He as [->|[ms ->]]; simpl.
  - rewrite String.eqb_refl. simpl. now rewrite IH.
  - exact IH.
Qed.

Lemma requests_to_log url evs what :
  requests_to url (evs ++ [LogError what]) = requests_to url evs.
Proof. rewrite requests_to_app. unfold requests_to at 2. simpl. lia. Qed.

Section HolidayFacts.
Variable net : string -> nat -> Exchange.

Lemma fetchWithRetry_requests url maxRetries w :
  exists dt evs,
    snd (fetchWithRetry net url maxRetries w) = after w dt evs /\
    (1 <= requests_to url evs <= maxRetries + 1)%nat.
Proof.
  destruct (loop_effects net url maxRetries (S maxRetries) 0%nat None w)
    as (dt & evs & E & Fa & Fle & Fge).
  exists dt, evs. split; [exact E|]. rewrite (fetcher_requests _ _ Fa). lia.
Qed.

Lemma getHolidays_fetch_world cacheKey countryCode year w :
  exists c dt evs,
    snd (getHolidays_fetch net cacheKey countryCode year w)
    = mkWorld c (now w + dt) (trace w ++ evs) /\
    (1 <= requests_to (holidays_url countryCode year) evs <= 3)%nat /\
    (forall k, k <> cacheKey -> c !! k = cache w !! k).
Proof.
  unfold getHolidays_fetch, try_catch, bind.
  destruct (fetchWithRetry_requests (holidays_url countryCode year) default_maxRetries w)
    as (dt & evs & E & R).
  destruct (fetchWithRetry net _ default_maxRetries w) as [[payload|t] w1];
    simpl in E; subst w1.
  - unfold lift. destruct (js_array_map toHoliday payload) as [hs|t]; simpl.
    + eexists _, dt, evs. split; [reflexivity|]. split; [exact R|].
      intros k Hk. now rewrite lookup_insert_ne.
    + exists (cache w), dt, (evs ++ [LogError ("Error fetching holidays for "
                                             +:+ countryCode +:+ ":")]).
      split; [now rewrite <- app_assoc|]. split; [|reflexivity].
      rewrite requests_to_log. exact R.
  - simpl.
    exists (cache w), dt, (evs ++ [LogError ("Error fetching holidays for "
                                           +:+ countryCode +:+ ":")]).
    split; [now rewrite <- app_assoc|]. split; [|reflexivity].
    rewrite requests_to_log. exact R.
Qed.

(** X9.  When the lookup misses the cache and the fetch succeeds with a
    payload whose normalisation throws (it is not an array, or an element is
    [null]), [getHolidays] logs the error and returns the empty list, and
    nothing is cached for the key. *)
Theorem getHolidays_rejected_payload (countryCode : string) (year : Z)
    (w w' : World) (payload : JsVal) (t : Thrown) :
  let key := holidays_key countryCode year in
  let url := holidays_url countryCode year in
  fst (getFromCache key HOLIDAYS_TTL w) = Ok None ->
  fetchWithRetry net url default_maxRetries (evicted key w) = (Ok payload, w') ->
  js_array_map toHoliday payload = Throw t ->
  getHolidays net countryCode year w
  = (Ok [], after w' 0 [LogError ("Error fetching holidays for " +:+ countryCode +:+ ":")]) /\
  cache w' !! key = None.
Proof.
  intros key url Hmiss Hfetch Hmap. split.
  - unfold key. rewrite (getHolidays_miss _ _ _ _ Hmiss). fold key.
    unfold getHolidays_fetch, try_catch, bind. fold url. rewrite Hfetch.
    unfold lift. rewrite Hmap. unfold console_error, emit, ret, after. simpl.
    now rewrite Z.add_0_r.
  - pose proof (fetchWithRetry_cache net url default_maxRetries (evicted key w)) as C.
    rewrite Hfetch in C. simpl in C. rewrite C. apply lookup_delete_eq.
Qed.

(** X10.  An entry older than 24 hours is never served: with the holiday
    source failing on all three attempts, [getHolidays] drops the expired
    entry and returns the empty list, not the stale one. *)
Theorem getHolidays_expired_entry (countryCode : string) (year : Z) (w : World)
    (entry : CacheEntry) (e0 e1 e2 : Error) :
  let key := holidays_key countryCode year in
  let url := holidays_url countryCode year in
  let n := requests_to url (trace w) in
  cache w !! key = Some entry ->
  now w - timestamp entry > HOLIDAYS_TTL ->
  fails (net url n) e0 -> fails (net url (n + 1)) e1 -> fails (net url (n + 2)) e2 ->
  fst (getHolidays net countryCode year w) = Ok [] /\
  cache (snd (getHolidays net countryCode year w)) !! key = None.
Proof.
  intros key url n Hentry Hold H0 H1 H2.
  assert (Hmiss : fst (getFromCache key HOLIDAYS_TTL w) = Ok None)
    by now rewrite (getFromCache_expired _ _ _ _ Hentry Hold).
  unfold key. rewrite (getHolidays_miss _ _ _ _ Hmiss). fold key.
  unfold getHolidays_fetch, try_catch, bind. fold url.
  rewrite (fetchWithRetry_exhausted net url (evicted key w) e0 e1 e2 H0 H1 H2).
  simpl. split; [reflexivity | apply lookup_delete_eq].
Qed.

End HolidayFacts.

(** X11.  A failure is not cached: after a lookup that missed and three
    failed attempts there is no entry for the key, and the next call, on
    whatever network and however soon, asks the holiday source again. *)
Theorem getHolidays_failure_not_cached (net : string -> nat -> Exchange)
    (countryCode : string) (year : Z) (w : World) (e0 e1 e2 : Error) :
  let key := holidays_key countryCode year in
  let url := holidays_url countryCode year in
  let n := requests_to url (trace w) in
  let w1 := snd (getHolidays net countryCode year w) in
  fst (getFromCache key HOLIDAYS_TTL w) = Ok None ->
  fails (net url n) e0 -> fails (net url (n + 1)%nat) e1 ->
  fails (net url (n + 2)%nat) e2 ->
  cache w1 !! key = None /\
  forall (net' : string -> nat -> Exchange) (d : Z) (evs : list Event),
    (requests_to url (trace (after w1 d evs)) + 1
     <= requests_to url (trace (snd (getHolidays net' countryCode year (after w1 d evs)))))%nat.
Proof.
  intros key url n w1 Hmiss H0 H1 H2.
  assert (C : cache w1 !! key = None).
  { unfold w1, key. rewrite (getHolidays_miss _ _ _ _ Hmiss). fold key.
    unfold getHolidays_fetch, try_catch, bind. fold url.
    rewrite (fetchWithRetry_exhausted net url (evicted key w) e0 e1 e2 H0 H1 H2).
    simpl. apply lookup_delete_eq. }
  split; [exact C|]. intros net' d evs.
  set (w2 := after w1 d evs).
  assert (Hmiss2 : fst (getFromCache key HOLIDAYS_TTL w2) = Ok None)
    by now rewrite (getFromCache_absent key HOLIDAYS_TTL w2 C).
  unfold key. rewrite (getHolidays_miss _ _ _ _ Hmiss2). fold key.
  destruct (getHolidays_fetch_world net' key countryCode year (evicted key w2))
    as (c & dt & evs' & E & R & _).
  rewrite E. cbn [snd trace evicted]. fold url in R |- *. rewrite requests_to_app. lia.
Qed.

(** ** The timezone status provider *)

Lemma toZoneStatus_live body : nullish body = false -> toZoneStatus body = Ok (live_status body).
Proof. intros H. unfold toZoneStatus. rewrite !(getProp_property _ _ H). reflexivity. Qed.

Lemma toZoneStatus_nullish body : nullish body = true -> exists t, toZoneStatus body = Throw t.
Proof.
  intros H. unfold toZoneStatus. destruct (getProp_nullish body "timezone" H) as [t ->].
  now exists t.
Qed.

Lemma getZoneStatus_hit net Intl_formatToParts zone w entry zs :
  cache w !! zone_key zone = Some entry ->
  data entry = CachedZone zs ->
  now w - timestamp entry <= TIMEZONES_TTL ->
  getZoneStatus net Intl_formatToParts zone w = (Ok (Some zs), w).
Proof.
  intros H Hd Hfresh. unfold getZoneStatus, getZoneStatus_call. fold (zone_key zone).
  rewrite (getFromCache_hit _ _ _ _ H Hfresh), Hd. reflexivity.
Qed.

Lemma getZoneStatus_fetch_world net Intl_formatToParts cacheKey zone w :
  exists c dt evs,
    snd (getZoneStatus_fetch net Intl_formatToParts cacheKey zone w)
    = mkWorld c (now w + dt) (trace w ++ evs) /\
    (1 <= requests_to (zone_url zone) evs <= 3)%nat /\
    (forall k, k <> cacheKey -> c !! k = cache w !! k) /\
    match fst (getZoneStatus_fetch net Intl_formatToParts cacheKey zone w) with
    | Ok (Some zs) => c !! cacheKey = Some (mkCacheEntry (CachedZone zs) (now w + dt))
    | Ok None => c = cache w
    | Throw _ => False
    end.
Proof.
  unfold getZoneStatus_fetch, try_catch, bind.
  destruct (fetchWithRetry_requests net (zone_url zone) default_maxRetries w)
    as (dt & evs & E & R).
  assert (L : forall w1, w1 = after w dt evs ->
    exists c dt evs,
      snd (getZoneStatus_local Intl_formatToParts cacheKey zone w1)
      = mkWorld c (now w + dt) (trace w ++ evs) /\
      (1 <= requests_to (zone_url zone) evs <= 3)%nat /\
      (forall k, k <> cacheKey -> c !! k = cache w !! k) /\
      match fst (getZoneStatus_local Intl_formatToParts cacheKey zone w1) with
      | Ok (Some zs) => c !! cacheKey = Some (mkCacheEntry (CachedZone zs) (now w + dt))
      | Ok None => c = cache w
      | Throw _ => False
      end).
  { intros w1 ->. rewrite getZoneStatus_local_eq.
    destruct (Intl_formatToParts zone (now (after w dt evs))) as [parts|t].
    - destruct (timeZoneName_part parts) as [p|]; simpl.
      + eexists _, dt, evs. split; [reflexivity|]. split; [exact R|]. split.
        * intros k Hk. now rewrite lookup_insert_ne.
        * apply lookup_insert_eq.
      + exists (cache w), dt, evs. repeat split; (exact R || reflexivity || apply R).
    - simpl. exists (cache w), (dt + 0), (evs ++ [LogError ("Error getting zone status for "
                                                          +:+ zone +:+ ":")]).
      split; [unfold after; simpl; f_equal; [lia | now rewrite <- app_assoc]|].
      rewrite requests_to_log. repeat split; (exact R || reflexivity || apply R). }
  destruct (fetchWithRetry net _ default_maxRetries w) as [[body|t] w1];
    simpl in E; [|now apply L].
  unfold lift. destruct (toZoneStatus body) as [zs|t]; simpl; [|now apply L].
  subst w1. eexists _, dt, evs. split; [reflexivity|]. split; [exact R|]. split.
  - intros k Hk. now rewrite lookup_insert_ne.
  - apply lookup_insert_eq.
Qed.

Section ZoneFacts.
Variable net : string -> nat -> Exchange.
Variable Intl_formatToParts : string -> Z -> Res (list Part).

(** X12.  [getZoneStatus] never throws, whatever the cache holds, the live
    service answers and the runtime does. *)
Theorem getZoneStatus_never_throws (zone : string) (w : World) :
  exists s, fst (getZoneStatus net Intl_formatToParts zone w) = Ok s.
Proof.
  unfold getZoneStatus.
  pose proof (getZoneStatus_call_safe net Intl_formatToParts zone w) as S.
  destruct (getZoneStatus_call net Intl_formatToParts zone w) as [p w1]. apply S.
Qed.

(** X13.  On a miss, when the live service answers with a body that is not
    [null], [getZoneStatus] returns and caches the body's [timezone] and
    [utc_offset] as they are, with [dst] the body's [dst] when that is
    truthy and [false] otherwise; a [null] body is handled like a failed
    request, by the local fallback. *)
Theorem getZoneStatus_live (zone : string) (w w' : World) (body : JsVal) :
  let key := zone_key zone in
  let url := zone_url zone in
  fst (getFromCache key TIMEZONES_TTL w) = Ok None ->
  fetchWithRetry net url default_maxRetries (evicted key w) = (Ok body, w') ->
  (nullish body = false ->
     getZoneStatus net Intl_formatToParts zone w
     = (Ok (Some (live_status body)),
        snd (setCache key (CachedZone (live_status body)) w'))) /\
  (nullish body = true ->
     getZoneStatus net Intl_formatToParts zone w
     = getZoneStatus_local Intl_formatToParts key zone w').
Proof.
  intros key url Hmiss Hfetch.
  unfold key. rewrite (getZoneStatus_miss _ _ _ _ Hmiss). fold key.
  unfold getZoneStatus_fetch, try_catch, bind. fold url. rewrite Hfetch. unfold lift.
  split; intros N.
  - now rewrite (toZoneStatus_live body N).
  - destruct (toZoneStatus_nullish body N) as [t ->]. reflexivity.
Qed.

End ZoneFacts.

Lemma getZoneStatus_cases net Intl_formatToParts zone w :
  let key := zone_key zone in
  let r := getZoneStatus net Intl_formatToParts zone w in
  (exists entry zs,
     cache w !! key = Some entry /\ data entry = CachedZone zs /\
     now w - timestamp entry <= TIMEZONES_TTL /\ r = (Ok (Some zs), w)) \/
  (exists w1,
     r = getZoneStatus_fetch net Intl_formatToParts key zone w1 /\
     now w1 = now w /\ trace w1 = trace w /\
     (forall k, k <> key -> cache w1 !! k = cache w !! k) /\
     no_status_cached key (cache w1)).
Proof.
  intros key r. subst key r. unfold getZoneStatus, getZoneStatus_call.
  change (getCacheKey "zone" [zone]) with (zone_key zone).
  unfold getFromCache. destruct (cache w !! zone_key zone) as [entry|] eqn:H.
  - destruct (now w - timestamp entry >? TIMEZONES_TTL) eqn:E.
    + right. eexists. split; [reflexivity|]. simpl. repeat split.
      * intros k Hk. now rewrite lookup_delete_ne.
      * intros e He. rewrite lookup_delete_eq in He. discriminate.
    + destruct (data entry) as [hs|zs] eqn:D.
      * right. exists w. simpl. repeat split. intros e He. rewrite H in He.
        injection He as <-. now exists hs.
      * left. exists entry, zs. repeat split; try assumption.
        rewrite Z.gtb_ltb in E. apply Z.ltb_ge in E. lia.
  - right. exists w. simpl. repeat split. intros e He. rewrite H in He. discriminate.
Qed.

(** X14.  A status [getZoneStatus] has returned, by whichever path, is in
    the cache and not yet expired; every later call made before it expires
    returns the same status without any request, whatever the live service
    and the runtime would answer by then. *)
Theorem getZoneStatus_result_cached (net : string -> nat -> Exchange)
    (Intl_formatToParts : string -> Z -> Res (list Part))
    (zone : string) (w : World) (zs : ZoneStatus) :
  let w' := snd (getZoneStatus net Intl_formatToParts zone w) in
  fst (getZoneStatus net Intl_formatToParts zone w) = Ok (Some zs) ->
  exists entry,
    cache w' !! zone_key zone = Some entry /\
    data entry = CachedZone zs /\
    now w' - timestamp entry <= TIMEZONES_TTL /\
    forall net' Intl' d evs,
      now w' + d - timestamp entry <= TIMEZONES_TTL ->
      getZoneStatus net' Intl' zone (after w' d evs) = (Ok (Some zs), after w' d evs).
Proof.
  intros w' Hres.
  assert (K : exists entry,
    cache w' !! zone_key zone = Some entry /\ data entry = CachedZone zs /\
    now w' - timestamp entry <= TIMEZONES_TTL).
  { unfold w' in *.
    destruct (getZoneStatus_cases net Intl_formatToParts zone w)
      as [(entry & zs' & H & D & F & E)|(w1 & E & _)]; rewrite E in *; simpl in *.
    - injection Hres as <-. now exists entry.
    - destruct (getZoneStatus_fetch_world net Intl_formatToParts (zone_key zone) zone w1)
        as (c & dt & evs & Ew & _ & _ & M).
      rewrite Hres in M. rewrite Ew. simpl. eexists. split; [exact M|]. simpl.
      split; [reflexivity|]. unfold TIMEZONES_TTL. lia. }
  destruct K as (entry & H & D & F). exists entry. repeat split; try assumption.
  intros net' Intl' d evs Hd. apply (getZoneStatus_hit _ _ _ _ entry); simpl; assumption.
Qed.

(** X15.  An absent result is not cached: after a call that resolved to
    absent, the next call, on whatever network and runtime and however
    soon, asks the live service again. *)
Theorem getZoneStatus_absent_not_cached (net : string -> nat -> Exchange)
    (Intl_formatToParts : string -> Z -> Res (list Part)) (zone : string) (w : World) :
  let w' := snd (getZoneStatus net Intl_formatToParts zone w) in
  fst (getZoneStatus net Intl_formatToParts zone w) = Ok None ->
  forall net' Intl' d evs,
    (requests_to (zone_url zone) (trace (after w' d evs)) + 1
     <= requests_to (zone_url zone)
          (trace (snd (getZoneStatus net' Intl' zone (after w' d evs)))))%nat.
Proof.
  intros w' Hres.
  assert (N : no_status_cached (zone_key zone) (cache w')).
  { unfold w' in *.
    destruct (getZoneStatus_cases net Intl_formatToParts zone w)
      as [(entry & zs' & H & D & F & E)|(w1 & E & _ & _ & _ & N)]; rewrite E in *;
      simpl in *; [discriminate|].
    destruct (getZoneStatus_fetch_world net Intl_formatToParts (zone_key zone) zone w1)
      as (c & dt & evs & Ew & _ & _ & M).
    rewrite Hres in M. rewrite Ew. simpl. now subst c. }
  intros net' Intl' d evs.
  destruct (getZoneStatus_cases net' Intl' zone (after w' d evs))
    as [(entry & zs' & H & D & _)|(w1 & E & _ & T & _)].
  - simpl in H. destruct (N entry H) as [hs Hhs]. congruence.
  - rewrite E.
    destruct (getZoneStatus_fetch_world net' Intl' (zone_key zone) zone w1)
      as (c & dt & evs' & Ew & R & _).
    rewrite Ew. cbn [snd trace]. rewrite T, requests_to_app. lia.
Qed.

(** X16.  A provider call changes the cache under its own key only: every
    other entry is after [getHolidays], and after [getZoneStatus], what it
    was before. *)
Theorem providers_touch_own_key_only (net : string -> nat -> Exchange)
    (Intl_formatToParts : string -> Z -> Res (list Part)) (w : World) :
  (forall countryCode year k,
     k <> holidays_key countryCode year ->
     cache (snd (getHolidays net countryCode year w)) !! k = cache w !! k) /\
  (forall zone k,
     k <> zone_key zone ->
     cache (snd (getZoneStatus net Intl_formatToParts zone w)) !! k = cache w !! k).
Proof.
  split.
  - intros cc year k Hk. unfold getHolidays, getHolidays_call.
    fold (holidays_key cc year).
    assert (G : forall k, k <> holidays_key cc year ->
              cache (snd (getFromCache (holidays_key cc year) HOLIDAYS_TTL w)) !! k
              = cache w !! k).
    { intros k' Hk'. unfold getFromCache.
      destruct (cache w !! holidays_key cc year) as [entry|]; [|reflexivity].
      destruct (_ >? _); [|reflexivity]. simpl. now rewrite lookup_delete_ne. }
    destruct (getFromCache (holidays_key cc year) HOLIDAYS_TTL w) as [r w1].
    simpl in G.
    assert (F : cache (snd (getHolidays_fetch net (holidays_key cc year) cc year w1)) !! k
                = cache w !! k).
    { destruct (getHolidays_fetch_world net (holidays_key cc year) cc year w1)
        as (c & dt & evs & E & _ & Fr).
      rewrite E. simpl. rewrite (Fr k Hk). now apply G. }
    destruct r as [[[hs|zs]|]|t]; simpl; try exact F. now apply G.
  - intros zone k Hk.
    destruct (getZoneStatus_cases net Intl_formatToParts zone w)
      as [(entry & zs' & H & D & F & E)|(w1 & E & _ & _ & Fr & _)]; rewrite E.
    + reflexivity.
    + destruct (getZoneStatus_fetch_world net Intl_formatToParts (zone_key zone) zone w1)
        as (c & dt & evs & Ew & _ & Fr' & _).
      rewrite Ew. simpl. rewrite (Fr' k Hk). now apply Fr.
Qed.

(** ** The cache: keys, overwriting and the age of an entry *)

Lemma pretty_N_char_not_colon x : Ascii.eqb (pretty_N_char x) ":"%char = false.
Proof. unfold pretty_N_char. now repeat case_match. Qed.

Lemma pretty_N_go_no_colon x s : has_colon s = false -> has_colon (pretty_N_go x s) = false.
Proof.
  revert s. induction (N.lt_wf_0 x) as [x _ IH]; intros s Hs.
  assert (x = 0 \/ 0 < x)%N as [->|Hx] by lia.
  - now rewrite pretty_N_go_0.
  - rewrite pretty_N_go_step by exact Hx. apply IH.
    + now apply N.div_lt.
    + simpl. now rewrite pretty_N_char_not_colon.
Qed.

Lemma pretty_N_no_colon (x : N) : has_colon (pretty x) = false.
Proof.
  unfold pretty, pretty_N. case_decide; [reflexivity|]. now apply pretty_N_go_no_colon.
Qed.

Lemma year_toString_no_colon year : has_colon (year_toString year) = false.
Proof.
  unfold year_toString, pretty, pretty_Z. destruct year as [|p|p]; [reflexivity|..].
  - apply pretty_N_no_colon.
  - simpl. apply pretty_N_no_colon.
Qed.

Lemma append_colon_inj (a a' p p' : string) :
  has_colon p = false -> has_colon p' = false ->
  a +:+ ":" +:+ p = a' +:+ ":" +:+ p' -> a = a' /\ p = p'.
Proof.
  intros Hp Hp'.
  assert (C : forall b q, has_colon q = false -> q <> b +:+ ":" +:+ p').
  { intros b q Hq ->. induction b as [|c b IHb]; simpl in Hq; [discriminate|].
    apply orb_false_iff in Hq as [_ Hq]. auto. }
  assert (C' : forall b q, has_colon q = false -> q <> b +:+ ":" +:+ p).
  { intros b q Hq ->. induction b as [|c b IHb]; simpl in Hq; [discriminate|].
    apply orb_false_iff in Hq as [_ Hq]. auto. }
  revert a'. induction a as [|c a IH]; intros [|c' a'] H; simpl in H.
  - injection H as H. now split.
  - injection H as Hc H. destruct (C a' p Hp H).
  - injection H as Hc H. symmetry in H. destruct (C' a p' Hp' H).
  - injection H as -> H. destruct (IH _ H) as [-> ->]. now split.
Qed.

(** X17.  Cache keys do not collide: two holiday keys are equal only for the
    same country code and year, two zone keys only for the same zone, and a
    holiday key is never a zone key. *)
Theorem cache_keys_distinct :
  (forall countryCode year countryCode' year',
     holidays_key countryCode year = holidays_key countryCode' year' ->
     countryCode = countryCode' /\ year = year') /\
  (forall zone zone', zone_key zone = zone_key zone' -> zone = zone') /\
  (forall countryCode year zone,
     String.eqb (holidays_key countryCode year) (zone_key zone) = false).
Proof.
  split; [|split].
  - intros cc year cc' year' H. unfold holidays_key, getCacheKey in H. simpl in H.
    injection H as H.
    apply append_colon_inj in H as [-> H]; try apply year_toString_no_colon.
    split; [reflexivity|]. now apply (inj pretty).
  - intros zone zone' H. unfold zone_key, getCacheKey in H. simpl in H. now injection H.
  - intros cc year zone. reflexivity.
Qed.

(** X18.  The TTL counts from the insertion and a hit does not extend it:
    after [setCache], a lookup that hits [d1] ms later leaves the entry's
    age running, so that a second lookup [d2] ms after the first hits
    exactly when [d1 + d2 <= ttl]. *)
Theorem cache_ttl_not_sliding (key : string) (v : CacheData) (ttl d1 d2 : Z)
    (w : World) (evs evs' : list Event) :
  let w1 := snd (setCache key v w) in
  let w2 := snd (getFromCache key ttl (after w1 d1 evs)) in
  d1 <= ttl ->
  fst (getFromCache key ttl (after w1 d1 evs)) = Ok (Some v) /\
  fst (getFromCache key ttl (after w2 d2 evs'))
  = Ok (if d1 + d2 >? ttl then None else Some v).
Proof.
  intros w1 w2 Hd1.
  assert (H : cache (after w1 d1 evs) !! key = Some (mkCacheEntry v (now w)))
    by apply lookup_insert_eq.
  assert (E : getFromCache key ttl (after w1 d1 evs) = (Ok (Some v), after w1 d1 evs)).
  { apply (getFromCache_hit _ _ _ _ H). simpl. lia. }
  split; [now rewrite E|]. unfold w2. rewrite E. simpl snd.
  assert (H' : cache (after (after w1 d1 evs) d2 evs') !! key
               = Some (mkCacheEntry v (now w))) by apply lookup_insert_eq.
  destruct (d1 + d2 >? ttl) eqn:G.
  - rewrite (getFromCache_expired _ _ _ _ H'); [reflexivity|]. simpl.
    apply Z.gtb_lt in G. lia.
  - rewrite (getFromCache_hit _ _ _ _ H'); [reflexivity|]. simpl.
    rewrite Z.gtb_ltb in G. apply Z.ltb_ge in G. lia.
Qed.

(** X19.  A second [setCache] on a key replaces the value and restarts its
    TTL: whatever the age [d1] of the first entry, a lookup [d2] ms after
    the second write returns the second value exactly when [d2 <= ttl]. *)
Theorem cache_overwrite (key : string) (v1 v2 : CacheData) (ttl d1 d2 : Z)
    (w : World) (evs evs' : list Event) :
  let w1 := snd (setCache key v1 w) in
  let w2 := snd (setCache key v2 (after w1 d1 evs)) in
  fst (getFromCache key ttl (after w2 d2 evs'))
  = Ok (if d2 >? ttl then None else Some v2).
Proof.
  intros w1 w2.
  assert (H : cache (after w2 d2 evs') !! key = Some (mkCacheEntry v2 (now w + d1)))
    by apply lookup_insert_eq.
  destruct (d2 >? ttl) eqn:G.
  - rewrite (getFromCache_expired _ _ _ _ H); [reflexivity|]. simpl.
    apply Z.gtb_lt in G. lia.
  - rewrite (getFromCache_hit _ _ _ _ H); [reflexivity|]. simpl.
    rewrite Z.gtb_ltb in G. apply Z.ltb_ge in G. lia.
Qed.

(** ** The router *)

Lemma z_string_length_2_spec v s :
  z_string_length_2 v = Some s -> v = JStr s /\ String.length s = 2%nat.
Proof.
  unfold z_string_length_2, z_string. destruct v; try discriminate.
  destruct (String.length s0 =? 2)%nat eqn:E; [|discriminate].
  intros [= <-]. split; [reflexivity|]. now apply Nat.eqb_eq.
Qed.

Section RouterFacts.
Variable net : string -> nat -> Exchange.
Variable Intl_formatToParts : string -> Z -> Res (list Part).

Lemma getHolidays_ok countryCode year w :
  exists hs, fst (getHolidays net countryCode year w) = Ok hs.
Proof.
  unfold getHolidays. pose proof (getHolidays_call_safe net countryCode year w) as S.
  destruct (getHolidays_call net countryCode year w) as [p w1]. apply S.
Qed.

Lemma getZoneStatus_ok zone w :
  exists s, fst (getZoneStatus net Intl_formatToParts zone w) = Ok s.
Proof.
  unfold getZoneStatus.
  pose proof (getZoneStatus_call_safe net Intl_formatToParts zone w) as S.
  destruct (getZoneStatus_call net Intl_formatToParts zone w) as [p w1]. apply S.
Qed.

(** X20.  No route of the country router answers with an internal error:
    on every input and in every world each of [getHolidays], [getTimezones],
    [getZoneStatus] and [compare] either refuses the input, leaving the
    world untouched, or returns a value. *)
Theorem routes_never_fail (input : JsVal) (w : World) :
  sound_answer w (route_getHolidays net input w) /\
  sound_answer w (route_getTimezones input w) /\
  sound_answer w (route_getZoneStatus net Intl_formatToParts input w) /\
  sound_answer w (route_compare net Intl_formatToParts input w).
Proof.
  split; [|split; [|split]].
  - unfold route_getHolidays, procedure.
    destruct (holidays_input input) as [[country year]|]; [|reflexivity].
    destruct (getHolidays_ok country year w) as [hs E].
    destruct (getHolidays net country year w) as [r w']. simpl in E. now subst r.
  - unfold route_getTimezones, procedure.
    destruct (timezones_input input); reflexivity.
  - unfold route_getZoneStatus, procedure.
    destruct (zone_status_input input) as [zone|]; [|reflexivity].
    destruct (getZoneStatus_ok zone w) as [s E].
    destruct (getZoneStatus net Intl_formatToParts zone w) as [r w']. simpl in E. now subst r.
  - unfold route_compare, procedure.
    destruct (compare_input input) as [[[countryA countryB] year]|] eqn:I; [|reflexivity].
    unfold compare_input in I.
    destruct (z_field input "countryA") as [a|]; [|discriminate].
    destruct (z_field input "countryB") as [b|]; [|discriminate].
    destruct (z_field input "year") as [y|]; [|discriminate].
    destruct (z_string_length_2 a) as [sa|] eqn:Ea; [|discriminate].
    destruct (z_string_length_2 b) as [sb|] eqn:Eb; [|discriminate].
    destruct (z_year y); [|discriminate]. injection I as -> -> ->.
    apply z_string_length_2_spec in Ea as [_ La], Eb as [_ Lb].
    assert (TA : exists zonesA, getTimezones countryA = ZoneList zonesA).
    { unfold getTimezones. destruct (own_property countryA COUNTRY_TIMEZONES);
        [eexists; reflexivity|]. rewrite (length_two_not_inherited _ La). now eexists. }
    assert (TB : exists zonesB, getTimezones countryB = ZoneList zonesB).
    { unfold getTimezones. destruct (own_property countryB COUNTRY_TIMEZONES);
        [eexists; reflexivity|]. rewrite (length_two_not_inherited _ Lb). now eexists. }
    destruct TA as [zA HA], TB as [zB HB].
    destruct (compareCountries_ok net Intl_formatToParts countryA countryB year w zA zB HA HB)
      as (hA & hB & sA & sB & E & _).
    destruct (compareCountries net Intl_formatToParts countryA countryB year w) as [r w'].
    simpl in E. now subst r.
Qed.

(** X21.  The [getTimezones] route answers an accepted input with a list of
    zones, never with an inherited member: the table's entry for the code,
    or the empty list when the table has none. *)
Theorem route_getTimezones_list (input : JsVal) (w : World) (v : TimezonesValue) (w' : World) :
  route_getTimezones input w = (Served (Ok v), w') ->
  exists country,
    property input "country" = JStr country /\
    String.length country = 2%nat /\
    v = ZoneList (default [] (own_property country COUNTRY_TIMEZONES)) /\
    w' = w.
Proof.
  unfold route_getTimezones, procedure, timezones_input, z_field.
  destruct input; try discriminate. cbv beta iota.
  destruct (z_string_length_2 (lookup_prop "country" props)) as [country|] eqn:E;
    [|discriminate].
  apply z_string_length_2_spec in E as [E L]. unfold ret. intros [= <- <-].
  exists country. split; [exact E|]. split; [exact L|]. split; [|reflexivity].
  clear E.
  unfold getTimezones. destruct (own_property country COUNTRY_TIMEZONES); [reflexivity|].
  now rewrite (length_two_not_inherited _ L).
Qed.

End RouterFacts.

(** ** [compareCountries] when every provider is down *)

Lemma extends_refl w : extends w w.
Proof. exists []. now rewrite app_nil_r. Qed.

Lemma extends_trans w1 w2 w3 : extends w1 w2 -> extends w2 w3 -> extends w1 w3.
Proof. intros [e1 H1] [e2 H2]. exists (e1 ++ e2). now rewrite H2, H1, app_assoc. Qed.

Lemma extends_requests url w w' :
  extends w w' -> (requests_to url (trace w) <= requests_to url (trace w'))%nat.
Proof. intros [evs ->]. rewrite requests_to_app. lia. Qed.

Lemma validStatuses_none {X} (l : list X) :
  validStatuses (map (fun _ => None) l) = [].
Proof. induction l as [|x l IH]; [reflexivity | exact IH]. Qed.

Section Degraded.
Variable net : string -> nat -> Exchange.
Variable Intl_formatToParts : string -> Z -> Res (list Part).

Hypothesis every_request_fails : forall url n, exists e, fails (net url n) e.
Hypothesis runtime_knows_no_zone : forall zone t, exists err, Intl_formatToParts zone t = Throw err.

Lemma fetchWithRetry_down url w :
  exists e dt evs,
    fetchWithRetry net url default_maxRetries w = (Throw (Some e), after w dt evs).
Proof.
  destruct (every_request_fails url (requests_to url (trace w))) as [e0 H0].
  destruct (every_request_fails url (requests_to url (trace w) + 1)) as [e1 H1].
  destruct (every_request_fails url (requests_to url (trace w) + 2)) as [e2 H2].
  rewrite (fetchWithRetry_exhausted net url w e0 e1 e2 H0 H1 H2). now eexists _, _, _.
Qed.

Lemma getHolidays_fetch_down cacheKey countryCode year w :
  exists w', getHolidays_fetch net cacheKey countryCode year w = (Ok [], w') /\
             cache w' = cache w.
Proof.
  unfold getHolidays_fetch, try_catch, bind.
  destruct (fetchWithRetry_down (holidays_url countryCode year) w) as (e & dt & evs & ->).
  eexists. split; reflexivity.
Qed.

Lemma getZoneStatus_fetch_down cacheKey zone w :
  exists w', getZoneStatus_fetch net Intl_formatToParts cacheKey zone w = (Ok None, w') /\
             cache w' = cache w.
Proof.
  unfold getZoneStatus_fetch, try_catch, bind.
  destruct (fetchWithRetry_down (zone_url zone) w) as (e & dt & evs & ->).
  rewrite getZoneStatus_local_eq.
  destruct (runtime_knows_no_zone zone (now (after w dt evs))) as [err ->].
  eexists. split; reflexivity.
Qed.

Lemma getHolidays_call_cold countryCode year w :
  cache w !! holidays_key countryCode year = None ->
  getHolidays_call net countryCode year w
  = (Pending (getHolidays_fetch net (holidays_key countryCode year) countryCode year), w).
Proof.
  intros H. unfold getHolidays_call. fold (holidays_key countryCode year).
  now rewrite (getFromCache_absent _ _ _ H).
Qed.

Lemma getZoneStatus_call_cold zone w :
  cache w !! zone_key zone = None ->
  getZoneStatus_call net Intl_formatToParts zone w
  = (Pending (getZoneStatus_fetch net Intl_formatToParts (zone_key zone) zone), w).
Proof.
  intros H. unfold getZoneStatus_call. fold (zone_key zone).
  now rewrite (getFromCache_absent _ _ _ H).
Qed.

Lemma start_all_cold zones w :
  cache w = ∅ ->
  start_all (getZoneStatus_call net Intl_formatToParts) zones w
  = (map (fun z => Pending (getZoneStatus_fetch net Intl_formatToParts (zone_key z) z)) zones,
     w).
Proof.
  intros H. induction zones as [|z zones IH]; simpl; [reflexivity|].
  rewrite getZoneStatus_call_cold by (rewrite H; apply lookup_empty). now rewrite IH.
Qed.

Lemma Promise_all_down zones w :
  exists w',
    Promise_all
      (map (fun z => Pending (getZoneStatus_fetch net Intl_formatToParts (zone_key z) z))
         zones) w
    = (Ok (map (fun _ => None) zones), w') /\
    cache w' = cache w.
Proof.
  revert w. induction zones as [|z zones IH]; intros w; simpl.
  - now exists w.
  - destruct (getZoneStatus_fetch_down (zone_key z) z w) as (w1 & -> & C1).
    destruct (IH w1) as (w2 & -> & C2). exists w2. split; [reflexivity | congruence].
Qed.

(** X22.  With every request failing and a runtime that knows no zone,
    [compareCountries], started on an empty cache with two codes that name
    no inherited member, still returns a result: its inputs, no holidays,
    no statuses and no overlap; and the cache is still empty. *)
Theorem compareCountries_all_providers_down (countryA countryB : string) (year : Z)
    (w : World) :
  existsb (String.eqb countryA) Object_prototype_members = false ->
  existsb (String.eqb countryB) Object_prototype_members = false ->
  cache w = ∅ ->
  fst (compareCountries net Intl_formatToParts countryA countryB year w)
  = Ok (empty_result countryA countryB year) /\
  cache (snd (compareCountries net Intl_formatToParts countryA countryB year w)) = ∅.
Proof.
  intros HA HB Hc.
  assert (T : forall c, existsb (String.eqb c) Object_prototype_members = false ->
              exists zones, zones_array (getTimezones c) = Ok zones).
  { intros c H. unfold getTimezones. destruct (own_property c COUNTRY_TIMEZONES);
      [now eexists|]. rewrite H. now eexists. }
  destruct (T _ HA) as [zA EA], (T _ HB) as [zB EB].
  unfold compareCountries.
  rewrite getHolidays_call_cold by (rewrite Hc; apply lookup_empty).
  rewrite getHolidays_call_cold by (rewrite Hc; apply lookup_empty).
  unfold bind, Promise_all2, await.
  destruct (getHolidays_fetch_down (holidays_key countryA year) countryA year w)
    as (w1 & -> & C1).
  destruct (getHolidays_fetch_down (holidays_key countryB year) countryB year w1)
    as (w2 & -> & C2).
  unfold lift. rewrite EA.
  rewrite start_all_cold by congruence. rewrite EB.
  rewrite start_all_cold by congruence.
  destruct (Promise_all_down zA w2) as (w3 & -> & C3).
  destruct (Promise_all_down zB w3) as (w4 & -> & C4).
  unfold ret. simpl. split; [|congruence].
  unfold empty_result, compareTimezones. now rewrite !validStatuses_none.
Qed.

End Degraded.

(** ** The requests of one comparison *)

Section Requests.
Variable net : string -> nat -> Exchange.
Variable Intl_formatToParts : string -> Z -> Res (list Part).

Lemma getZoneStatus_call_appends zone w :
  appends (fst (getZoneStatus_call net Intl_formatToParts zone w)) /\
  trace (snd (getZoneStatus_call net Intl_formatToParts zone w)) = trace w.
Proof.
  unfold getZoneStatus_call.
  destruct (getFromCache_frame (getCacheKey "zone" [zone]) TIMEZONES_TTL w) as [_ T].
  destruct (getFromCache (getCacheKey "zone" [zone]) TIMEZONES_TTL w) as [[[[hs|zs]|]|t] w1];
    simpl in *; (split; [|exact T]); intros w'; simpl; try apply extends_refl;
  destruct (getZoneStatus_fetch_world net Intl_formatToParts
              (getCacheKey "zone" [zone]) zone w') as (c & dt & evs & -> & _);
  now exists evs.
Qed.

Lemma start_all_appends zones w :
  Forall appends (fst (start_all (getZoneStatus_call net Intl_formatToParts) zones w)) /\
  trace (snd (start_all (getZoneStatus_call net Intl_formatToParts) zones w)) = trace w.
Proof.
  revert w. induction zones as [|z zones IH]; intros w; simpl; [now split|].
  destruct (getZoneStatus_call_appends z w) as [A T].
  destruct (getZoneStatus_call net Intl_formatToParts z w) as [p w1]; simpl in *.
  destruct (IH w1) as [A' T'].
  destruct (start_all _ zones w1) as [ps w2]; simpl in *.
  split; [now constructor | congruence].
Qed.

Lemma Promise_all_appends {A} (ps : list (Promise A)) :
  Forall appends ps -> appends (Pending (Promise_all ps)).
Proof.
  induction 1 as [|p ps Hp _ IH]; intros w; simpl; [apply extends_refl|].
  specialize (Hp w). destruct (await p w) as [[a|t] w1]; simpl in Hp.
  - specialize (IH w1). simpl in IH. destruct (Promise_all ps w1) as [[l|t] w2];
      simpl in *; eapply extends_trans; eauto.
  - specialize (IH w1). simpl in *. eapply extends_trans; eauto.
Qed.

Lemma Promise_all2_appends {A B} (pa : Promise A) (pb : Promise B) w :
  appends pa -> appends pb -> extends w (snd (Promise_all2 pa pb w)).
Proof.
  intros Ha Hb. unfold Promise_all2. specialize (Ha w).
  destruct (await pa w) as [[a|t] w1]; simpl in Ha.
  - specialize (Hb w1). destruct (await pb w1) as [[b|t] w2]; simpl in *;
      eapply extends_trans; eauto.
  - specialize (Hb w1). simpl. eapply extends_trans; eauto.
Qed.

(** The zone half of [compareCountries] only appends to the trace. *)
Lemma zone_half_extends {R} countryA countryB (k : _ -> _ -> R) w :
  extends w
    (snd ((do zonesA <- lift (zones_array (getTimezones countryA));
           fun w3 =>
             let '(psA, w4) :=
               start_all (getZoneStatus_call net Intl_formatToParts) zonesA w3 in
             (do zonesB <- lift (zones_array (getTimezones countryB));
              fun w5 =>
                let '(psB, w6) :=
                  start_all (getZoneStatus_call net Intl_formatToParts) zonesB w5 in
                (do '(statusesA, statusesB) <-
                   Promise_all2 (Pending (Promise_all psA)) (Pending (Promise_all psB));
                 ret (k statusesA statusesB)) w6) w4) w)).
Proof.
  unfold bind, lift.
  destruct (zones_array (getTimezones countryA)) as [zA|t]; simpl; [|apply extends_refl].
  destruct (start_all_appends zA w) as [FA TA].
  destruct (start_all _ zA w) as [psA w4]; simpl in *.
  destruct (zones_array (getTimezones countryB)) as [zB|t]; simpl;
    [|exists []; now rewrite app_nil_r].
  destruct (start_all_appends zB w4) as [FB TB].
  destruct (start_all _ zB w4) as [psB w6]; simpl in *.
  pose proof (Promise_all2_appends (Pending (Promise_all psA)) (Pending (Promise_all psB))
                w6 (Promise_all_appends _ FA) (Promise_all_appends _ FB)) as [evs E].
  destruct (Promise_all2 _ _ w6) as [[[sA sB]|t] w7]; simpl in *;
    exists evs; congruence.
Qed.

(** X23.  Comparing a country with itself, with its holidays not in the
    cache, sends at least two requests to the same holiday URL: both calls
    miss the cache before either fetch has stored anything. *)
Theorem compareCountries_same_country_fetches_twice (country : string) (year : Z)
    (w : World) :
  cache w !! holidays_key country year = None ->
  (requests_to (holidays_url country year) (trace w) + 2
   <= requests_to (holidays_url country year)
        (trace (snd (compareCountries net Intl_formatToParts country country year w))))%nat.
Proof.
  intros H. unfold compareCountries.
  rewrite !(getHolidays_call_cold net country year w H).
  unfold bind at 1.
  set (key := holidays_key country year). set (url := holidays_url country year).
  assert (P : exists w2,
             snd (Promise_all2 (Pending (getHolidays_fetch net key country year))
                    (Pending (getHolidays_fetch net key country year)) w) = w2 /\
             (requests_to url (trace w) + 2 <= requests_to url (trace w2))%nat).
  { unfold Promise_all2, await.
    destruct (getHolidays_fetch_world net key country year w) as (c1 & d1 & e1 & E1 & R1 & _).
    destruct (getHolidays_fetch net key country year w) as [r1 w1]; simpl in E1; subst w1.
    set (w1 := mkWorld c1 (now w + d1) (trace w ++ e1)).
    destruct (getHolidays_fetch_world net key country year w1)
      as (c2 & d2 & e2 & E2 & R2 & _).
    assert (G : (requests_to url (trace w) + 2
                 <= requests_to url (trace (snd (getHolidays_fetch net key country year w1))))%nat).
    { rewrite E2. cbn [trace w1]. rewrite !requests_to_app. fold url in R1, R2. lia. }
    eexists. split; [reflexivity|].
    destruct r1 as [a|t]; [|exact G].
    destruct (getHolidays_fetch net key country year w1) as [[b|t] w2]; exact G. }
  destruct P as (w2 & E & G).
  destruct (Promise_all2 _ _ w) as [[[hA hB]|t] w2']; simpl in E; subst w2'.
  - etransitivity; [exact G|]. apply extends_requests. apply zone_half_extends.
  - exact G.
Qed.

End Requests.

(** ** The calendars of the client page *)

Lemma falls_on_In dateStr hs :
  falls_on dateStr hs = true <-> In (JStr dateStr) (map date hs).
Proof.
  unfold falls_on. rewrite existsb_exists, in_map_iff. split.
  - intros (h & Hin & E). apply JsVal_eqb_eq in E. eauto.
  - intros (h & E & Hin). exists h. split; [exact Hin|]. rewrite E. apply JsVal_eqb_refl.
Qed.

Lemma Map_has_falls_on dateStr hs :
  Map_has (JStr dateStr) (holidayMap hs) = falls_on dateStr hs.
Proof.
  apply eq_true_iff_eq. rewrite Map_has_true, holidayMap_keys. symmetry.
  apply falls_on_In.
Qed.

Lemma Set_has_filter (f : JsVal -> bool) x xs :
  Set_has x (List.filter f xs) = Set_has x xs && f x.
Proof.
  apply eq_true_iff_eq. unfold Set_has.
  rewrite andb_true_iff, !existsb_eqb_In, filter_In. tauto.
Qed.

Lemma Set_has_app x xs ys : Set_has x (xs ++ ys) = Set_has x xs || Set_has x ys.
Proof. apply existsb_app. Qed.

Lemma Set_has_keys dateStr hs :
  Set_has (JStr dateStr) (keys (holidayMap hs)) = falls_on dateStr hs.
Proof.
  apply eq_true_iff_eq. unfold Set_has.
  rewrite existsb_eqb_In, holidayMap_keys. symmetry. apply falls_on_In.
Qed.

(** X24.  In the two calendars drawn from a comparison, the cell of a date
    is green on both when both countries have a holiday on it; otherwise it
    is blue on the calendar of the one country that has a holiday on it and
    gray on the other, or gray on both. *)
Theorem calendar_cells (holidaysA holidaysB : list Holiday) (i : Inputs)
    (t : TimezoneReport) (dateStr : string) :
  let r := mkComparisonResult i (compareHolidays holidaysA holidaysB) t in
  let inA := falls_on dateStr holidaysA in
  let inB := falls_on dateStr holidaysB in
  cellClass (Some r) (calendarA_dates r) dateStr
  = (if inA && inB then Green else if inA then Blue else Gray) /\
  cellClass (Some r) (calendarB_dates r) dateStr
  = (if inA && inB then Green else if inB then Blue else Gray).
Proof.
  intros r inA inB.
  destruct (compareHolidays_facts holidaysA holidaysB) as [Hc Ha Hb].
  unfold cellClass, calendarA_dates, calendarB_dates. cbn [holidays r].
  rewrite !Set_has_app, Hc, Ha, Hb, !Set_has_filter, !Set_has_keys, !Map_has_falls_on.
  fold inA inB. destruct inA, inB; split; reflexivity.
Qed.

(** ** The further properties at concrete inputs *)

Lemma fetchWithRetry_general_witness :
  let url := holidays_url "CO" 2025 in
  succeeds (net_flaky url 2) sample_payload_CO /\
  fetchWithRetry net_flaky url 5 world0
  = (Ok sample_payload_CO,
     after world0 3120 [Fetch url; Sleep 1000; Fetch url; Sleep 2000; Fetch url]).
Proof.
  intros url.
  assert (H2 : succeeds (net_flaky url 2) sample_payload_CO)
    by (apply succeeds_json; reflexivity).
  split; [exact H2|].
  refine (proj1 (fetchWithRetry_general net_flaky url 5 world0) 2%nat sample_payload_CO _ _ H2).
  - lia.
  - intros j Hj. exists (HttpError 503 "Service Unavailable").
    destruct j as [|[|j]]; [apply fails_status; reflexivity .. | lia].
Defined.

Lemma getHolidays_rejected_payload_witness :
  let key := holidays_key "CO" 2025 in
  let url := holidays_url "CO" 2025 in
  let w' := after (evicted key world0) 40 [Fetch url] in
  fst (getFromCache key HOLIDAYS_TTL world0) = Ok None /\
  fetchWithRetry net_malformed url default_maxRetries (evicted key world0)
  = (Ok error_body, w') /\
  js_array_map toHoliday error_body = Throw (Some (TypeError "data.map is not a function")) /\
  getHolidays net_malformed "CO" 2025 world0
  = (Ok [], after w' 0 [LogError "Error fetching holidays for CO:"]) /\
  cache w' !! key = None.
Proof.
  intros key url w'.
  assert (H1 : fst (getFromCache key HOLIDAYS_TTL world0) = Ok None) by reflexivity.
  assert (H2 : fetchWithRetry net_malformed url default_maxRetries (evicted key world0)
               = (Ok error_body, w')) by (vm_compute; reflexivity).
  assert (H3 : js_array_map toHoliday error_body
               = Throw (Some (TypeError "data.map is not a function"))) by reflexivity.
  split; [exact H1|]. split; [exact H2|]. split; [exact H3|].
  exact (getHolidays_rejected_payload net_malformed "CO" 2025 world0 w' error_body _ H1 H2 H3).
Defined.

Lemma getHolidays_expired_entry_witness :
  let key := holidays_key "CO" 2025 in
  let url := holidays_url "CO" 2025 in
  cache world_stale !! key = Some stale_entry /\
  now world_stale - timestamp stale_entry > HOLIDAYS_TTL /\
  fails (net_down url 0) (NetworkError "fetch failed") /\
  fst (getHolidays net_down "CO" 2025 world_stale) = Ok [] /\
  cache (snd (getHolidays net_down "CO" 2025 world_stale)) !! key = None.
Proof.
  intros key url.
  assert (H : forall n, fails (net_down url n) (NetworkError "fetch failed"))
    by (intros n; apply fails_transport).
  assert (H1 : cache world_stale !! key = Some stale_entry) by (vm_compute; reflexivity).
  assert (H2 : now world_stale - timestamp stale_entry > HOLIDAYS_TTL) by reflexivity.
  split; [exact H1|]. split; [exact H2|]. split; [apply H|].
  exact (getHolidays_expired_entry net_down "CO" 2025 world_stale stale_entry _ _ _
           H1 H2 (H _) (H _) (H _)).
Defined.

Lemma getHolidays_failure_not_cached_witness :
  let key := holidays_key "CO" 2025 in
  let url := holidays_url "CO" 2025 in
  let w1 := snd (getHolidays net_down "CO" 2025 world0) in
  fst (getFromCache key HOLIDAYS_TTL world0) = Ok None /\
  fails (net_down url 0) (NetworkError "fetch failed") /\
  cache w1 !! key = None /\
  (requests_to url (trace (after w1 1000 [])) + 1
   <= requests_to url (trace (snd (getHolidays net_sample "CO" 2025 (after w1 1000 [])))))%nat.
Proof.
  intros key url w1.
  assert (H : forall n, fails (net_down url n) (NetworkError "fetch failed"))
    by (intros n; apply fails_transport).
  assert (H1 : fst (getFromCache key HOLIDAYS_TTL world0) = Ok None) by reflexivity.
  destruct (getHolidays_failure_not_cached net_down "CO" 2025 world0 _ _ _
              H1 (H _) (H _) (H _)) as [A B].
  split; [exact H1|]. split; [apply H|]. split; [exact A|]. exact (B net_sample 1000 []).
Defined.

Lemma getZoneStatus_live_witness :
  let zone := "America/Bogota" in
  let key := zone_key zone in
  let url := zone_url zone in
  let w' := after (evicted key world0) 40 [Fetch url] in
  fst (getFromCache key TIMEZONES_TTL world0) = Ok None /\
  fetchWithRetry net_sample url default_maxRetries (evicted key world0)
  = (Ok (sample_zone zone "-05:00"), w') /\
  live_status (sample_zone zone "-05:00") = sample_status /\
  getZoneStatus net_sample Intl_sample zone world0
  = (Ok (Some sample_status), snd (setCache key (CachedZone sample_status) w')) /\
  fetchWithRetry net_null url default_maxRetries (evicted key world0) = (Ok JNull, w') /\
  getZoneStatus net_null Intl_sample zone world0
  = getZoneStatus_local Intl_sample key zone w'.
Proof.
  intros zone key url w'.
  assert (H1 : fst (getFromCache key TIMEZONES_TTL world0) = Ok None) by reflexivity.
  assert (H2 : fetchWithRetry net_sample url default_maxRetries (evicted key world0)
               = (Ok (sample_zone zone "-05:00"), w')) by (vm_compute; reflexivity).
  assert (H3 : fetchWithRetry net_null url default_maxRetries (evicted key world0)
               = (Ok JNull, w')) by (vm_compute; reflexivity).
  split; [exact H1|]. split; [exact H2|]. split; [reflexivity|]. split.
  - exact (proj1 (getZoneStatus_live net_sample Intl_sample zone world0 w' _ H1 H2) eq_refl).
  - split; [exact H3|].
    exact (proj2 (getZoneStatus_live net_null Intl_sample zone world0 w' _ H1 H3) eq_refl).
Defined.

Lemma getZoneStatus_result_cached_witness :
  let zone := "America/Bogota" in
  let w' := snd (getZoneStatus net_sample Intl_sample zone world0) in
  fst (getZoneStatus net_sample Intl_sample zone world0) = Ok (Some sample_status) /\
  cache w' !! zone_key zone = Some (mkCacheEntry (CachedZone sample_status) (now w')) /\
  getZoneStatus net_down Intl_blind zone (after w' 60000 [])
  = (Ok (Some sample_status), after w' 60000 []).
Proof.
  intros zone w'.
  assert (H1 : fst (getZoneStatus net_sample Intl_sample zone world0)
               = Ok (Some sample_status)) by (vm_compute; reflexivity).
  assert (C : cache w' !! zone_key zone
              = Some (mkCacheEntry (CachedZone sample_status) (now w')))
    by (vm_compute; reflexivity).
  destruct (getZoneStatus_result_cached net_sample Intl_sample zone world0 sample_status H1)
    as (entry & E & _ & _ & H).
  split; [exact H1|]. split; [exact C|].
  apply H. fold w' in E. rewrite C in E. injection E as <-.
  vm_compute. discriminate.
Defined.

Lemma getZoneStatus_absent_not_cached_witness :
  let zone := "Mars/Olympus_Mons" in
  let w' := snd (getZoneStatus net_down Intl_blind zone world0) in
  fst (getZoneStatus net_down Intl_blind zone world0) = Ok None /\
  (requests_to (zone_url zone) (trace (after w' 1000 [])) + 1
   <= requests_to (zone_url zone)
        (trace (snd (getZoneStatus net_sample Intl_sample zone (after w' 1000 [])))))%nat.
Proof.
  intros zone w'.
  assert (H1 : fst (getZoneStatus net_down Intl_blind zone world0) = Ok None)
    by (vm_compute; reflexivity).
  split; [exact H1|].
  exact (getZoneStatus_absent_not_cached net_down Intl_blind zone world0 H1
           net_sample Intl_sample 1000 []).
Defined.

Lemma cache_ttl_not_sliding_witness :
  let key := holidays_key "CO" 2025 in
  let v := CachedHolidays sample_holidays_CO in
  let w1 := snd (setCache key v world0) in
  let w2 := snd (getFromCache key HOLIDAYS_TTL (after w1 43200000 [])) in
  43200000 <= HOLIDAYS_TTL /\
  fst (getFromCache key HOLIDAYS_TTL (after w1 43200000 [])) = Ok (Some v) /\
  fst (getFromCache key HOLIDAYS_TTL (after w2 43200001 [])) = Ok None.
Proof.
  intros key v w1 w2.
  assert (Hle : 43200000 <= HOLIDAYS_TTL) by (vm_compute; discriminate).
  split; [exact Hle|].
  exact (cache_ttl_not_sliding key v HOLIDAYS_TTL 43200000 43200001 world0 [] [] Hle).
Defined.

Lemma route_getTimezones_list_witness :
  let input := JObj [("country", JStr "CO")] in
  route_getTimezones input world0 = (Served (Ok (ZoneList ["America/Bogota"])), world0) /\
  exists country,
    property input "country" = JStr country /\
    String.length country = 2%nat /\
    ZoneList ["America/Bogota"] = ZoneList (default [] (own_property country COUNTRY_TIMEZONES)) /\
    world0 = world0.
Proof.
  intros input.
  assert (H : route_getTimezones input world0
              = (Served (Ok (ZoneList ["America/Bogota"])), world0)) by reflexivity.
  split; [exact H|].
  exact (route_getTimezones_list input world0 _ world0 H).
Defined.

Lemma compareCountries_all_providers_down_witness :
  existsb (String.eqb "CO") Object_prototype_members = false /\
  existsb (String.eqb "PE") Object_prototype_members = false /\
  cache world0 = ∅ /\
  fst (compareCountries net_down Intl_blind "CO" "PE" 2025 world0)
  = Ok (empty_result "CO" "PE" 2025) /\
  cache (snd (compareCountries net_down Intl_blind "CO" "PE" 2025 world0)) = ∅.
Proof.
  split; [reflexivity|]. split; [reflexivity|]. split; [reflexivity|].
  refine (compareCountries_all_providers_down net_down Intl_blind _ _
            "CO" "PE" 2025 world0 eq_refl eq_refl eq_refl).
  - intros url n. exists (NetworkError "fetch failed"). apply fails_transport.
  - intros zone t. now eexists.
Defined.

Lemma compareCountries_same_country_fetches_twice_witness :
  let url := holidays_url "CO" 2025 in
  cache world0 !! holidays_key "CO" 2025 = None /\
  (requests_to url (trace world0) + 2
   <= requests_to url
        (trace (snd (compareCountries net_sample Intl_sample "CO" "CO" 2025 world0))))%nat.
Proof.
  intros url.
  assert (H : cache world0 !! holidays_key "CO" 2025 = None) by reflexivity.
  split; [exact H|].
  exact (compareCountries_same_country_fetches_twice net_sample Intl_sample "CO" 2025 world0 H).
Defined.

(** ** The holiday provider has one source *)

Lemma requests_to_other url url' evs :
  url' <> url -> Forall (holiday_event url) evs -> requests_to url' evs = 0%nat.
Proof.
  intros Hne. unfold requests_to. induction 1 as [|e evs He _ IH]; [reflexivity|].
  simpl. destruct He as [[->|[ms ->]]|[what ->]]; simpl; try exact IH.
  destruct (String.eqb url url') eqn:E; [|exact IH].
  apply String.eqb_eq in E. congruence.
Qed.

Section SingleSource.
Variable net : string -> nat -> Exchange.

Lemma getHolidays_fetch_events cacheKey countryCode year w :
  exists evs,
    trace (snd (getHolidays_fetch net cacheKey countryCode year w)) = trace w ++ evs /\
    Forall (holiday_event (holidays_url countryCode year)) evs.
Proof.
  unfold getHolidays_fetch, try_catch, bind, fetchWithRetry.
  destruct (loop_effects net (holidays_url countryCode year) default_maxRetries
              (S default_maxRetries) 0%nat None w) as (dt & evs & E & Fa & _ & _).
  assert (Fh : Forall (holiday_event (holidays_url countryCode year)) evs).
  { eapply Forall_impl; [exact Fa|]. intros e He. now left. }
  destruct (fetchWithRetry_loop net _ default_maxRetries _ 0%nat None w)
    as [[payload|t] w1]; simpl in E; subst w1.
  - unfold lift. destruct (js_array_map toHoliday payload) as [hs|t]; simpl.
    + now exists evs.
    + eexists. rewrite <- app_assoc. split; [reflexivity|].
      apply Forall_app. split; [exact Fh|].
      apply Forall_cons; split; [right; now eexists | constructor].
  - simpl. eexists. rewrite <- app_assoc. split; [reflexivity|].
    apply Forall_app. split; [exact Fh|].
    apply Forall_cons; split; [right; now eexists | constructor].
Qed.

Lemma getHolidays_events countryCode year w :
  exists evs,
    trace (snd (getHolidays net countryCode year w)) = trace w ++ evs /\
    Forall (holiday_event (holidays_url countryCode year)) evs.
Proof.
  unfold getHolidays, getHolidays_call.
  destruct (getFromCache_frame (getCacheKey "holidays" [countryCode; year_toString year])
              HOLIDAYS_TTL w) as [_ T].
  destruct (getFromCache _ HOLIDAYS_TTL w) as [[[[hs|zs]|]|t] w1]; simpl in T |- *;
    try (destruct (getHolidays_fetch_events
                     (getCacheKey "holidays" [countryCode; year_toString year])
                     countryCode year w1) as (evs & E & F);
         exists evs; rewrite E, T; now split).
  exists []. rewrite T, app_nil_r. split; [reflexivity | constructor].
Qed.

(** C5, amended.  Whatever the process is configured with, [getHolidays]
    has one source: no call sends a request to any URL but that of the
    primary source for its country and year; and when the lookup misses the
    cache and the three attempts on the primary source fail, it logs the
    error and returns the empty list at once, after the two waits between
    the attempts. *)
Theorem getHolidays_single_source (env : ProcessEnv) (countryCode : string) (year : Z)
    (w : World) :
  let key := holidays_key countryCode year in
  let primary := holidays_url countryCode year in
  let n := requests_to primary (trace w) in
  let run := started_with env (getHolidays net countryCode year) w in
  (forall url, url <> primary ->
     requests_to url (trace (snd run)) = requests_to url (trace w)) /\
  (forall e0 e1 e2,
     fst (getFromCache key HOLIDAYS_TTL w) = Ok None ->
     fails (net primary n) e0 -> fails (net primary (n + 1)) e1 ->
     fails (net primary (n + 2)) e2 ->
     run
     = (Ok [],
        after (evicted key w)
          (elapsed (net primary n) + 1000 + elapsed (net primary (n + 1)) + 2000
           + elapsed (net primary (n + 2)))
          [Fetch primary; Sleep 1000; Fetch primary; Sleep 2000; Fetch primary;
           LogError ("Error fetching holidays for " +:+ countryCode +:+ ":")])).
Proof.
  intros key primary n run. unfold run, started_with. split.
  - intros url Hne.
    destruct (getHolidays_events countryCode year w) as (evs & -> & F).
    rewrite requests_to_app, (requests_to_other primary url evs Hne F). lia.
  - intros e0 e1 e2 Hmiss H0 H1 H2. unfold key.
    rewrite (getHolidays_miss _ _ _ _ Hmiss). fold key.
    unfold getHolidays_fetch, try_catch, bind. fold primary.
    rewrite (fetchWithRetry_exhausted net primary (evicted key w) e0 e1 e2 H0 H1 H2).
    unfold console_error, emit, ret, after; simpl. now rewrite <- app_assoc.
Qed.

End SingleSource.

Lemma getHolidays_single_source_witness :
  let key := holidays_key "CO" 2025 in
  let primary := holidays_url "CO" 2025 in
  let secondary := "https://calendarific.com/api/v2/holidays" in
  let run := started_with env_with_credential
               (getHolidays net_primary_down "CO" 2025) world0 in
  fst (getFromCache key HOLIDAYS_TTL world0) = Ok None /\
  fails (net_primary_down primary 0) (HttpError 503 "Service Unavailable") /\
  run
  = (Ok [],
     after (evicted key world0) 3120
       [Fetch primary; Sleep 1000; Fetch primary; Sleep 2000; Fetch primary;
        LogError "Error fetching holidays for CO:"]) /\
  requests_to secondary (trace (snd run)) = requests_to secondary (trace world0).
Proof.
  intros key primary secondary run.
  assert (Hmiss : fst (getFromCache key HOLIDAYS_TTL world0) = Ok None) by reflexivity.
  assert (H : forall n, fails (net_primary_down primary n)
                          (HttpError 503 "Service Unavailable"))
    by (intros n; apply fails_status; reflexivity).
  destruct (getHolidays_single_source net_primary_down env_with_credential
              "CO" 2025 world0) as [Hother Hfail].
  split; [exact Hmiss|]. split; [apply H|]. split.
  - exact (Hfail _ _ _ Hmiss (H _) (H _) (H _)).
  - apply Hother. discriminate.
Defined.
